(** * Verification of the ingestion core of the document pipeline

    A shallow embedding of the task queue ([src/queue_db.py]), the text
    extraction strategy ([src/text_extraction.py]), the OCR clean-up pass
    ([src/hunyuan_ocr.py]), the geo membership test ([src/geo_context.py],
    [src/geo_filter.py]), the webhook delivery and the worker iteration
    ([src/worker.py]).

    Conventions of the embedding.
    - A SQLite table is the list of its rows in rowid order; an [UPDATE] maps
      over the rows, a [SELECT ... LIMIT 1] / [fetchone] takes the first row
      the scan meets.
    - A timestamp ([time.time()], a REAL column) is an integer number of
      clock ticks: only order, equality and one subtraction are used on it.
    - Python floats that carry coordinates are exact rationals.  The quality
      score of a text is modelled twice: as the exact rational its expression
      denotes, and as the IEEE binary64 value the interpreter computes
      ([SpecFloat]); the OCR escalation, which compares two scores, uses the
      binary64 value.
    - Exceptions are an explicit [Raise] result. *)

From Stdlib Require Import String Ascii ZArith NArith List Bool Lia.
From Stdlib Require Import QArith Qminmax Lqa Permutation Sorted DecimalString.
From Stdlib Require DecimalNat DecimalFacts SpecFloat.
Import ListNotations.

(* ====================================================================== *)
(** * The task store: [src/queue_db.py] *)
(* ====================================================================== *)

Module QueueDb.

Local Open Scope string_scope.
Local Open Scope list_scope.
Local Open Scope Z_scope.

(** [time.time()] and the REAL columns [leased_at], [created_at],
    [updated_at]. *)
Definition Time := Z.

(** The values the code ever writes into [tasks.status]. *)
Inductive Status := pending | leased | done | flagged.

Definition status_eqb (a b : Status) : bool :=
  match a, b with
  | pending, pending | leased, leased | done, done | flagged, flagged => true
  | _, _ => false
  end.

(** One row of the [tasks] table (the [SCHEMA] of queue_db.py); a nullable
    column is an [option]. *)
Record Task := mkTask {
  id : Z;
  file_path : string;
  theme : option string;
  intent_json : option string;
  job_id : option Z;
  status : Status;
  attempts : Z;
  last_error : option string;
  leased_at : option Time;
  tenant_id : option string;
  created_at : Time;
  updated_at : Time
}.

(** ** SQL fragments *)

(** [UPDATE tasks SET ... WHERE cond]. *)
Definition update_where (cond : Task -> bool) (set : Task -> Task)
    (db : list Task) : list Task :=
  map (fun r => if cond r then set r else r) db.

(** [conn.execute("SELECT ... WHERE cond").fetchone()]. *)
Definition fetchone (cond : Task -> bool) (db : list Task) : option Task :=
  find cond db.

(** [ORDER BY key LIMIT 1] over the rows a scan yields; among rows with the
    same key the one met first (lowest rowid) is kept. *)
Fixpoint order_by_limit1 (key : Task -> Time) (rows : list Task) : option Task :=
  match rows with
  | [] => None
  | r :: rest =>
      match order_by_limit1 key rest with
      | Some m => if key m <? key r then Some m else Some r
      | None => Some r
      end
  end.

(** [column = ?] on a nullable TEXT column: NULL never compares equal. *)
Definition text_eq (column : option string) (param : string) : bool :=
  match column with
  | Some v => String.eqb v param
  | None => false
  end.

Definition is_null {A} (column : option A) : bool :=
  match column with Some _ => false | None => true end.

(** The tenant clause [lease_one] appends to both of its queries:
    nothing when [tenant_id is None], [(tenant_id = ? OR tenant_id IS NULL)]
    when [allow_unscoped], [tenant_id = ?] otherwise. *)
Definition tenant_clause (tenant : option string) (allow_unscoped : bool)
    (r : Task) : bool :=
  match tenant with
  | None => true
  | Some t =>
      if allow_unscoped
      then text_eq (tenant_id r) t || is_null (tenant_id r)
      else text_eq (tenant_id r) t
  end.

(** [status = 'pending' AND <tenant clause>]. *)
Definition pending_where (tenant : option string) (allow_unscoped : bool)
    (r : Task) : bool :=
  status_eqb (status r) pending && tenant_clause tenant allow_unscoped r.

(** [SET status = 'leased', leased_at = ?, attempts = attempts + 1,
    updated_at = ?]. *)
Definition set_leased (now : Time) (r : Task) : Task :=
  mkTask (id r) (file_path r) (theme r) (intent_json r) (job_id r)
         leased (attempts r + 1) (last_error r) (Some now) (tenant_id r)
         (created_at r) now.

(** [SET status='pending', updated_at=?] (the recycling of a lease). *)
Definition set_recycled (now : Time) (r : Task) : Task :=
  mkTask (id r) (file_path r) (theme r) (intent_json r) (job_id r)
         pending (attempts r) (last_error r) (leased_at r) (tenant_id r)
         (created_at r) now.

(** [SET status='done', updated_at=?]. *)
Definition set_done (now : Time) (r : Task) : Task :=
  mkTask (id r) (file_path r) (theme r) (intent_json r) (job_id r)
         done (attempts r) (last_error r) (leased_at r) (tenant_id r)
         (created_at r) now.

(** [SET status='flagged', last_error=?, updated_at=?]. *)
Definition set_flagged (error : string) (now : Time) (r : Task) : Task :=
  mkTask (id r) (file_path r) (theme r) (intent_json r) (job_id r)
         flagged (attempts r) (Some error) (leased_at r) (tenant_id r)
         (created_at r) now.

(** [SET status='pending', last_error=NULL, updated_at=?]. *)
Definition set_reset (now : Time) (r : Task) : Task :=
  mkTask (id r) (file_path r) (theme r) (intent_json r) (job_id r)
         pending (attempts r) None (leased_at r) (tenant_id r)
         (created_at r) now.

(** ** [enqueue] *)

(** The id AUTOINCREMENT gives the next row of a table no row was ever
    deleted from. *)
Definition next_id (db : list Task) : Z :=
  1 + fold_right Z.max 0 (map id db).

(** [enqueue]: the INSERT names file_path, theme, job_id, tenant_id and
    intent_json; the other columns take their defaults, the two timestamps
    the reading [unixepoch()] of the database clock.  Returns the new id. *)
Definition enqueue (unixepoch : Time) (file_path : string) (theme : option string)
    (job_id : option Z) (tenant_id intent_json : option string) (db : list Task)
    : Z * list Task :=
  let i := next_id db in
  (i, db ++ [mkTask i file_path theme intent_json job_id pending 0 None None
                    tenant_id unixepoch unixepoch]).

(** ** [lease_one] *)

(** The conditional update of lines 135-150: the subquery picks the oldest
    pending row of the filter; when it yields no row, [id = NULL] holds of
    no row and nothing is updated. *)
Definition claim (now : Time) (tenant : option string) (allow_unscoped : bool)
    (db : list Task) : list Task :=
  match order_by_limit1 created_at (filter (pending_where tenant allow_unscoped) db) with
  | Some r => update_where (fun x => id x =? id r) (set_leased now) db
  | None => db
  end.

(** The read-back of line 152:
    [SELECT * FROM tasks WHERE status='leased' AND leased_at = ?]. *)
Definition leased_now (now : Time) (r : Task) : bool :=
  status_eqb (status r) leased &&
  match leased_at r with Some t => t =? now | None => false end.

(** [status='leased' AND leased_at < ? AND <tenant clause>] with
    [? = now - visibility_timeout_sec]. *)
Definition expired_where (threshold : Time) (tenant : option string)
    (allow_unscoped : bool) (r : Task) : bool :=
  status_eqb (status r) leased &&
  match leased_at r with Some t => t <? threshold | None => false end &&
  tenant_clause tenant allow_unscoped r.

Definition leased_at_key (r : Task) : Time :=
  match leased_at r with Some t => t | None => 0 end.

(** Lines 155-172: the oldest expired lease of the filter, if any. *)
Definition find_expired (now : Time) (visibility_timeout_sec : Z)
    (tenant : option string) (allow_unscoped : bool) (db : list Task) : option Task :=
  order_by_limit1 leased_at_key
    (filter (expired_where (now - visibility_timeout_sec) tenant allow_unscoped) db).

(** Lines 175-179: [UPDATE tasks SET status='pending', updated_at=? WHERE id=?]. *)
Definition recycle (now : Time) (expired : Task) (db : list Task) : list Task :=
  update_where (fun x => id x =? id expired) (set_recycled now) db.

(** [lease_one].  Every activation of the function starts with
    [now = time.time()]: [clock] lists the readings the successive
    activations will get, and the activation consumes the first of them.
    The result is the returned row, the store, and the readings not yet
    consumed; [None] stands for a run that needs more readings than [clock]
    holds.  The last branch is the self-call of lines 180-185. *)
Fixpoint lease_one (clock : list Time) (visibility_timeout_sec : Z)
    (tenant : option string) (allow_unscoped : bool) (db : list Task)
    : option (option Task * list Task * list Time) :=
  match clock with
  | [] => None
  | now :: clock' =>
      let db1 := claim now tenant allow_unscoped db in
      match fetchone (leased_now now) db1 with
      | Some row => Some (Some row, db1, clock')
      | None =>
          match find_expired now visibility_timeout_sec tenant allow_unscoped db1 with
          | None => Some (None, db1, clock')
          | Some expired =>
              lease_one clock' visibility_timeout_sec tenant allow_unscoped
                        (recycle now expired db1)
          end
      end
  end.

(** ** [complete], [flag], [reset_to_pending] *)

(** [((tenant_id IS NULL AND ? IS NULL) OR tenant_id=?)]. *)
Definition tenant_guard (r : Task) (tenant : option string) : bool :=
  (is_null (tenant_id r) && is_null tenant) ||
  match tenant with
  | Some t => text_eq (tenant_id r) t
  | None => false
  end.

(** The UPDATE of [complete], run on the store. *)
Definition complete (now : Time) (task_id : Z) (tenant : option string)
    (db : list Task) : list Task :=
  update_where (fun r => (id r =? task_id) && tenant_guard r tenant) (set_done now) db.

(** The UPDATE of [flag], run on the store. *)
Definition flag (now : Time) (task_id : Z) (error : string) (tenant : option string)
    (db : list Task) : list Task :=
  update_where (fun r => (id r =? task_id) && tenant_guard r tenant)
               (set_flagged error now) db.

(** How a call ends: it returns, leaving a store, or the sqlite3 module
    raises OverflowError ("Python int too large to convert to SQLite
    INTEGER") while it binds the parameters, before the statement runs. *)
Inductive Call (A : Type) : Type :=
| Returns (a : A)
| OverflowError.
Arguments Returns {A} a.
Arguments OverflowError {A}.

(** An int the sqlite3 module can bind: one that fits in 64 bits. *)
Definition binds (n : Z) : bool := (- 2 ^ 63 <=? n) && (n <? 2 ^ 63).

(** The calls [complete(db_path, task_id, tenant_id)] and
    [flag(db_path, task_id, error, tenant_id)]: [task_id] is the one int
    among the parameters of their [conn.execute]. *)
Definition complete_call (now : Time) (task_id : Z) (tenant : option string)
    (db : list Task) : Call (list Task) :=
  if binds task_id then Returns (complete now task_id tenant db) else OverflowError.

Definition flag_call (now : Time) (task_id : Z) (error : string)
    (tenant : option string) (db : list Task) : Call (list Task) :=
  if binds task_id then Returns (flag now task_id error tenant db) else OverflowError.

Definition reset_to_pending (now : Time) (task_id : Z) (db : list Task) : list Task :=
  update_where (fun r => id r =? task_id) (set_reset now) db.

(** ** Stores used in the examples *)

Definition row (i : Z) (st : Status) (n : Z) (l : option Time) (t : option string)
    (c : Time) : Task :=
  mkTask i "scan.pdf" (Some "demo") None None st n None l t c c.

(** Two pending tasks of one tenant, enqueued at 10 and at 20. *)
Definition two_pending : list Task :=
  [ row 1 pending 0 None (Some "tenant-a") 20;
    row 2 pending 0 None (Some "tenant-a") 10 ].

(** One pending task of tenant b and one of tenant a. *)
Definition both_pending : list Task :=
  [ row 1 pending 0 None (Some "tenant-b") 10;
    row 2 pending 0 None (Some "tenant-a") 20 ].

(** Tenant b's task as a worker of tenant b leases it at reading 100. *)
Definition leased_b : Task :=
  mkTask 1 "scan.pdf" (Some "demo") None None leased 1 None (Some 100)
         (Some "tenant-b") 10 100.

(** The store after that lease. *)
Definition same_tick : list Task :=
  [ leased_b; row 2 pending 0 None (Some "tenant-a") 20 ].

(** Nothing pending; one lease taken at tick 0. *)
Definition one_stale_lease : list Task :=
  [ row 7 leased 1 (Some 0) None 0 ].

(** A done task of tenant a and a flagged task without tenant. *)
Definition mixed : list Task :=
  [ row 1 done 1 (Some 5) (Some "tenant-a") 1;
    mkTask 2 "b.txt" None (Some "{}") (Some 9) flagged 3 (Some "validation failed")
           (Some 7) None 2 8 ].

(** ** The read side: [get_task], [task_counts], [last_error_for_job] *)

(** Python truthiness of an optional str argument ([if tenant_id:]):
    [None] and the empty string are false. *)
Definition truthy (v : option string) : bool :=
  match v with
  | Some s => negb (String.eqb s "")
  | None => false
  end.

(** [get_task]: the tenant restricts the lookup only when it is truthy. *)
Definition get_task (task_id : Z) (tenant : option string) (db : list Task)
    : option Task :=
  match tenant with
  | Some t =>
      if truthy tenant
      then fetchone (fun r => (id r =? task_id) && text_eq (tenant_id r) t) db
      else fetchone (fun r => id r =? task_id) db
  | None => fetchone (fun r => id r =? task_id) db
  end.

(** [SELECT status, COUNT( * ) ... GROUP BY status], read into the dict
    [{status: count}]: one entry for each status some scanned row has. *)
Definition group_by_status (rows : list Task) : list (Status * nat) :=
  filter (fun entry => negb (Nat.eqb (snd entry) 0))
    (map (fun st => (st, length (filter (fun r => status_eqb (status r) st) rows)))
         [done; flagged; leased; pending]).

(** [job_id=?] on the nullable INTEGER column. *)
Definition job_eq (column : option Z) (param : Z) : bool :=
  match column with
  | Some j => j =? param
  | None => false
  end.

Definition task_counts (tenant : option string) (db : list Task)
    : list (Status * nat) :=
  match tenant with
  | Some t =>
      if truthy tenant
      then group_by_status (filter (fun r => text_eq (tenant_id r) t) db)
      else group_by_status db
  | None => group_by_status db
  end.

Definition task_counts_for_job (job : Z) (tenant : option string) (db : list Task)
    : list (Status * nat) :=
  match tenant with
  | Some t =>
      if truthy tenant
      then group_by_status
             (filter (fun r => job_eq (job_id r) job && text_eq (tenant_id r) t) db)
      else group_by_status (filter (fun r => job_eq (job_id r) job) db)
  | None => group_by_status (filter (fun r => job_eq (job_id r) job) db)
  end.

(** [ORDER BY key DESC]: an insertion sort that keeps rows with the same
    key in scan order (SQLite does not specify their order). *)
Fixpoint insert_desc (key : Task -> Time) (r : Task) (sorted : list Task)
    : list Task :=
  match sorted with
  | [] => [r]
  | x :: rest =>
      if key x <=? key r then r :: sorted else x :: insert_desc key r rest
  end.

Definition order_by_desc (key : Task -> Time) (rows : list Task) : list Task :=
  fold_right (insert_desc key) [] rows.

(** The integers a query parameter can be: the sqlite3 module raises
    OverflowError when it is handed a Python int outside 64 bits. *)
Definition sqlite_integer (n : Z) : Prop := - 2 ^ 63 <= n < 2 ^ 63.

(** [LIMIT ?]: a negative limit is no limit. *)
Definition limit_rows {A} (limit : Z) (rows : list A) : list A :=
  if limit <? 0 then rows else firstn (Z.to_nat limit) rows.

(** [last_error_for_job]. *)
Definition last_error_for_job (job : Z) (tenant : option string) (db : list Task)
    : option string :=
  let scoped (r : Task) :=
    match tenant with
    | Some t => if truthy tenant then text_eq (tenant_id r) t else true
    | None => true
    end in
  let rows :=
    filter (fun r => job_eq (job_id r) job && scoped r && negb (is_null (last_error r)))
           db in
  match limit_rows 1 (order_by_desc updated_at rows) with
  | row :: _ => last_error row
  | [] => None
  end.

(** ** [list_flagged] and its caller [rerun_flagged] of
    [scripts/queue_admin.py] *)

(** SQLite's [LIKE]: [%] stands for any run of characters, [_] for any one
    character, and the letters a-z and A-Z match without regard to case. *)
Definition like_upper (c : ascii) : ascii :=
  let n := nat_of_ascii c in
  if Nat.leb 97 n && Nat.leb n 122 then ascii_of_nat (n - 32) else c.

Fixpoint like_chars (pattern text : list ascii) : bool :=
  match pattern with
  | [] => match text with [] => true | _ :: _ => false end
  | p :: pattern' =>
      if Ascii.eqb p "%"%char then
        (fix any_suffix (t : list ascii) : bool :=
           like_chars pattern' t ||
           match t with
           | [] => false
           | _ :: t' => any_suffix t'
           end) text
      else
        match text with
        | [] => false
        | c :: text' =>
            (Ascii.eqb p "_"%char || Ascii.eqb (like_upper p) (like_upper c)) &&
            like_chars pattern' text'
        end
  end.

(** [column LIKE ?] with the parameter [f"%{needle}%"]; NULL matches
    nothing. *)
Definition like_contains (column : option string) (needle : string) : bool :=
  match column with
  | Some v => like_chars (list_ascii_of_string
                            (String.append "%" (String.append needle "%")))
                         (list_ascii_of_string v)
  | None => false
  end.

(** One optional filter of the WHERE clause: present only when the
    argument is truthy. *)
Definition optional_filter (argument : option string)
    (test : string -> bool) : bool :=
  match argument with
  | Some v => if truthy argument then test v else true
  | None => true
  end.

Definition list_flagged (limit : Z)
    (tenant theme_contains intent_contains : option string)
    (db : list Task) : list Task :=
  limit_rows limit
    (order_by_desc updated_at
       (filter (fun r =>
                  status_eqb (status r) flagged &&
                  optional_filter tenant (text_eq (tenant_id r)) &&
                  optional_filter theme_contains (like_contains (theme r)) &&
                  optional_filter intent_contains (like_contains (intent_json r)))
               db)).

(** The text of the [status] column. *)
Definition status_text (s : Status) : string :=
  match s with
  | pending => "pending"
  | leased => "leased"
  | done => "done"
  | flagged => "flagged"
  end.

(** [list_tasks]: every filter is optional, the order is by [created_at]. *)
Definition list_tasks (limit : Z)
    (tenant status_is theme_contains intent_contains : option string)
    (db : list Task) : list Task :=
  limit_rows limit
    (order_by_desc created_at
       (filter (fun r =>
                  optional_filter tenant (text_eq (tenant_id r)) &&
                  optional_filter status_is (String.eqb (status_text (status r))) &&
                  optional_filter theme_contains (like_contains (theme r)) &&
                  optional_filter intent_contains (like_contains (intent_json r)))
               db)).

(** [tasks_for_job]: no limit. *)
Definition tasks_for_job (job : Z) (tenant : option string) (db : list Task)
    : list Task :=
  match tenant with
  | Some t =>
      if truthy tenant
      then order_by_desc created_at
             (filter (fun r => job_eq (job_id r) job && text_eq (tenant_id r) t) db)
      else order_by_desc created_at (filter (fun r => job_eq (job_id r) job) db)
  | None => order_by_desc created_at (filter (fun r => job_eq (job_id r) job) db)
  end.

(** [rerun_flagged]: [clock k] is the reading the k-th call of
    [reset_to_pending] gets from [time.time()].  The loop state is the
    store and [count]. *)
Definition rerun_flagged (clock : nat -> Time) (limit : Z) (db : list Task)
    : nat * list Task :=
  let rows := list_flagged limit None None None db in
  let '(db', count) :=
    fold_left (fun (state : list Task * nat) (r : Task) =>
                 let '(db, count) := state in
                 (reset_to_pending (clock count) (id r) db, S count))
              rows (db, O) in
  (count, db').

(** ** The upload manifest: [find_manifest], [upsert_manifest] *)

(** One row of [file_manifest]. *)
Record Manifest := mkManifest {
  manifest_id : Z;
  sha256 : string;
  stored_path : string;
  original_name : option string;
  size_bytes : option Z;
  manifest_theme : option string;
  manifest_tenant : option string;
  manifest_created_at : Time;
  manifest_updated_at : Time
}.

Definition sha_eq (sha : string) (r : Manifest) : bool := String.eqb (sha256 r) sha.

(** [find_manifest]: the row of the tenant when a truthy tenant is given
    and has one, otherwise the row without tenant. *)
Definition find_manifest (sha : string) (tenant : option string)
    (manifest : list Manifest) : option Manifest :=
  let unscoped :=
    find (fun r => sha_eq sha r && is_null (manifest_tenant r)) manifest in
  match tenant with
  | Some t =>
      if truthy tenant then
        match find (fun r => sha_eq sha r && text_eq (manifest_tenant r) t) manifest with
        | Some row => Some row
        | None => unscoped
        end
      else unscoped
  | None => unscoped
  end.

(** The rows an INSERT of [(sha, tenant)] collides with under
    [UNIQUE(sha256, tenant_id)]: a NULL tenant_id collides with nothing,
    and the constraint leaves at most one such row in the table. *)
Definition conflicts (sha : string) (tenant : option string) (r : Manifest) : bool :=
  sha_eq sha r &&
  match tenant with
  | Some t => text_eq (manifest_tenant r) t
  | None => false
  end.

(** [COALESCE(excluded.x, file_manifest.x)]. *)
Definition coalesce {A} (excluded current : option A) : option A :=
  match excluded with
  | Some _ => excluded
  | None => current
  end.

(** The [DO UPDATE SET] of the upsert. *)
Definition set_upserted (now : Time) (file_path : string) (name : option string)
    (size : option Z) (theme : option string) (r : Manifest) : Manifest :=
  mkManifest (manifest_id r) (sha256 r) file_path (coalesce name (original_name r))
             size (coalesce theme (manifest_theme r)) (manifest_tenant r)
             (manifest_created_at r) now.

(** [upsert_manifest]: the row it returns ([None] is the failure of
    [assert row is not None]) and the table.  [rowid] is the id SQLite
    allots to an inserted row. *)
Definition upsert_manifest (rowid : Z) (now : Time) (sha file_path : string)
    (name : option string) (size : option Z) (theme tenant : option string)
    (manifest : list Manifest) : option Manifest * list Manifest :=
  let manifest' :=
    if existsb (conflicts sha tenant) manifest
    then map (fun r => if conflicts sha tenant r
                       then set_upserted now file_path name size theme r else r)
             manifest
    else manifest ++ [mkManifest rowid sha file_path name size theme tenant now now] in
  (find (fun r => sha_eq sha r &&
                  (match tenant with
                   | Some t => text_eq (manifest_tenant r) t
                   | None => false
                   end || (is_null (manifest_tenant r) && is_null tenant)))
        manifest',
   manifest').

(** A task that was flagged, for the examples. *)
Definition with_flagged : list Task :=
  [ row 1 done 1 (Some 5) (Some "tenant-a") 1;
    mkTask 2 "b.txt" None None (Some 9) flagged 3 (Some "validation failed")
           (Some 7) (Some "tenant-a") 2 8;
    mkTask 3 "c.txt" None None (Some 9) flagged 1 (Some "empty content")
           (Some 7) None 3 9 ].

(** An upload of tenant a and an upload without tenant. *)
Definition known_uploads : list Manifest :=
  [ mkManifest 1 "9f86d0" "incoming/17-letter.pdf" (Some "letter.pdf") (Some 2048)
               (Some "demo") (Some "tenant-a") 10 10;
    mkManifest 2 "60303a" "incoming/18-map.png" (Some "map.png") (Some 512)
               None None 20 20 ].

End QueueDb.

(* ====================================================================== *)
(** * Extraction quality and OCR escalation: [src/text_extraction.py] *)
(* ====================================================================== *)

Module TextExtraction.

Local Open Scope string_scope.
Local Open Scope list_scope.

(** An exception-raising call: its value, or [Raise]. *)
Inductive outcome (A : Type) : Type :=
| Ok (a : A)
| Raise.
Arguments Ok {A} a.
Arguments Raise {A}.

(** The backends [_ocr_image] may call, for the log of calls. *)
Inductive Call := CallHunyuan | CallTesseract | CallReadText.

(** The two settings [_ocr_image] reads; [ocr_backend] is
    [getattr(settings, "ocr_backend", "pytesseract")]. *)
Record Settings := mkSettings {
  ocr_enabled : bool;
  ocr_backend : string
}.

(** ** Python floats

    A float is an IEEE binary64 value; every operation rounds to nearest,
    ties to even. *)
Definition float : Type := SpecFloat.spec_float.

Definition float_of_int (n : Z) : float :=
  SpecFloat.binary_normalize 53 1024 n 0 false.

Definition float_add : float -> float -> float := SpecFloat.SFadd 53 1024.
Definition float_mul : float -> float -> float := SpecFloat.SFmul 53 1024.

(** [a / b] on two ints: the quotient, rounded once.  Both operands are
    counts of characters, far below 2^53, so their conversion is exact. *)
Definition true_div (a b : nat) : float :=
  SpecFloat.SFdiv 53 1024 (float_of_int (Z.of_nat a)) (float_of_int (Z.of_nat b)).

(** The float a decimal literal such as [0.4] denotes: the binary64 value
    nearest to 4/10. *)
Definition literal (numerator denominator : Z) : float :=
  SpecFloat.SFdiv 53 1024 (float_of_int numerator) (float_of_int denominator).

(** [a < b] and [a >= b]. *)
Definition float_lt (a b : float) : bool := SpecFloat.SFltb a b.
Definition float_ge (a b : float) : bool := SpecFloat.SFleb b a.

(** [min(a, b)]: the first argument unless the second is smaller. *)
Definition float_min (a b : float) : float := if float_lt b a then b else a.

Section Text.

(** A text is a list of characters.  The character type and Python's
    Unicode predicates [str.isprintable], [str.isalpha], [str.isdigit] and
    the white space [str.strip] removes are parameters: their tables are not
    part of the repository. *)
Context {char : Type}.
Variable char_eq_dec : forall a b : char, {a = b} + {a <> b}.
Variables isprintable isalpha isdigit isspace : char -> bool.

(** [sum(p(ch) for ch in l)]. *)
Definition count (p : char -> bool) (l : list char) : nat :=
  length (filter p l).

(** True division of two counts. *)
Definition ratio (a b : nat) : Q :=
  inject_Z (Z.of_nat a) / inject_Z (Z.of_nat b).

(** [_quality]: the pair (score, length), the score as the exact rational
    the expression of line 71 denotes. *)
Definition _quality (text : list char) : Q * nat :=
  match text with
  | [] => (0, 0%nat)
  | _ :: _ =>
      let printable := filter isprintable text in
      let length := List.length printable in
      if Nat.eqb length 0 then (0, 0%nat)
      else
        let alpha := count isalpha printable in
        let digit := count isdigit printable in
        let printable_ratio := ratio length (Nat.max (List.length text) 1) in
        let alpha_ratio := ratio alpha length in
        let density := ratio (alpha + digit) length in
        let unique := ratio (List.length (nodup char_eq_dec printable)) length in
        (alpha_ratio * (4 # 10) + density * (3 # 10) + printable_ratio * (2 # 10)
           + Qmin unique (5 # 10) * (1 # 10),
         length)
  end.

(** [_quality] as it is computed: the same counts, the arithmetic of
    lines 67-71 in binary64, operation by operation and in the order Python
    evaluates them. *)
Definition _quality_float (text : list char) : float * nat :=
  match text with
  | [] => (float_of_int 0, 0%nat)
  | _ :: _ =>
      let printable := filter isprintable text in
      let length := List.length printable in
      if Nat.eqb length 0 then (float_of_int 0, 0%nat)
      else
        let alpha := count isalpha printable in
        let digit := count isdigit printable in
        let printable_ratio := true_div length (Nat.max (List.length text) 1) in
        let alpha_ratio := true_div alpha length in
        let density := true_div (alpha + digit) length in
        let unique := true_div (List.length (nodup char_eq_dec printable)) length in
        (float_add
           (float_add
              (float_add (float_mul alpha_ratio (literal 4 10))
                         (float_mul density (literal 3 10)))
              (float_mul printable_ratio (literal 2 10)))
           (float_mul (float_min unique (literal 5 10)) (literal 1 10)),
         length)
  end.

(** [bool(text.strip())]: some character is not white space. *)
Definition nonblank (text : list char) : bool :=
  existsb (fun c => negb (isspace c)) text.

(** What the calls of one [_ocr_image] run return or raise:
    [extract_text_with_hunyuan] at line 93 and again at line 111,
    [Image.open] with [pytesseract.image_to_string] at lines 101-102, and
    [image_path.read_text(errors="ignore")] at line 121. *)
Record Backends := mkBackends {
  hunyuan_direct : outcome (list char);
  pytesseract : outcome (list char);
  hunyuan_escalation : outcome (list char);
  read_text : outcome (list char)
}.

Definition hunyuan_selected (s : Settings) : bool :=
  ocr_enabled s && String.eqb (ocr_backend s) "hunyuan".

Definition Result : Type := (list char * string * option string)%type.

Definition low_quality (text : list char) : Result :=
  (text, "tesseract", Some "Low OCR quality (tesseract)").

(** Lines 105-117, the body of [if score < 0.25 or length < 30]; the two
    scores are the floats [_quality] returned. *)
Definition escalate (s : Settings) (b : Backends) (text : list char) (score : float)
    : Result * list Call :=
  if hunyuan_selected s then
    match hunyuan_escalation b with
    | Ok hy_text =>
        let hy_score := fst (_quality_float hy_text) in
        if nonblank hy_text && float_ge hy_score score
        then ((hy_text, "hunyuan", Some "Escalated to Hunyuan (low tesseract quality)"),
              [CallHunyuan])
        else (low_quality text, [CallHunyuan])
    | Raise => (low_quality text, [CallHunyuan])
    end
  else (low_quality text, []).

(** Lines 97-121: the fast engine, with its escalation and its fallback. *)
Definition fast_engine (s : Settings) (b : Backends)
    : outcome Result * list Call :=
  match pytesseract b with
  | Ok text =>
      let '(score, length) := _quality_float text in
      if float_lt score (literal 25 100) || Nat.ltb length 30
      then let '(r, calls) := escalate s b text score in
           (Ok r, CallTesseract :: calls)
      else (Ok (text, "tesseract", None), [CallTesseract])
  | Raise =>
      match read_text b with
      | Ok raw => (Ok (raw, "none", Some "pytesseract failure"),
                   [CallTesseract; CallReadText])
      | Raise => (Raise, [CallTesseract; CallReadText])
      end
  end.

(** [_ocr_image]: the result (text, backend_name, note) and the backends
    called, in order. *)
Definition _ocr_image (s : Settings) (b : Backends) : outcome Result * list Call :=
  if hunyuan_selected s then
    match hunyuan_direct b with
    | Ok text => (Ok (text, "hunyuan", None), [CallHunyuan])
    | Raise => let '(r, calls) := fast_engine s b in (r, CallHunyuan :: calls)
    end
  else fast_engine s b.

End Text.

(** ** The predicates on the ASCII range, for the examples *)

Definition code (c : ascii) : nat := nat_of_ascii c.

Definition ascii_isprintable (c : ascii) : bool :=
  Nat.leb 32 (code c) && Nat.leb (code c) 126.

Definition ascii_isalpha (c : ascii) : bool :=
  (Nat.leb 65 (code c) && Nat.leb (code c) 90) ||
  (Nat.leb 97 (code c) && Nat.leb (code c) 122).

Definition ascii_isdigit (c : ascii) : bool :=
  Nat.leb 48 (code c) && Nat.leb (code c) 57.

Definition ascii_isspace (c : ascii) : bool :=
  (Nat.leb 9 (code c) && Nat.leb (code c) 13) ||
  (Nat.leb 28 (code c) && Nat.leb (code c) 32).

Definition quality_ascii (text : string) : Q * nat :=
  _quality ascii_dec ascii_isprintable ascii_isalpha ascii_isdigit
           (list_ascii_of_string text).

Definition quality_float_ascii (text : string) : float * nat :=
  _quality_float ascii_dec ascii_isprintable ascii_isalpha ascii_isdigit
                 (list_ascii_of_string text).

Definition ocr_image_ascii : Settings -> Backends -> outcome Result * list Call :=
  _ocr_image ascii_dec ascii_isprintable ascii_isalpha ascii_isdigit ascii_isspace.


(** The fast engine reads "a012" and the escalation call reads "abcd!#$":
    two texts whose scores are the same rational, 13/20. *)
Definition equal_rationals : Backends :=
  mkBackends Raise
             (Ok (list_ascii_of_string "a012"))
             (Ok (list_ascii_of_string "abcd!#$"))
             Raise.

End TextExtraction.

(* ====================================================================== *)
(** * Repetition clean-up of OCR output: [src/hunyuan_ocr.py] *)
(* ====================================================================== *)

Module HunyuanOcr.

Local Open Scope list_scope.
Local Open Scope Z_scope.

Section Cleanup.

Context {char : Type}.
Variable char_eq_dec : forall a b : char, {a = b} + {a <> b}.

(** The line feed, the one character the pattern [.] does not match. *)
Variable newline : char.

Definition dot (c : char) : bool :=
  if char_eq_dec c newline then false else true.

(** ** First pass: [re.sub(r'(.)\1{15,}', r'\1\1\1', text)]

    The pattern matches at a position when the character there is not the
    line feed and at least 15 copies of it follow; the greedy quantifier
    then takes every copy that follows. *)

(** The number of copies of [c] that [l] starts with. *)
Fixpoint run_length (c : char) (l : list char) : nat :=
  match l with
  | d :: l' => if char_eq_dec d c then S (run_length c l') else O
  | [] => O
  end.

(** The scan of [re.sub], left to right: where the pattern matches, the
    replacement is emitted and the scan resumes after the match; elsewhere
    the character is copied and the scan moves on by one.  [fuel] bounds
    the positions visited. *)
Fixpoint re_sub_scan (fuel : nat) (l : list char) : list char :=
  match fuel with
  | O => l
  | S fuel' =>
      match l with
      | [] => []
      | c :: rest =>
          let k := run_length c rest in
          if dot c && Nat.leb 15 k
          then c :: c :: c :: re_sub_scan fuel' (skipn k rest)
          else c :: re_sub_scan fuel' rest
      end
  end.

Definition re_sub (text : list char) : list char :=
  re_sub_scan (length text) text.

(** The same pass, run by run: the matches are exactly the maximal runs of
    16 or more copies of a character other than the line feed. *)

(** What a maximal run of [k] copies of [c] becomes. *)
Definition flush (c : char) (k : nat) : list char :=
  if dot c && Nat.leb 16 k then [c; c; c] else repeat c k.

(** The pass, having read [k] copies of [c] that end just before [l]. *)
Fixpoint sub_runs_from (c : char) (k : nat) (l : list char) : list char :=
  match l with
  | [] => flush c k
  | d :: l' =>
      if char_eq_dec d c then sub_runs_from c (S k) l'
      else flush c k ++ sub_runs_from d 1 l'
  end.

Definition sub_runs (text : list char) : list char :=
  match text with
  | [] => []
  | c :: l => sub_runs_from c 1 l
  end.

(** ** Second pass: the trailing repeat *)

(** [len(text)]. *)
Definition len (text : list char) : Z := Z.of_nat (length text).

(** [text[i:j]] for [0 <= i <= j]. *)
Definition slice (text : list char) (i j : Z) : list char :=
  firstn (Z.to_nat (j - i)) (skipn (Z.to_nat i) text).

(** [text[-k:]] for [0 < k <= len(text)]. *)
Definition last_chars (text : list char) (k : Z) : list char :=
  skipn (Z.to_nat (len text - k)) text.

(** [text[:j]] for [0 <= j]. *)
Definition first_chars (text : list char) (j : Z) : list char :=
  firstn (Z.to_nat j) text.

Definition text_eqb (a b : list char) : bool :=
  if list_eq_dec char_eq_dec a b then true else false.

(** [while i >= 0 and text[i : i + length] == candidate:
       count += 1; i -= length]: the final [count]. *)
Fixpoint count_loop (fuel : nat) (text candidate : list char) (length i count : Z) : Z :=
  match fuel with
  | O => count
  | S fuel' =>
      if (0 <=? i) && text_eqb (slice text i (i + length)) candidate
      then count_loop fuel' text candidate length (i - length) (count + 1)
      else count
  end.

(** The body of [for length in range(2, n // 10 + 1)], over the lengths
    still to try. *)
Fixpoint trim_scan (lengths : list Z) (text : list char) (n : Z) : list char :=
  match lengths with
  | [] => text
  | length :: rest =>
      let candidate := last_chars text length in
      let count :=
        count_loop (S (Datatypes.length text)) text candidate length (n - length) 0 in
      if 5 <=? count then first_chars text (n - length * (count - 1))
      else trim_scan rest text n
  end.

(** [range(a, b)]. *)
Definition range (a b : Z) : list Z :=
  map (fun k => a + Z.of_nat k) (seq 0 (Z.to_nat (b - a))).

Definition _clean_repeated_substrings (text : list char) : list char :=
  let text := re_sub text in
  let n := len text in
  if n <? 1000 then text
  else trim_scan (range 2 (n / 10 + 1)) text n.

(** ** Texts without a run the first pass would rewrite *)

Definition short_run (c : char) (k : nat) : bool :=
  negb (dot c && Nat.leb 16 k).

Fixpoint settled_from (c : char) (k : nat) (l : list char) : bool :=
  match l with
  | [] => short_run c k
  | d :: l' =>
      if char_eq_dec d c then settled_from c (S k) l'
      else short_run c k && settled_from d 1 l'
  end.

Definition settled (text : list char) : bool :=
  match text with
  | [] => true
  | c :: l => settled_from c 1 l
  end.

End Cleanup.

(** ** A text on which a second clean-up trims more *)

Definition ascii_newline : ascii := ascii_of_nat 10.

Definition clean_ascii (text : string) : string :=
  string_of_list_ascii
    (_clean_repeated_substrings ascii_dec ascii_newline (list_ascii_of_string text)).

Fixpoint times (k : nat) (s : string) : string :=
  match k with
  | O => EmptyString
  | S k' => String.append s (times k' s)
  end.

(** A thousand digits of page numbering. *)
Definition digits1000 : string := times 100 "0123456789".

(** ... followed by a line that ends in two nested repetitions. *)
Definition nested_repeat : string :=
  String.append digits1000
    (String.append (times 4 "cdab") (String.append "cd" (times 5 "ab"))).

(** ... followed by a row of dots and a closing line. *)
Definition long_page : string :=
  String.append digits1000 (String.append (times 40 ".") " end of the register").

End HunyuanOcr.

(* ====================================================================== *)
(** * Point-in-AOI membership: [src/geo_context.py], [src/geo_filter.py] *)
(* ====================================================================== *)

Module GeoContext.

Local Open Scope list_scope.
Local Open Scope Q_scope.

(** A GeoJSON position [[lon, lat]] and a linear ring. *)
Definition Position : Type := (Q * Q)%type.
Definition Ring : Type := list Position.

(** The geometry of a feature; [coordinates] of a Polygon is its list of
    rings (exterior first, then the holes), of a MultiPolygon a list of
    such lists. *)
Inductive Geometry :=
| Polygon (coordinates : list Ring)
| MultiPolygon (coordinates : list (list Ring))
| OtherGeometry
| NoGeometry.

(** [a > b] on coordinates. *)
Definition Qgtb (a b : Q) : bool := negb (Qle_bool a b).

(** The test of line 54 for the edge from [(x1, y1)] to [(x2, y2)];
    [None] is the ZeroDivisionError of a zero denominator. *)
Definition edge_crossed (lat lon : Q) (p1 p2 : Position) : option bool :=
  let '(x1, y1) := p1 in
  let '(x2, y2) := p2 in
  if negb (Bool.eqb (Qgtb y1 lat) (Qgtb y2 lat)) then
    let denominator := y2 - y1 + (1 # 1000000000000) in
    if Qeq_bool denominator 0 then None
    else Some (Qgtb ((x2 - x1) * (lat - y1) / denominator + x1) lon)
  else Some false.

(** [for i in range(n)], over the indices still to visit. *)
Fixpoint ring_loop (lat lon : Q) (ring : Ring) (n : nat) (indices : list nat)
    (inside : bool) : option bool :=
  match indices with
  | [] => Some inside
  | i :: rest =>
      match edge_crossed lat lon (nth i ring (0, 0))
                         (nth (Nat.modulo (i + 1) n) ring (0, 0)) with
      | None => None
      | Some true => ring_loop lat lon ring n rest (negb inside)
      | Some false => ring_loop lat lon ring n rest inside
      end
  end.

Definition _point_in_ring (lat lon : Q) (ring : Ring) : option bool :=
  let n := length ring in
  if Nat.ltb n 3 then Some false
  else ring_loop lat lon ring n (seq 0 n) false.

(** The MultiPolygon loop of lines 71-76. *)
Fixpoint any_exterior (lat lon : Q) (coordinates : list (list Ring)) : option bool :=
  match coordinates with
  | [] => Some false
  | [] :: rest => any_exterior lat lon rest
  | (ring :: _) :: rest =>
      match _point_in_ring lat lon ring with
      | None => None
      | Some true => Some true
      | Some false => any_exterior lat lon rest
      end
  end.

(** [geo_context._point_in_feature], on the geometry of the feature. *)
Definition _point_in_feature (lat lon : Q) (geometry : Geometry) : option bool :=
  match geometry with
  | Polygon coordinates =>
      let ring := match coordinates with ring :: _ => ring | [] => [] end in
      _point_in_ring lat lon ring
  | MultiPolygon coordinates => any_exterior lat lon coordinates
  | OtherGeometry | NoGeometry => Some false
  end.

(** ** The sibling in [src/geo_filter.py], used by the spatial search
    (its [_point_in_ring] is the same text as the one above) *)

(** [for hole in polygon_coords[1:]]. *)
Fixpoint in_some_hole (lat lon : Q) (holes : list Ring) : option bool :=
  match holes with
  | [] => Some false
  | hole :: rest =>
      match _point_in_ring lat lon hole with
      | None => None
      | Some true => Some true
      | Some false => in_some_hole lat lon rest
      end
  end.

Definition _point_in_polygon (lat lon : Q) (polygon_coords : list Ring) : option bool :=
  match polygon_coords with
  | [] => Some false
  | outer_ring :: holes =>
      match _point_in_ring lat lon outer_ring with
      | None => None
      | Some false => Some false
      | Some true =>
          match in_some_hole lat lon holes with
          | None => None
          | Some true => Some false
          | Some false => Some true
          end
      end
  end.

Fixpoint _point_in_multipolygon (lat lon : Q) (multipolygon_coords : list (list Ring))
    : option bool :=
  match multipolygon_coords with
  | [] => Some false
  | polygon_coords :: rest =>
      match _point_in_polygon lat lon polygon_coords with
      | None => None
      | Some true => Some true
      | Some false => _point_in_multipolygon lat lon rest
      end
  end.

Definition point_in_geometry (lat lon : Q) (geometry : Geometry) : option bool :=
  match geometry with
  | Polygon [] | MultiPolygon [] => Some false
  | Polygon coords => _point_in_polygon lat lon coords
  | MultiPolygon coords => _point_in_multipolygon lat lon coords
  | OtherGeometry | NoGeometry => Some false
  end.

(** ** How AOIs are written: [src/aoi_store.py], [scripts/import_geo_aoi.py] *)

(** [aoi_store.add_aois]: the geometry of the feature stored for an item,
    [{"type": "Polygon", "coordinates": [item["coords"]]}]. *)
Definition stored_geometry (coords : Ring) : Geometry := Polygon [coords].

(** [first = coords[0] or []; if first: rings.append(first)]. *)
Definition first_ring (rings : list Ring) : list Ring :=
  match rings with
  | (_ :: _) as first :: _ => [first]
  | _ => []
  end.

(** [_outer_rings] of the importer: the rings of a feature that become
    AOIs, each through [add_aoi]. *)
Definition _outer_rings (geometry : Geometry) : list Ring :=
  match geometry with
  | Polygon coords => first_ring coords
  | MultiPolygon coords => flat_map first_ring coords
  | OtherGeometry | NoGeometry => []
  end.

(** ** An AOI with a hole *)

Definition square : Ring := [(0, 0); (0, 10); (10, 10); (10, 0)].
Definition hole : Ring := [(4, 4); (4, 6); (6, 6); (6, 4)].
Definition reserve_with_lake : Geometry := Polygon [square; hole].

(** ** [filter_docs_by_geometry] of [src/geo_filter.py] *)

Section FilterDocs.

(** The search hits are dicts; [get_id] is [doc.get("id")]. *)
Context {doc : Type}.
Variable get_id : doc -> option Z.

(** [for lat, lon in coords: if point_in_geometry(...): ... break]: whether
    the loop hit a point inside; [None] is an exception of the test. *)
Fixpoint any_point_inside (geometry : Geometry) (coords : list (Q * Q))
    : option bool :=
  match coords with
  | [] => Some false
  | (lat, lon) :: rest =>
      match point_in_geometry lat lon geometry with
      | None => None
      | Some true => Some true
      | Some false => any_point_inside geometry rest
      end
  end.

(** [for doc in docs], the list [filtered] built from the docs still to
    visit. *)
Fixpoint filter_loop (geometry : Geometry) (get_coords_fn : Z -> list (Q * Q))
    (docs : list doc) : option (list doc) :=
  match docs with
  | [] => Some []
  | d :: rest =>
      match get_id d with
      | None => filter_loop geometry get_coords_fn rest
      | Some doc_id =>
          match any_point_inside geometry (get_coords_fn doc_id) with
          | None => None
          | Some hit =>
              match filter_loop geometry get_coords_fn rest with
              | None => None
              | Some filtered => Some (if hit then d :: filtered else filtered)
              end
          end
      end
  end.

(** [filter_docs_by_geometry]; the geometry is [None] when the argument is
    falsy ([None] or an empty dict). *)
Definition filter_docs_by_geometry (docs : list doc) (geometry : option Geometry)
    (get_coords_fn : Z -> list (Q * Q)) : option (list doc) :=
  match geometry with
  | None => Some docs
  | Some g => filter_loop g get_coords_fn docs
  end.

End FilterDocs.

(** Two search hits with their points, and one hit without id. *)
Definition hits : list (option Z * nat) :=
  [ (Some 1%Z, 0%nat); (None, 1%nat); (Some 2%Z, 2%nat) ].

Definition points_of (doc_id : Z) : list (Q * Q) :=
  if Z.eqb doc_id 1 then [(20, 20); (1, 1)]
  else if Z.eqb doc_id 2 then [(5, 5)]
  else [].

End GeoContext.

(* ====================================================================== *)
(** * Webhook delivery: [_send_callback] of [src/worker.py] *)
(* ====================================================================== *)

Module Webhook.

Local Open Scope string_scope.
Local Open Scope list_scope.
Local Open Scope N_scope.

(** ** SHA-256 and HMAC ([hashlib.sha256], [hmac.new(...).hexdigest()])

    Bytes and 32-bit words are numbers; FIPS 180-4 and RFC 2104. *)

Definition mask32 : N := 4294967295.

Definition add32 (a b : N) : N := N.land (a + b) mask32.

Definition xor3 (a b c : N) : N := N.lxor (N.lxor a b) c.

Definition rotr (x : N) (n : N) : N :=
  N.lor (N.shiftr x n) (N.land (N.shiftl x (32 - n)) mask32).

Definition choose (e f g : N) : N :=
  N.lxor (N.land e f) (N.land (N.lxor e mask32) g).

Definition majority (a b c : N) : N :=
  xor3 (N.land a b) (N.land a c) (N.land b c).

Definition big_sigma0 (a : N) : N := xor3 (rotr a 2) (rotr a 13) (rotr a 22).
Definition big_sigma1 (e : N) : N := xor3 (rotr e 6) (rotr e 11) (rotr e 25).
Definition small_sigma0 (w : N) : N := xor3 (rotr w 7) (rotr w 18) (N.shiftr w 3).
Definition small_sigma1 (w : N) : N := xor3 (rotr w 17) (rotr w 19) (N.shiftr w 10).

Definition round_constants : list N :=
  [ 1116352408; 1899447441; 3049323471; 3921009573; 961987163; 1508970993;
    2453635748; 2870763221; 3624381080; 310598401; 607225278; 1426881987;
    1925078388; 2162078206; 2614888103; 3248222580; 3835390401; 4022224774;
    264347078; 604807628; 770255983; 1249150122; 1555081692; 1996064986;
    2554220882; 2821834349; 2952996808; 3210313671; 3336571891; 3584528711;
    113926993; 338241895; 666307205; 773529912; 1294757372; 1396182291;
    1695183700; 1986661051; 2177026350; 2456956037; 2730485921; 2820302411;
    3259730800; 3345764771; 3516065817; 3600352804; 4094571909; 275423344;
    430227734; 506948616; 659060556; 883997877; 958139571; 1322822218;
    1537002063; 1747873779; 1955562222; 2024104815; 2227730452; 2361852424;
    2428436474; 2756734187; 3204031479; 3329325298 ].

Definition initial_hash : list N :=
  [ 1779033703; 3144134277; 1013904242; 2773480762;
    1359893119; 2600822924; 528734635; 1541459225 ].

(** The [k] low bytes of [x], most significant first. *)
Fixpoint big_endian (k : nat) (x : N) : list N :=
  match k with
  | O => []
  | S k' => N.land (N.shiftr x (8 * N.of_nat k')) 255 :: big_endian k' x
  end.

Definition pad (message : list N) : list N :=
  let l := N.of_nat (length message) in
  let zeros := (64 - (l + 9) mod 64) mod 64 in
  message ++ 128 :: repeat 0 (N.to_nat zeros) ++ big_endian 8 (8 * l).

Fixpoint chunks (count size : nat) (l : list N) : list (list N) :=
  match count with
  | O => []
  | S count' => firstn size l :: chunks count' size (skipn size l)
  end.

Definition word_of_bytes (bytes : list N) : N :=
  fold_left (fun acc b => 256 * acc + b) bytes 0.

(** The message schedule, latest word first. *)
Fixpoint extend_schedule (k : nat) (w : list N) : list N :=
  match k with
  | O => w
  | S k' =>
      let next :=
        add32 (add32 (small_sigma1 (nth 1 w 0)) (nth 6 w 0))
              (add32 (small_sigma0 (nth 14 w 0)) (nth 15 w 0)) in
      extend_schedule k' (next :: w)
  end.

Definition schedule (block : list N) : list N :=
  rev (extend_schedule 48 (rev (map word_of_bytes (chunks 16 4 block)))).

Definition Registers : Type := (N * N * N * N * N * N * N * N)%type.

Definition round (r : Registers) (kw : N * N) : Registers :=
  let '(a, b, c, d, e, f, g, h) := r in
  let '(k, w) := kw in
  let t1 := add32 (add32 (add32 h (big_sigma1 e)) (add32 (choose e f g) k)) w in
  let t2 := add32 (big_sigma0 a) (majority a b c) in
  (add32 t1 t2, a, b, c, add32 d t1, e, f, g).

Definition compress (hash : Registers) (block : list N) : Registers :=
  let '(a, b, c, d, e, f, g, h) :=
    fold_left round (combine round_constants (schedule block)) hash in
  let '(a0, b0, c0, d0, e0, f0, g0, h0) := hash in
  (add32 a0 a, add32 b0 b, add32 c0 c, add32 d0 d,
   add32 e0 e, add32 f0 f, add32 g0 g, add32 h0 h).

Definition sha256 (message : list N) : list N :=
  let padded := pad message in
  let '(a, b, c, d, e, f, g, h) :=
    fold_left compress (chunks (length padded / 64) 64 padded)
      (1779033703, 3144134277, 1013904242, 2773480762,
       1359893119, 2600822924, 528734635, 1541459225) in
  flat_map (big_endian 4) [a; b; c; d; e; f; g; h].

Definition hmac_sha256 (key message : list N) : list N :=
  let key := if Nat.ltb 64 (length key) then sha256 key else key in
  let key := key ++ repeat 0 (64 - length key) in
  sha256 (map (N.lxor 92) key ++ sha256 (map (N.lxor 54) key ++ message)).

(** ** Strings and bytes *)

Local Open Scope string_scope.
Local Open Scope N_scope.

Definition chr (n : nat) : string := String (ascii_of_nat n) EmptyString.

Definition quote : string := chr 34.
Definition backslash : string := chr 92.

Definition hex_digit (n : N) : string :=
  chr (if n <? 10 then 48 + N.to_nat n else 87 + N.to_nat n).

Definition hex_byte (b : N) : string := hex_digit (b / 16) ++ hex_digit (b mod 16).

(** [bytes.hex()], as [hexdigest] returns it. *)
Definition hex (bytes : list N) : string := String.concat "" (map hex_byte bytes).

(** [str.encode("utf-8")] for the code points below 256 a [string] holds. *)
Definition utf8 (s : string) : list N :=
  flat_map (fun c => let n := N_of_ascii c in
                     if n <? 128 then [n] else [192 + n / 64; 128 + n mod 64])
           (list_ascii_of_string s).

(** ** [json.dumps] of the payload *)

(** The values a payload field takes: [None], an int, a str. *)
Inductive Json :=
| JNull
| JInt (z : Z)
| JStr (s : string).

(** [py_encode_basestring_ascii] on one character ([ensure_ascii=True]). *)
Definition escape (c : ascii) : string :=
  let n := N_of_ascii c in
  if n =? 34 then backslash ++ quote
  else if n =? 92 then backslash ++ backslash
  else if n =? 10 then backslash ++ "n"
  else if n =? 13 then backslash ++ "r"
  else if n =? 9 then backslash ++ "t"
  else if n =? 8 then backslash ++ "b"
  else if n =? 12 then backslash ++ "f"
  else if (n <? 32) || (126 <? n) then backslash ++ "u00" ++ hex_byte n
  else String c EmptyString.

Definition encode_str (s : string) : string :=
  quote ++ String.concat "" (map escape (list_ascii_of_string s)) ++ quote.

Definition decimal (z : Z) : string := NilZero.string_of_int (Z.to_int z).

Definition encode (v : Json) : string :=
  match v with
  | JNull => "null"
  | JInt z => decimal z
  | JStr s => encode_str s
  end.

(** [json.dumps(d, separators=(item_separator, key_separator))] of a dict
    with str keys, in insertion order. *)
Definition dumps (item_separator key_separator : string)
    (d : list (string * Json)) : string :=
  "{" ++ String.concat item_separator
           (map (fun kv => encode_str (fst kv) ++ key_separator ++ encode (snd kv)) d)
      ++ "}".

(** ** [_send_callback] *)

Definition of_option (v : option string) : Json :=
  match v with Some s => JStr s | None => JNull end.

(** Python truthiness of an optional str. *)
Definition truthy (v : option string) : bool :=
  match v with
  | Some s => negb (String.eqb s "")
  | None => false
  end.

(** The four keys [_send_callback] reads from [metadata or {}]. *)
Record Metadata := mkMetadata {
  doc_type : option string;
  inferred_date : option string;
  title : option string;
  doc_id : option string
}.

Definition no_metadata : Metadata := mkMetadata None None None None.

(** The HTTP request [requests.post(url, json=payload, headers=headers)]
    sends.  The [requests] library serialises [json=] itself, with
    [json.dumps(payload)] and its default separators [", "] and [": "]; the
    result is ASCII and is the body put on the wire. *)
Record Request := mkRequest {
  url : string;
  headers : list (string * string);
  body : string
}.

Definition payload (job_id task_id : Z) (theme : option string) (file_path : string)
    (status : string) (error : option string) (metadata : option Metadata)
    (error_summary : option string) (now : Z) : list (string * Json) :=
  let m := match metadata with Some m => m | None => no_metadata end in
  [ ("job_id", JInt job_id);
    ("task_id", JInt task_id);
    ("status", JStr status);
    ("theme", of_option theme);
    ("file_path", JStr file_path);
    ("error", of_option error);
    ("error_summary", of_option (if truthy error_summary then error_summary else error));
    ("timestamp", JStr (decimal now));
    ("doc_type", of_option (doc_type m));
    ("inferred_date", of_option (inferred_date m));
    ("title", of_option (title m));
    ("doc_id", of_option (doc_id m)) ].

(** [_send_callback]: the request it posts, or [None] when it returns
    without posting.  [callback_url] is the column of the job row
    ([None] also when there is no such job), [webhook_token] is
    [settings.webhook_token], [now] is [int(time.time())]. *)
Definition _send_callback (callback_url webhook_token : option string) (now : Z)
    (job_id task_id : Z) (theme : option string) (file_path : string)
    (status : string) (error : option string) (metadata : option Metadata)
    (error_summary : option string) : option Request :=
  match callback_url with
  | Some target =>
      if truthy callback_url then
        let p := payload job_id task_id theme file_path status error metadata
                         error_summary now in
        let headers :=
          match webhook_token with
          | Some token =>
              if truthy webhook_token then
                let body := dumps "," ":" p in
                let signature := hex (hmac_sha256 (utf8 token) (utf8 body)) in
                [ ("X-Pukaist-Token", token);
                  ("X-Pukaist-Signature", "sha256=" ++ signature);
                  ("Content-Type", "application/json") ]
              else []
          | None => []
          end in
        Some (mkRequest target headers (dumps ", " ": " p))
      else None
  | None => None
  end.

Definition header (name : string) (r : Request) : option string :=
  option_map snd (find (fun kv => String.eqb (fst kv) name) (headers r)).

(** ** The receiver shipped with the repository:
    [verify_signature] of [scripts/webhook_receiver.py] *)

Definition starts_with (p s : string) : bool := String.prefix p s.

(** [s.replace(old, "")] for a non-empty [old]. *)
Fixpoint remove_all (fuel : nat) (old s : string) : string :=
  match fuel with
  | O => s
  | S fuel' =>
      match s with
      | EmptyString => EmptyString
      | String c rest =>
          if String.prefix old s
          then remove_all fuel' old (String.substring (String.length old)
                                       (String.length s - String.length old) s)
          else String c (remove_all fuel' old rest)
      end
  end.

Definition verify_signature (body : list N) (token signature : option string) : bool :=
  match token with
  | Some t =>
      if truthy token then
        match signature with
        | Some sig =>
            if truthy signature && starts_with "sha256=" sig then
              let sent := remove_all (String.length sig) "sha256=" sig in
              String.eqb sent (hex (hmac_sha256 (utf8 t) body))
            else false
        | None => false
        end
      else true
  | None => true
  end.

(** ** A delivery *)

(** [s] with every apostrophe turned into a double quote, to write JSON
    texts down. *)
Definition json_text (s : string) : string :=
  string_of_list_ascii
    (map (fun c => if Ascii.eqb c "'" then ascii_of_nat 34 else c)
         (list_ascii_of_string s)).

Definition letter_done : option Request :=
  _send_callback (Some "https://example.org/hook") (Some "s3cret") 1700000000
                 3 7 (Some "demo") "incoming/letter.txt" "done" None
                 (Some (mkMetadata None None (Some "letter") (Some "abc123")))
                 None.

End Webhook.

(* ====================================================================== *)
(** * One worker iteration: [run_once] of [src/worker.py] *)
(* ====================================================================== *)

Module Worker.

Local Open Scope list_scope.
Local Open Scope string_scope.

(** ** Calls that may raise *)

(** The value of a call, or the exception it raises, kept as [str(exc)]. *)
Inductive result (A : Type) : Type :=
| Ok (a : A)
| Raise (message : string).
Arguments Ok {A} a.
Arguments Raise {A} message.

Definition bind {A B} (r : result A) (k : A -> result B) : result B :=
  match r with
  | Ok a => k a
  | Raise message => Raise message
  end.

Notation "x <- r ;; k" := (bind r (fun x => k))
  (at level 61, r at next level, right associativity).

(** [try: v = call() except Exception: v = None]. *)
Definition fenced {A} (r : result A) : option A :=
  match r with
  | Ok a => Some a
  | Raise _ => None
  end.

(** ** [src/validate.py] *)

(** White space as [str.strip] sees it, among the code points below 256. *)
Definition is_space (c : ascii) : bool :=
  let n := nat_of_ascii c in
  (Nat.leb 9 n && Nat.leb n 13) || (Nat.leb 28 n && Nat.leb n 32) ||
  Nat.eqb n 133 || Nat.eqb n 160.

Fixpoint lstrip (l : list ascii) : list ascii :=
  match l with
  | c :: rest => if is_space c then lstrip rest else l
  | [] => []
  end.

Definition strip (s : string) : string :=
  string_of_list_ascii (rev (lstrip (rev (lstrip (list_ascii_of_string s))))).

(** Python truthiness of an optional str. *)
Definition truthy (v : option string) : bool :=
  match v with
  | Some s => negb (String.eqb s "")
  | None => false
  end.

(** The metadata keys the validator reads. *)
Record Metadata := mkMetadata {
  doc_id : option string;
  extension : option string
}.

Definition validate_record (content : string) (metadata : Metadata) : list string :=
  (if String.eqb content "" || String.eqb (strip content) ""
   then ["empty content"] else []) ++
  (if Nat.ltb (String.length (strip content)) 10
   then ["content too short to index"] else []) ++
  (if negb (truthy (doc_id metadata)) then ["missing doc_id"] else []) ++
  (if negb (truthy (extension metadata)) then ["missing extension"] else []).

Definition summarize_errors (errors : list string) : string :=
  String.concat "; " errors.

(** ** JSON values *)

(** What [json.loads] builds: None, a bool, an int, a float, a str, a list,
    or a dict, given by its items (their keys are distinct). *)
#[warnings="-register-all"] Inductive Json :=
| JNull
| JBool (b : bool)
| JInt (n : Z)
| JFloat (x : SpecFloat.spec_float)
| JString (s : string)
| JArray (items : list Json)
| JObject (fields : list (string * Json)).

(** Python truthiness. *)
Definition truth (v : Json) : bool :=
  match v with
  | JNull => false
  | JBool b => b
  | JInt n => negb (Z.eqb n 0)
  | JFloat (SpecFloat.S754_zero _) => false
  | JFloat _ => true
  | JString s => negb (String.eqb s "")
  | JArray [] => false
  | JArray (_ :: _) => true
  | JObject [] => false
  | JObject (_ :: _) => true
  end.

(** [type(v).__name__]. *)
Definition type_name (v : Json) : string :=
  match v with
  | JNull => "NoneType"
  | JBool _ => "bool"
  | JInt _ => "int"
  | JFloat _ => "float"
  | JString _ => "str"
  | JArray _ => "list"
  | JObject _ => "dict"
  end.

(** [key in d] and [d.get(key)] on the items of a dict. *)
Definition has_key (key : string) (fields : list (string * Json)) : bool :=
  existsb (fun item => String.eqb (fst item) key) fields.

Definition get (key : string) (fields : list (string * Json)) : Json :=
  match find (fun item => String.eqb (fst item) key) fields with
  | Some (_, v) => v
  | None => JNull
  end.

(** [str(exc)] of the AttributeError [v.get(...)] raises on a value that is
    not a dict. *)
Definition no_attribute_get (v : Json) : string :=
  "'" ++ type_name v ++ "' object has no attribute 'get'".

(** A value the sqlite3 module binds as a parameter: None, a bool, a float,
    a str, or an int of 64 bits; a list or a dict is refused. *)
Definition bindable (v : Json) : bool :=
  match v with
  | JArray _ | JObject _ => false
  | JInt n => Z.leb (- 2 ^ 63) n && Z.ltb n (2 ^ 63)
  | JNull | JBool _ | JFloat _ | JString _ => true
  end.

(** ** [src/llm_client.py] and [src/llm_adapter.py] *)

(** A summary: the model's, or the first 400 characters of the text with
    an ellipsis when it was cut. *)
Inductive Summary :=
| FromModel (text : string)
| Snippet (first400 : string) (ellipsis : bool).

Definition flatten (s : string) : string :=
  string_of_list_ascii
    (map (fun c => if Ascii.eqb c (ascii_of_nat 10) then " "%char else c)
         (list_ascii_of_string s)).

Definition snippet (content : string) : Summary :=
  let s := flatten (strip content) in
  Snippet (String.substring 0 400 s) (Nat.ltb 400 (String.length s)).

(** [LLMClient.summarize]; [request] is the chat-completions call with the
    reading of its answer, the body of the [try]. *)
Definition client_summarize (configured : bool) (request : result string)
    (content : string) : Summary :=
  if negb configured then snippet content
  else match request with
       | Ok text => FromModel (strip text)
       | Raise _ => snippet content
       end.

(** [LLMClient.analyze_forensic] and [LLMClient.extract_insights];
    [request] is the body of their [try]: the chat-completions call, the
    reading of its answer and [json.loads] of the message content.  The
    value parsed is returned as it is, whatever its type. *)
Definition client_structured (configured : bool) (request : result Json) : Json :=
  if negb configured then JNull
  else match request with
       | Ok answer => answer
       | Raise _ => JNull
       end.

(** [LLMAdapter]: nothing is called when offline. *)
Definition adapter_summarize (offline configured : bool) (request : result string)
    (content : string) : option Summary :=
  if offline then None else Some (client_summarize configured request content).

Definition adapter_structured (offline configured : bool) (request : result Json)
    : Json :=
  if offline then JNull else client_structured configured request.

(** ** [run_once], from the leased row on *)

(** The columns of the leased row that decide the control flow. *)
Record Row := mkRow {
  job_id : option Z;
  intent_json : option string
}.

(** The settings the iteration reads; [llm_configured] says that the LLM
    client has an API key and a base URL, [embeddings_enabled] that
    [settings.embeddings_enabled and settings.embeddings_model] holds. *)
Record Settings := mkSettings {
  llm_mode : string;
  summary_enabled : bool;
  llm_offline : bool;
  llm_configured : bool;
  llm_forensic_enabled : bool;
  llm_insights_enabled : bool;
  embeddings_enabled : bool;
  place_suggest_enabled : bool
}.

(** The calls made outside any [try]/[except] of their own, each with what
    it returns or raises in this run: the collaborators (job store, text
    extraction, search index, files, task store), and the helpers of the
    repository whose result does not steer the control flow beyond the
    value given here ([json.loads], the project-period block of lines
    180-198, [should_use_llm], [redact], [extract_coords],
    [derive_insights]).  [binding_error answer] is the text of the
    exception the sqlite3 module raises when it is handed a value of the
    forensic answer that it cannot bind.  [flag] is the call of
    [queue_db.flag] in the handler. *)
Record Steps := mkSteps {
  json_loads : string -> option Json;
  set_status_processing : result unit;
  _process_task : result string;
  infer_metadata : result Metadata;
  period_context : result unit;
  should_use_llm : result bool;
  redact : string -> result string;
  insert_document : result Z;
  binding_error : Json -> string;
  extract_coords : result unit;
  place_suggestions : result unit;
  derive_insights : result unit;
  add_geo_points : result unit;
  write_json_artifact : result unit;
  open_notebook : result unit;
  close_notebook : result unit;
  _maybe_move_processed_file : result unit;
  complete : result unit;
  set_status_done : result unit;
  _send_callback : result unit;
  flag : result unit
}.

(** The enrichment calls: each is made inside a [try]/[except], in the
    worker or in the LLM client. *)
Record Enrichment := mkEnrichment {
  summarize_request : result string;
  forensic_request : result Json;
  embed_and_store : result unit;
  insights_request : result Json;
  relevancy_score : result (option string);
  geo_tags : result string
}.

(** What a completed task leaves in its artifacts. *)
Record Artifacts := mkArtifacts {
  summary : option Summary;
  forensic : Json;
  embedded : bool;
  llm_insights : Json;
  relevancy : option string;
  geo_tag_values : option string
}.

(** How the iteration ends for the task.  [Done]: the [try] block ran to
    its end, [queue_db.complete] included.  [Flagged]: the handler of line
    343 called [queue_db.flag] with [str(exc)] and the call returned (what
    follows it in the handler, the job status and the callback, does not
    touch the task).  [Escaped]: an exception left [run_once] and this run
    did not flag the task; raised at lines 162-163, the task stays
    leased. *)
Inductive Outcome :=
| Done (artifacts : Artifacts)
| Flagged (last_error : string)
| Escaped.

(** [if job_id:]. *)
Definition has_job (row : Row) : bool :=
  match job_id row with
  | Some j => negb (Z.eqb j 0)
  | None => false
  end.

Definition when (condition : bool) (step : result unit) : result unit :=
  if condition then step else Ok tt.

(** Lines 155-160: [intent], None when the column is NULL or empty or its
    text does not parse. *)
Definition read_intent (s : Steps) (row : Row) : Json :=
  match intent_json row with
  | Some text =>
      if String.eqb text "" then JNull
      else match json_loads s text with
           | Some intent => intent
           | None => JNull
           end
  | None => JNull
  end.

(** Lines 162-163, outside the [try]: [effective_llm_mode] and
    [summary_enabled].  [None] when they raise: [(intent or {}).get] on a
    true value that is not a dict (AttributeError), or
    ["summary_enabled" not in intent] on False or a zero (TypeError).
    The empty str and the empty list pass both lines. *)
Definition overrides (settings : Settings) (intent : Json) : option (Json * bool) :=
  match intent with
  | JNull => Some (JString (llm_mode settings), summary_enabled settings)
  | JObject fields =>
      let mode := get "llm_mode" fields in
      Some (if truth mode then mode else JString (llm_mode settings),
            if has_key "summary_enabled" fields
            then truth (get "summary_enabled" fields)
            else summary_enabled settings)
  | JString EmptyString | JArray [] =>
      Some (JString (llm_mode settings), summary_enabled settings)
  | JBool _ | JInt _ | JFloat _ | JString (String _ _) | JArray (_ :: _) => None
  end.

(** [effective_llm_mode == "sync"]. *)
Definition is_sync (mode : Json) : bool :=
  match mode with
  | JString m => String.eqb m "sync"
  | _ => false
  end.

(** Lines 213-223 and 231-250: the values of the forensic answer that
    [add_document] binds as SQL parameters when the answer is a dict
    (record_type only when it is true; otherwise the doc_type of the
    metadata, a str or None, stands in). *)
Definition forensic_binds (forensic : Json) : bool :=
  match forensic with
  | JObject fields =>
      (negb (truth (get "record_type" fields)) || bindable (get "record_type" fields)) &&
      bindable (get "breach_category" fields) &&
      bindable (get "reliability" fields) &&
      bindable (get "key_quote" fields)
  | _ => true
  end.

Definition add_document (s : Steps) (forensic : Json) : result Z :=
  if forensic_binds forensic then insert_document s
  else Raise (binding_error s forensic).

(** [_emit_outputs]: the JSON artifact, then the notebook.  Inside the
    [with] block, [if forensic:] is followed by [forensic.get(...)], which
    raises on a true value that is not a dict; the file is closed on the
    way out either way, and an exception of the close replaces the one in
    flight. *)
Definition _emit_outputs (s : Steps) (forensic : Json) : result unit :=
  _ <- write_json_artifact s ;;
  _ <- open_notebook s ;;
  match (if truth forensic
         then match forensic with
              | JObject _ => Ok tt
              | _ => Raise (no_attribute_get forensic)
              end
         else Ok tt) with
  | Ok _ => close_notebook s
  | Raise message =>
      match close_notebook s with
      | Ok _ => Raise message
      | Raise closing => Raise closing
      end
  end.

(** Lines 166-342; a [Raise] of the chain is what [except Exception as exc]
    catches at line 343. *)
Definition process (row : Row) (settings : Settings) (s : Steps) (x : Enrichment)
    (effective_llm_mode : Json) (summary_on : bool) : result Artifacts :=
  _ <- when (has_job row) (set_status_processing s) ;;
  text <- _process_task s ;;
  metadata <- infer_metadata s ;;
  _ <- period_context s ;;
  _ <- match validate_record text metadata with
       | [] => Ok tt
       | errors => Raise ("validation failed: " ++ summarize_errors errors)
       end ;;
  let sync := is_sync effective_llm_mode in
  summary <- (if summary_on && sync
              then use <- should_use_llm s ;;
                   if (use : bool)
                   then llm_input <- redact s text ;;
                        Ok (adapter_summarize (llm_offline settings)
                              (llm_configured settings) (summarize_request x) llm_input)
                   else Ok None
              else Ok None) ;;
  let forensic :=
    if llm_forensic_enabled settings && negb (llm_offline settings) && sync
    then match redact s text with
         | Ok _ => adapter_structured (llm_offline settings) (llm_configured settings)
                                      (forensic_request x)
         | Raise _ => JNull
         end
    else JNull in
  doc <- add_document s forensic ;;
  let embedded :=
    if embeddings_enabled settings
    then match embed_and_store x with Ok _ => true | Raise _ => false end
    else false in
  _ <- extract_coords s ;;
  _ <- when (place_suggest_enabled settings) (place_suggestions s) ;;
  _ <- derive_insights s ;;
  llm_structured <-
    (if llm_insights_enabled settings && negb (llm_offline settings)
        && String.eqb (llm_mode settings) "sync"
     then _ <- redact s text ;;
          Ok (adapter_structured (llm_offline settings) (llm_configured settings)
                                 (insights_request x))
     else Ok JNull) ;;
  let llm_insights :=
    match llm_structured with
    | JObject _ => llm_structured
    | _ => JNull
    end in
  let relevancy :=
    match relevancy_score x with
    | Ok r => r
    | Raise _ => None
    end in
  _ <- add_geo_points s ;;
  let tags := fenced (geo_tags x) in
  _ <- _emit_outputs s forensic ;;
  _ <- _maybe_move_processed_file s ;;
  _ <- complete s ;;
  _ <- when (has_job row) (_ <- set_status_done s ;; _send_callback s) ;;
  Ok (mkArtifacts summary forensic embedded llm_insights relevancy tags).

(** [run_once], for the row [lease_one] returned. *)
Definition run_once (row : Row) (settings : Settings) (s : Steps) (x : Enrichment)
    : Outcome :=
  match overrides settings (read_intent s row) with
  | None => Escaped
  | Some (effective_llm_mode, summary_on) =>
      match process row settings s x effective_llm_mode summary_on with
      | Ok artifacts => Done artifacts
      | Raise message =>
          match flag s with
          | Ok _ => Flagged message
          | Raise _ => Escaped
          end
      end
  end.

(** ** Runs used in the examples *)

(** A task of job 4 without intent, and the same task with the intent
    [[1]] (JSON, but no object). *)
Definition task : Row := mkRow (Some 4%Z) None.
Definition task_with_list_intent : Row := mkRow (Some 4%Z) (Some "[1]").

(** The answers of [json.loads] the examples need. *)
Definition loads (text : string) : option Json :=
  if String.eqb text "[1]" then Some (JArray [JInt 1])
  else if String.eqb text "{}" then Some (JObject [])
  else None.

Definition everything_on : Settings :=
  mkSettings "sync" true false true true true true true.

Definition letter : string := "Band council minutes, Kamloops, 12 May 1911.".

Definition letter_metadata : Metadata := mkMetadata (Some "3f2a") (Some "txt").

(** The error text of the sqlite3 module (Python 3.11 and later) for a list
    as the thirteenth parameter, key_quote. *)
Definition unsupported (answer : Json) : string :=
  "Error binding parameter 13: type 'list' is not supported".

Definition steps_ok : Steps :=
  mkSteps loads (Ok tt) (Ok letter) (Ok letter_metadata) (Ok tt) (Ok true)
          (fun text => Ok text) (Ok 11%Z)
          unsupported
          (Ok tt) (Ok tt) (Ok tt) (Ok tt) (Ok tt) (Ok tt) (Ok tt) (Ok tt) (Ok tt)
          (Ok tt) (Ok tt) (Ok tt).

(** Text extracted and valid, but reading the gazetteer for the place
    suggestions fails. *)
Definition gazetteer_unreadable : Steps :=
  mkSteps loads (Ok tt) (Ok letter) (Ok letter_metadata) (Ok tt) (Ok true)
          (fun text => Ok text) (Ok 11%Z)
          unsupported
          (Ok tt) (Raise "[Errno 13] Permission denied: 'gazetteer.csv'")
          (Ok tt) (Ok tt) (Ok tt) (Ok tt) (Ok tt) (Ok tt) (Ok tt)
          (Ok tt) (Ok tt) (Ok tt).

(** A text file of five characters. *)
Definition five_characters : Steps :=
  mkSteps loads (Ok tt) (Ok "hello") (Ok (mkMetadata (Some "aaf4") (Some "txt")))
          (Ok tt) (Ok true) (fun text => Ok text) (Ok 12%Z)
          unsupported
          (Ok tt) (Ok tt) (Ok tt) (Ok tt) (Ok tt) (Ok tt) (Ok tt) (Ok tt) (Ok tt)
          (Ok tt) (Ok tt) (Ok tt).

Definition enrichment_ok : Enrichment :=
  mkEnrichment (Ok "Minutes of a council meeting.")
               (Ok (JObject [("record_type", JString "minutes")]))
               (Ok tt) (Ok (JObject [])) (Ok (Some "50")) (Ok "{}").

(** Every enrichment call raises. *)
Definition enrichment_down : Enrichment :=
  mkEnrichment (Raise "timeout") (Raise "timeout") (Raise "timeout")
               (Raise "timeout") (Raise "timeout") (Raise "timeout").

(** The forensic request succeeds and the model's answer parses to
    [answer]; the other calls as in [enrichment_ok]. *)
Definition forensic_answers (answer : Json) : Enrichment :=
  mkEnrichment (Ok "Minutes of a council meeting.") (Ok answer)
               (Ok tt) (Ok (JObject [])) (Ok (Some "50")) (Ok "{}").

(** ** [_unique_processed_path] *)

(** [str(idx)] of a non-negative int. *)
Definition decimal (idx : nat) : string := NilZero.string_of_uint (Nat.to_uint idx).

(** The file name [f"{base}_{idx}{file_path.suffix}"]. *)
Definition numbered (base suffix : string) (idx : nat) : string :=
  base ++ "_" ++ decimal idx ++ suffix.

(** The [while True] loop of lines 98-102, entered with [idx].
    [exists_ name] is [(target_dir / name).exists()], which is false for a
    name that is not in the directory and also for a symbolic link whose
    target is missing; [fuel] bounds the iterations, and [None] stands for
    a loop that is still running when the fuel runs out. *)
Fixpoint next_free (exists_ : string -> bool) (base suffix : string)
    (fuel idx : nat) : option string :=
  match fuel with
  | O => None
  | S fuel' =>
      let candidate := numbered base suffix idx in
      if exists_ candidate
      then next_free exists_ base suffix fuel' (S idx)
      else Some candidate
  end.

(** [_unique_processed_path]: the name of the returned path inside
    [target_dir], for a file with the given stem and suffix. *)
Definition _unique_processed_path (exists_ : string -> bool) (stem suffix : string)
    (fuel : nat) : option string :=
  let base := stem ++ "_processed" in
  let candidate := base ++ suffix in
  if exists_ candidate then next_free exists_ base suffix fuel 1
  else Some candidate.

(** A text of two lines. *)
Definition two_lines : string :=
  "Minutes" ++ String (ascii_of_nat 10) "of the band.".

(** A directory listing, as the [exists] test of the examples. *)
Definition listed (names : list string) (name : string) : bool :=
  existsb (String.eqb name) names.

End Worker.

(* ====================================================================== *)
(** * Date inference: [infer_metadata] of [src/metadata.py] *)
(* ====================================================================== *)

Module MetadataDate.

Local Open Scope string_scope.
Local Open Scope list_scope.
Local Open Scope nat_scope.

(** The characters are the code points below 256 a [string] holds; among
    them [\d] matches the ten ASCII digits. *)
Definition is_digit (c : ascii) : bool :=
  let n := nat_of_ascii c in Nat.leb 48 n && Nat.leb n 57.

Definition between (low high : ascii) (c : ascii) : bool :=
  Nat.leb (nat_of_ascii low) (nat_of_ascii c) &&
  Nat.leb (nat_of_ascii c) (nat_of_ascii high).

(** The separator classes [[-_.]] of [DATE_RE] and [[-/.]] of
    [DATE_IN_TEXT_RE]. *)
Definition name_separator (c : ascii) : bool :=
  Ascii.eqb c "-" || Ascii.eqb c "_" || Ascii.eqb c ".".

Definition text_separator (c : ascii) : bool :=
  Ascii.eqb c "-" || Ascii.eqb c "/" || Ascii.eqb c ".".

(** The three groups of a match: year, month, day, as matched. *)
Definition Groups : Type := (list ascii * list ascii * list ascii)%type.

(** [(0[1-9]|1[0-2])] at the head of [l]: the group and what follows. *)
Definition month_group (l : list ascii) : option (list ascii * list ascii) :=
  match l with
  | a :: b :: rest =>
      if (Ascii.eqb a "0" && between "1" "9" b) ||
         (Ascii.eqb a "1" && between "0" "2" b)
      then Some ([a; b], rest) else None
  | _ => None
  end.

(** [(0[1-9]|[12]\d|3[01])] at the head of [l]. *)
Definition day_group (l : list ascii) : option (list ascii * list ascii) :=
  match l with
  | a :: b :: rest =>
      if (Ascii.eqb a "0" && between "1" "9" b) ||
         (between "1" "2" a && is_digit b) ||
         (Ascii.eqb a "3" && between "0" "1" b)
      then Some ([a; b], rest) else None
  | _ => None
  end.

(** A separator followed by the rest of the pattern [k].  With [optional]
    it is [[...]?], greedy: the separator is taken when there is one, and
    given back when the rest then fails; without, it is [[...]]. *)
Definition separated {A} (separator : ascii -> bool) (optional : bool)
    (l : list ascii) (k : list ascii -> option A) : option A :=
  let skip := if optional then k l else None in
  match l with
  | c :: rest =>
      if separator c
      then match k rest with
           | Some v => Some v
           | None => skip
           end
      else skip
  | [] => skip
  end.

(** The whole pattern, anchored at the head of [l]. *)
Definition match_here (separator : ascii -> bool) (optional : bool)
    (l : list ascii) : option Groups :=
  match l with
  | y1 :: y2 :: y3 :: y4 :: rest =>
      if Ascii.eqb y1 "2" && Ascii.eqb y2 "0" && is_digit y3 && is_digit y4 then
        separated separator optional rest (fun after_sep =>
          match month_group after_sep with
          | Some (m, after_month) =>
              separated separator optional after_month (fun after_sep2 =>
                match day_group after_sep2 with
                | Some (d, _) => Some ([y1; y2; y3; y4], m, d)
                | None => None
                end)
          | None => None
          end)
      else None
  | _ => None
  end.

(** [pattern.search(s)]: the match at the leftmost position that has
    one. *)
Fixpoint search (separator : ascii -> bool) (optional : bool) (l : list ascii)
    : option Groups :=
  match match_here separator optional l with
  | Some groups => Some groups
  | None =>
      match l with
      | [] => None
      | _ :: rest => search separator optional rest
      end
  end.

(** [int(group)] of a group of ASCII digits. *)
Definition int_of (digits : list ascii) : nat :=
  fold_left (fun acc c => 10 * acc + (nat_of_ascii c - 48)) digits 0.

(** The calendar check of [datetime(y, m, d)]. *)
Definition is_leap (y : nat) : bool :=
  Nat.eqb (Nat.modulo y 4) 0 &&
  (negb (Nat.eqb (Nat.modulo y 100) 0) || Nat.eqb (Nat.modulo y 400) 0).

Definition days_in_month (y m : nat) : nat :=
  match m with
  | 2 => if is_leap y then 29 else 28
  | 4 | 6 | 9 | 11 => 30
  | _ => 31
  end.

(** [n] written with at least [width] digits ([%04d], [%02d]). *)
Definition zero_padded (width n : nat) : string :=
  let digits := NilZero.string_of_uint (Nat.to_uint n) in
  string_of_list_ascii (repeat "0"%char (width - String.length digits)) ++ digits.

(** [datetime(y, m, d).date().isoformat()]. *)
Definition isoformat (y m d : nat) : string :=
  zero_padded 4 y ++ "-" ++ zero_padded 2 m ++ "-" ++ zero_padded 2 d.

(** [try: datetime(int(y), int(m), int(d)).date().isoformat()
     except ValueError: None]. *)
Definition date_of (groups : Groups) : option string :=
  let '(y, m, d) := groups in
  let year := int_of y in
  let month := int_of m in
  let day := int_of d in
  if Nat.leb 1 year && N.leb (N.of_nat year) 9999 && Nat.leb 1 month && Nat.leb month 12 &&
     Nat.leb 1 day && Nat.leb day (days_in_month year month)
  then Some (isoformat year month day) else None.

(** Lines 33-49 of [infer_metadata]: the value of ["inferred_date"], from
    [file_path.name] and [content]. *)
Definition inferred_date (name content : string) : option string :=
  let from_name :=
    match search name_separator true (list_ascii_of_string name) with
    | Some groups => date_of groups
    | None => None
    end in
  match from_name with
  | Some date => Some date
  | None =>
      match search text_separator false (list_ascii_of_string content) with
      | Some groups => date_of groups
      | None => None
      end
  end.

End MetadataDate.

(* ====================================================================== *)
(** * Heuristic insights: [derive_insights] of [src/insights.py] *)
(* ====================================================================== *)

Module Insights.

Local Open Scope string_scope.
Local Open Scope list_scope.
Local Open Scope nat_scope.

(** [text.split()]: the maximal runs of characters that are not white
    space; [current] is the run being read, latest character first. *)
Fixpoint split_from (current : list ascii) (l : list ascii) : list string :=
  match l with
  | [] =>
      match current with
      | [] => []
      | _ :: _ => [string_of_list_ascii (rev current)]
      end
  | c :: rest =>
      if Worker.is_space c then
        match current with
        | [] => split_from [] rest
        | _ :: _ => string_of_list_ascii (rev current) :: split_from [] rest
        end
      else split_from (c :: current) rest
  end.

Definition split (text : string) : list string :=
  split_from [] (list_ascii_of_string text).

Definition mem (w : string) (l : list string) : bool := existsb (String.eqb w) l.

(** The keys of [Counter(tokens)], in the order of their first
    occurrence. *)
Fixpoint keys_from (seen tokens : list string) : list string :=
  match tokens with
  | [] => []
  | w :: rest =>
      if mem w seen then keys_from seen rest
      else w :: keys_from (w :: seen) rest
  end.

Definition occurrences (w : string) (tokens : list string) : nat :=
  length (filter (String.eqb w) tokens).

(** [Counter(tokens).items()]. *)
Definition Counter (tokens : list string) : list (string * nat) :=
  map (fun w => (w, occurrences w tokens)) (keys_from [] tokens).

(** [sorted(items, key=count, reverse=True)]: stable, so items with the
    same count keep their order. *)
Fixpoint insert_by_count (item : string * nat) (sorted : list (string * nat))
    : list (string * nat) :=
  match sorted with
  | [] => [item]
  | x :: rest =>
      if Nat.leb (snd x) (snd item) then item :: sorted
      else x :: insert_by_count item rest
  end.

Definition most_common (n : nat) (items : list (string * nat)) : list (string * nat) :=
  firstn n (fold_right insert_by_count [] items).

Record InsightsRecord := mkInsights {
  theme : option string;
  doc_type : option string;
  has_geo : bool;
  coord_count : nat;
  top_terms : list string;
  sample_coords : option (list (Q * Q))
}.

Definition derive_insights (text : string) (metadata_theme metadata_doc_type : option string)
    (coords : list (Q * Q)) : InsightsRecord :=
  let tokens := filter (fun t => Nat.ltb 3 (String.length t)) (split text) in
  let counts := Counter tokens in
  let common_tokens := map fst (most_common 10 counts) in
  mkInsights metadata_theme metadata_doc_type
             (match coords with [] => false | _ :: _ => true end)
             (length coords)
             common_tokens
             (match coords with [] => None | _ :: _ => Some (firstn 5 coords) end).

End Insights.

(* ====================================================================== *)
(** * Place suggestions: [src/place_extract.py] *)
(* ====================================================================== *)

Module PlaceExtract.

Local Open Scope string_scope.
Local Open Scope list_scope.
Local Open Scope nat_scope.

(** A gazetteer: the dict name -> (lat, lon), in insertion order. *)
Definition Gazetteer : Type := list (string * (Q * Q)).

Record PlaceSuggestion := mkPlaceSuggestion {
  name : string;
  lat : Q;
  lon : Q;
  score : Q;
  source : string
}.

Definition BUILTIN_GAZETTEER : Gazetteer :=
  [ ("vancouver", (492827 # 10000, - (1231207 # 10000)));
    ("victoria", (484284 # 10000, - (1233656 # 10000)));
    ("prince george", (539171 # 10000, - (1227497 # 10000)));
    ("calgary", (510486 # 10000, - (1140708 # 10000)));
    ("edmonton", (535461 # 10000, - (1134938 # 10000)));
    ("winnipeg", (498951 # 10000, - (971384 # 10000)));
    ("toronto", (436532 # 10000, - (793832 # 10000)));
    ("ottawa", (454215 # 10000, - (756972 # 10000)));
    ("montreal", (455019 # 10000, - (735674 # 10000)));
    ("halifax", (446488 # 10000, - (635752 # 10000))) ]%Q.

(** [_lookup_table]; [parsed] is what [_parse_gazetteer] read from the
    gazetteer file, [None] when no path is configured. *)
Definition _lookup_table (parsed : option Gazetteer) : Gazetteer :=
  match parsed with
  | Some (entry :: entries) => entry :: entries
  | Some [] | None => BUILTIN_GAZETTEER
  end.

Section Matching.

(** Python's tables: the word characters of [\w], [str.lower] and
    [str.title]. *)
Variable is_word : ascii -> bool.
Variable lower : string -> string.
Variable title : string -> string.

Definition word (c : option ascii) : bool :=
  match c with
  | Some a => is_word a
  | None => false
  end.

(** [\b] between two neighbouring characters ([None] is an end of the
    text). *)
Definition boundary (before after : option ascii) : bool :=
  xorb (word before) (word after).

(** [text] without the prefix [literal], when it starts with it. *)
Fixpoint after_literal (literal text : list ascii) : option (list ascii) :=
  match literal with
  | [] => Some text
  | a :: literal' =>
      match text with
      | c :: text' => if Ascii.eqb a c then after_literal literal' text' else None
      | [] => None
      end
  end.

(** The pattern [\b<literal>\b] anchored at the head of [text], whose
    left neighbour is [previous]. *)
Definition match_here (literal : list ascii) (previous : option ascii)
    (text : list ascii) : bool :=
  match after_literal literal text with
  | Some rest =>
      boundary previous (hd_error text) &&
      boundary (match rev literal with
                | last :: _ => Some last
                | [] => previous
                end) (hd_error rest)
  | None => false
  end.

(** [re.search(rf"\b{re.escape(name)}\b", haystack)] as a truth value. *)
Fixpoint search_from (literal : list ascii) (previous : option ascii)
    (text : list ascii) : bool :=
  match_here literal previous text ||
  match text with
  | [] => false
  | c :: text' => search_from literal (Some c) text'
  end.

Definition search (name haystack : string) : bool :=
  search_from (list_ascii_of_string name) None (list_ascii_of_string haystack).

Definition mem (w : string) (l : list string) : bool := existsb (String.eqb w) l.

(** The loop over [table.items()], with [seen] and [found] as it goes. *)
Fixpoint scan (haystack : string) (limit : Z) (table : Gazetteer)
    (seen : list string) (found : list PlaceSuggestion) : list PlaceSuggestion :=
  match table with
  | [] => found
  | (name, (lat, lon)) :: rest =>
      if negb (search name haystack) then scan haystack limit rest seen found
      else if mem name seen then scan haystack limit rest seen found
      else
        let found' :=
          found ++ [mkPlaceSuggestion (title name) lat lon 1%Q "gazetteer"] in
        if Z.leb limit (Z.of_nat (length found')) then found'
        else scan haystack limit rest (name :: seen) found'
  end.

Definition extract_place_suggestions (text : string) (parsed : option Gazetteer)
    (limit : Z) : list PlaceSuggestion :=
  scan (lower text) limit (_lookup_table parsed) [] [].

End Matching.

(** ASCII tables for the examples. *)
Definition ascii_is_word (c : ascii) : bool :=
  let n := nat_of_ascii c in
  (Nat.leb 48 n && Nat.leb n 57) || (Nat.leb 65 n && Nat.leb n 90) ||
  (Nat.leb 97 n && Nat.leb n 122) || Nat.eqb n 95.

Definition ascii_lower_char (c : ascii) : ascii :=
  let n := nat_of_ascii c in
  if Nat.leb 65 n && Nat.leb n 90 then ascii_of_nat (n + 32) else c.

Definition ascii_lower (s : string) : string :=
  string_of_list_ascii (map ascii_lower_char (list_ascii_of_string s)).

Definition ascii_is_letter (c : ascii) : bool :=
  let n := nat_of_ascii c in
  (Nat.leb 65 n && Nat.leb n 90) || (Nat.leb 97 n && Nat.leb n 122).

Definition ascii_upper_char (c : ascii) : ascii :=
  let n := nat_of_ascii c in
  if Nat.leb 97 n && Nat.leb n 122 then ascii_of_nat (n - 32) else c.

(** [str.title] on ASCII: a letter that follows a letter is lowered, any
    other letter is raised. *)
Fixpoint title_from (previous_is_letter : bool) (l : list ascii) : list ascii :=
  match l with
  | [] => []
  | c :: rest =>
      (if previous_is_letter then ascii_lower_char c else ascii_upper_char c)
      :: title_from (ascii_is_letter c) rest
  end.

Definition ascii_title (s : string) : string :=
  string_of_list_ascii (title_from false (list_ascii_of_string s)).

End PlaceExtract.

(* ====================================================================== *)
(** * The active window of the autorun daemon: [src/codex_autorun.py] *)
(* ====================================================================== *)

Module CodexAutorun.

Local Open Scope Z_scope.

(** [_within_active_window(start_hour, end_hour, now_struct)], with [h]
    the hour [now.tm_hour]. *)
Definition _within_active_window (start_hour end_hour h : Z) : bool :=
  if start_hour =? end_hour then true
  else if start_hour <? end_hour then (start_hour <=? h) && (h <? end_hour)
  else (start_hour <=? h) || (h <? end_hour).

End CodexAutorun.

(* ====================================================================== *)
(** * Callback URL validation: [src/callbacks.py] *)
(* ====================================================================== *)

Module Callbacks.

Local Open Scope string_scope.
Local Open Scope list_scope.
Local Open Scope Z_scope.

(** What the code reads from [urlparse(url)].  [port] is [None] when
    reading [parsed.port] raises ValueError (a port that is no number or
    is out of range), [Some None] when the URL names no port. *)
Record ParseResult := mkParseResult {
  scheme : string;
  username : option string;
  password : option string;
  hostname : option string;
  port : option (option Z)
}.

(** The three settings the validation reads. *)
Record Settings := mkSettings {
  callback_allowlist : list string;
  callback_allow_private : bool;
  callback_allow_all : bool
}.

(** The ways a call ends: it returns, it raises HTTPException(400) with a
    message, or a ValueError of the library escapes. *)
Inductive Verdict :=
| Accepted
| Refused (message : string)
| ValueError.

Definition truthy (v : option string) : bool :=
  match v with
  | Some s => negb (String.eqb s "")
  | None => false
  end.

Section Validation.

(** The library: [urlparse] ([None] when it raises ValueError),
    [str.lower], [ipaddress.ip_address] ([None] when it raises ValueError)
    with the [is_global] flag of an address, and [socket.getaddrinfo]
    reduced to the addresses [_resolve_ips] lists ([inl] with the text of
    the exception when it raises). *)
Context {ip : Type}.
Variable urlparse : string -> option ParseResult.
Variable lower : string -> string.
Variable ip_address : string -> option ip.
Variable is_global : ip -> bool.
Variable getaddrinfo : string -> Z -> string + list string.

Definition _is_ip_address (host : string) : bool :=
  match ip_address host with
  | Some _ => true
  | None => false
  end.

(** [None]: ValueError. *)
Definition _is_global_ip (host : string) : option bool :=
  match ip_address host with
  | Some a => Some (is_global a)
  | None => None
  end.

(** [any(not _is_global_ip(ip) for ip in ips)]: it stops at the first
    address that is not global; [None] when an address met before that
    makes [ip_address] raise. *)
Fixpoint any_not_global (ips : list string) : option bool :=
  match ips with
  | [] => Some false
  | a :: rest =>
      match _is_global_ip a with
      | None => None
      | Some true => any_not_global rest
      | Some false => Some true
      end
  end.

Definition in_allowlist (host_lc : string) (settings : Settings) : bool :=
  existsb (String.eqb host_lc) (map lower (callback_allowlist settings)).

Definition validate_callback_url (url : string) (settings : Settings) : Verdict :=
  if String.eqb url "" then Accepted
  else
    match urlparse url with
    | None => ValueError
    | Some parsed =>
        if negb (String.eqb (scheme parsed) "http" || String.eqb (scheme parsed) "https")
        then Refused "callback_url must start with http:// or https://"
        else if truthy (username parsed) || truthy (password parsed)
        then Refused "callback_url must not include credentials"
        else
          match hostname parsed with
          | None => Refused "callback_url must include a hostname"
          | Some host =>
              if String.eqb host ""
              then Refused "callback_url must include a hostname"
              else
                let host_lc := lower host in
                if callback_allow_all settings then Accepted
                else if in_allowlist host_lc settings then Accepted
                else
                  match port parsed with
                  | None => ValueError
                  | Some declared =>
                      let port :=
                        match declared with
                        | Some p => if p =? 0
                                    then (if String.eqb (scheme parsed) "https" then 443 else 80)
                                    else p
                        | None => if String.eqb (scheme parsed) "https" then 443 else 80
                        end in
                      if _is_ip_address host_lc then
                        match _is_global_ip host_lc with
                        | None => ValueError
                        | Some true => Accepted
                        | Some false =>
                            if callback_allow_private settings then Accepted
                            else Refused "callback_url must not target private or loopback IPs"
                        end
                      else
                        match getaddrinfo host_lc port with
                        | inl exc =>
                            Refused ("callback_url host could not be resolved: " ++ exc)
                        | inr [] => Refused "callback_url host did not resolve to an IP"
                        | inr (a :: rest) =>
                            match any_not_global (a :: rest) with
                            | None => ValueError
                            | Some true =>
                                if callback_allow_private settings
                                   || in_allowlist host_lc settings
                                then Accepted
                                else Refused "callback_url must not resolve to private or loopback IPs"
                            | Some false => Accepted
                            end
                        end
                  end
          end
    end.

End Validation.

(** A table of library answers for one URL, and the default settings. *)
Definition example_urlparse (url : string) : option ParseResult :=
  Some (mkParseResult "https" None None (Some "Hooks.Example.org") (Some None)).

Definition example_lower (s : string) : string :=
  if String.eqb s "Hooks.Example.org" then "hooks.example.org" else s.

Definition example_ip_address (s : string) : option string :=
  if String.eqb s "93.184.216.34" then Some s
  else if String.eqb s "127.0.0.1" then Some s
  else None.

Definition example_is_global (a : string) : bool := String.eqb a "93.184.216.34".

Definition example_getaddrinfo (host : string) (port : Z) : string + list string :=
  if String.eqb host "hooks.example.org" && (port =? 443)
  then inr ["93.184.216.34"]
  else inl "[Errno -2] Name or service not known".

Definition default_settings : Settings :=
  mkSettings ["localhost"; "127.0.0.1"; "::1"; "host.docker.internal"] false false.

End Callbacks.

(* ====================================================================== *)
(** * Properties *)
(* ====================================================================== *)

Section QueueDbFacts.

Import QueueDb.
Local Open Scope Z_scope.

(** ** Auxiliary facts on the SQL fragments *)

Lemma order_by_limit1_In key rows r :
  order_by_limit1 key rows = Some r -> In r rows.
Proof.
  revert r; induction rows as [|x rows IH]; simpl; intros r H; [discriminate|].
  destruct (order_by_limit1 key rows) as [m|].
  - destruct (key m <? key x); inversion H; subst; auto.
  - inversion H; auto.
Qed.

Lemma order_by_limit1_min key rows r :
  order_by_limit1 key rows = Some r -> forall x, In x rows -> key r <= key x.
Proof.
  revert r; induction rows as [|y rows IH]; simpl; intros r H x Hx; [contradiction|].
  destruct (order_by_limit1 key rows) as [m|] eqn:E.
  - specialize (IH m eq_refl).
    destruct (key m <? key y) eqn:C; inversion H; subst; clear H.
    + apply Z.ltb_lt in C. destruct Hx as [->|Hx]; [lia | auto].
    + apply Z.ltb_ge in C. destruct Hx as [->|Hx]; [lia |].
      specialize (IH x Hx). lia.
  - inversion H; subst. destruct Hx as [->|Hx]; [lia|].
    destruct rows; [contradiction | simpl in E].
    destruct (order_by_limit1 key rows); [destruct (_ <? _)|]; discriminate.
Qed.



Lemma update_where_id (cond : Task -> bool) set db :
  (forall r, In r db -> cond r = false) -> update_where cond set db = db.
Proof.
  induction db as [|x db IH]; simpl; intros H; [reflexivity|].
  rewrite (H x (or_introl eq_refl)). f_equal. apply IH. intros r Hr. apply H. now right.
Qed.

(** Under the PRIMARY KEY constraint an update by id rewrites one row. *)
Lemma update_by_id_one set (db : list Task) e :
  NoDup (map id db) -> In e db ->
  exists l1 l2, db = l1 ++ e :: l2 /\
    update_where (fun x => id x =? id e) set db = l1 ++ set e :: l2.
Proof.
  intros Hnd Hin. destruct (in_split _ _ Hin) as (l1 & l2 & ->).
  exists l1, l2. split; [reflexivity|].
  rewrite map_app in Hnd. simpl in Hnd.
  assert (Hout : forall x, In x (l1 ++ l2) -> (id x =? id e) = false).
  { intros x Hx. apply Z.eqb_neq. intros Heq.
    apply NoDup_remove_2 in Hnd. apply Hnd. rewrite <- map_app, <- Heq.
    now apply in_map. }
  unfold update_where. rewrite map_app. simpl. rewrite Z.eqb_refl.
  f_equal; [|f_equal].
  - apply (update_where_id _ set). intros r Hr. apply Hout, in_or_app; auto.
  - apply (update_where_id _ set). intros r Hr. apply Hout, in_or_app; auto.
Qed.

Lemma text_eq_true column t : text_eq column t = true -> column = Some t.
Proof.
  destruct column as [v|]; simpl; [|discriminate].
  intros H. apply String.eqb_eq in H. now subst.
Qed.

Lemma tenant_guard_true r tenant : tenant_guard r tenant = true -> tenant_id r = tenant.
Proof.
  unfold tenant_guard. intros H. apply orb_true_iff in H. destruct H as [H|H].
  - apply andb_true_iff in H. destruct H as [H1 H2].
    destruct (tenant_id r), tenant; simpl in *; congruence.
  - destruct tenant as [t|]; [|discriminate]. now apply text_eq_true.
Qed.

Lemma set_leased_leased_now now r : leased_now now (set_leased now r) = true.
Proof. unfold leased_now; simpl. now rewrite Z.eqb_refl. Qed.




Lemma find_expired_spec now vt tenant allow db e :
  find_expired now vt tenant allow db = Some e ->
  In e db /\ status e = leased /\
  (exists t, leased_at e = Some t /\ t < now - vt) /\
  tenant_clause tenant allow e = true.
Proof.
  unfold find_expired. intros H.
  apply order_by_limit1_In, filter_In in H. destruct H as [Hin H].
  unfold expired_where in H.
  apply andb_true_iff in H. destruct H as [H Ht].
  apply andb_true_iff in H. destruct H as [Hs Hl].
  repeat split; auto.
  - destruct (status e); simpl in Hs; congruence.
  - destruct (leased_at e) as [t|]; [|discriminate].
    exists t. split; [reflexivity | now apply Z.ltb_lt].
Qed.


(** ** The claims on the task store *)

Lemma binds_sqlite_integer n : binds n = true <-> sqlite_integer n.
Proof.
  unfold binds, sqlite_integer. rewrite andb_true_iff, Z.leb_le, Z.ltb_lt. tauto.
Qed.

(** The store after [complete] or [flag] when no row has both the id and
    the tenant: the UPDATE matches no row. *)
Lemma update_matches_no_row now task_id error tenant db :
  (forall r, In r db -> id r = task_id -> tenant_id r <> tenant) ->
  complete now task_id tenant db = db /\
  flag now task_id error tenant db = db.
Proof.
  intros H.
  assert (Hc : forall r, In r db ->
             (id r =? task_id) && tenant_guard r tenant = false).
  { intros r Hr. destruct (id r =? task_id) eqn:E; [|reflexivity]. simpl.
    apply Z.eqb_eq in E. specialize (H r Hr E).
    destruct (tenant_guard r tenant) eqn:G; [|reflexivity].
    apply tenant_guard_true in G. contradiction. }
  split; [unfold complete | unfold flag]; now apply update_where_id.
Qed.

(** C6. For a task id (an integer of the id column, 64 bits) that no row
    carries, and for a row whose [tenant_id] differs from the tenant the
    caller supplies, the calls of [complete] and [flag] return, raising
    nothing, and leave the store as it was: no row's status, last_error or
    updated_at is written. *)
Theorem complete_flag_noop now task_id error tenant db :
  sqlite_integer task_id ->
  (forall r, In r db -> id r = task_id -> tenant_id r <> tenant) ->
  complete_call now task_id tenant db = Returns db /\
  flag_call now task_id error tenant db = Returns db.
Proof.
  intros Hid H. apply binds_sqlite_integer in Hid.
  destruct (update_matches_no_row now task_id error tenant db H) as [Hc Hf].
  unfold complete_call, flag_call. now rewrite Hid, Hc, Hf.
Qed.

(** On [mixed]: an id no row carries, and three tenant mismatches. *)
Lemma complete_flag_noop_witness :
  (complete_call 50 99 (Some "tenant-a"%string) mixed = Returns mixed /\
   flag_call 50 99 "boom"%string (Some "tenant-a"%string) mixed = Returns mixed) /\
  (complete_call 50 1 (Some "tenant-b"%string) mixed = Returns mixed /\
   flag_call 50 1 "boom"%string (Some "tenant-b"%string) mixed = Returns mixed) /\
  (complete_call 50 1 None mixed = Returns mixed /\
   flag_call 50 1 "boom"%string None mixed = Returns mixed) /\
  (complete_call 50 2 (Some "tenant-a"%string) mixed = Returns mixed /\
   flag_call 50 2 "boom"%string (Some "tenant-a"%string) mixed = Returns mixed).
Proof.
  repeat apply conj.
  all: try (apply (complete_flag_noop 50 _ "boom"%string _ mixed);
            [ unfold sqlite_integer; lia
            | intros r [<-|[<-|[]]]; simpl; intros Hid; discriminate ]).
  all: apply (complete_flag_noop 50 _ "boom"%string _ mixed);
       [ unfold sqlite_integer; lia
       | intros r [<-|[<-|[]]]; simpl; intros Hid; discriminate ].
Defined.

(** Where the hypothesis on the id ends: handed an int beyond 64 bits,
    [complete] and [flag] raise, whatever the store holds. *)
Lemma complete_flag_overflow now task_id error tenant db :
  (task_id < - 2 ^ 63 \/ 2 ^ 63 <= task_id) ->
  complete_call now task_id tenant db = OverflowError /\
  flag_call now task_id error tenant db = OverflowError.
Proof.
  intros H. unfold complete_call, flag_call, binds.
  destruct H as [H|H].
  - apply Z.leb_gt in H. now rewrite H.
  - apply Z.ltb_ge in H. rewrite H. now rewrite andb_false_r.
Qed.

(** C10. Whatever the status and the tenant of the row that carries the
    task id, [reset_to_pending] (which takes no tenant argument) sets its
    status to pending and its last_error to NULL, and leaves file_path,
    theme, intent_json, job_id, attempts, tenant_id and created_at (and id
    and leased_at) as they were; rows with another id are not touched. *)
Theorem reset_to_pending_frame now task_id db i r :
  nth_error db i = Some r ->
  (id r = task_id ->
   exists r', nth_error (reset_to_pending now task_id db) i = Some r' /\
     status r' = pending /\ last_error r' = None /\
     file_path r' = file_path r /\ theme r' = theme r /\
     intent_json r' = intent_json r /\ job_id r' = job_id r /\
     attempts r' = attempts r /\ tenant_id r' = tenant_id r /\
     created_at r' = created_at r /\ id r' = id r /\
     leased_at r' = leased_at r /\ updated_at r' = now) /\
  (id r <> task_id -> nth_error (reset_to_pending now task_id db) i = Some r).
Proof.
  intros Hi. unfold reset_to_pending, update_where.
  rewrite nth_error_map, Hi. simpl. split.
  - intros <-. rewrite Z.eqb_refl. eexists. split; [reflexivity|].
    simpl. repeat split.
  - intros Hne. apply Z.eqb_neq in Hne. now rewrite Hne.
Qed.

(** On [mixed]: the done task of tenant a is reset, the other row stays. *)
Lemma reset_to_pending_frame_witness :
  (exists r', nth_error (reset_to_pending 50 1 mixed) 0 = Some r' /\
     status r' = pending /\ last_error r' = None /\
     file_path r' = "scan.pdf"%string /\ theme r' = Some "demo"%string /\
     intent_json r' = None /\ job_id r' = None /\
     attempts r' = 1 /\ tenant_id r' = Some "tenant-a"%string /\
     created_at r' = 1 /\ id r' = 1 /\
     leased_at r' = Some 5 /\ updated_at r' = 50) /\
  nth_error (reset_to_pending 50 1 mixed) 1 = nth_error mixed 1.
Proof.
  split.
  - apply (reset_to_pending_frame 50 1 mixed 0 _ eq_refl). reflexivity.
  - apply (reset_to_pending_frame 50 1 mixed 1 _ eq_refl). simpl. discriminate.
Defined.

(** The scenario of the spec: two pending tasks of one tenant enqueued at
    10 and 20; one call returns the one enqueued at 10, leased. *)
Example lease_one_two_pending :
  lease_one [500] 300 (Some "tenant-a"%string) false two_pending =
  Some (Some (mkTask 2 "scan.pdf" (Some "demo"%string) None None leased 1 None
                     (Some 500) (Some "tenant-a"%string) 10 500),
        [ row 1 pending 0 None (Some "tenant-a"%string) 20;
          mkTask 2 "scan.pdf" (Some "demo"%string) None None leased 1 None
                 (Some 500) (Some "tenant-a"%string) 10 500 ],
        []).
Proof. reflexivity. Qed.

(** The same for any two tasks enqueued for one tenant into an empty queue
    at readings [t1 < t2]: the call returns the first, leased at [now] with
    one attempt. *)
Lemma lease_one_first_enqueued t1 t2 now clock vt tenant allow f1 f2 theme1 theme2 :
  t1 < t2 ->
  let '(i1, db1) := enqueue t1 f1 theme1 None (Some tenant) None [] in
  let '(i2, db2) := enqueue t2 f2 theme2 None (Some tenant) None db1 in
  lease_one (now :: clock) vt (Some tenant) allow db2 =
  Some (Some (mkTask i1 f1 theme1 None None leased 1 None (Some now) (Some tenant) t1 now),
        [ mkTask i1 f1 theme1 None None leased 1 None (Some now) (Some tenant) t1 now;
          mkTask i2 f2 theme2 None None pending 0 None None (Some tenant) t2 t2 ],
        clock).
Proof.
  intros Ht. cbn -[Z.ltb Z.eqb].
  unfold claim, pending_where, tenant_clause, text_eq. cbn -[Z.ltb Z.eqb].
  rewrite String.eqb_refl.
  assert (E : (if allow then true || false else true) = true) by now destruct allow.
  rewrite !E. cbn -[Z.ltb Z.eqb].
  assert (Hlt : (t2 <? t1) = false) by (apply Z.ltb_ge; lia).
  rewrite Hlt. cbn. now rewrite Z.eqb_refl.
Qed.

(** What [lease_one] does whenever the clock reading is fresh (no row is
    already leased at that very reading) and ids are unique: it leases the
    oldest pending row of the filter and returns that row. *)
Lemma lease_one_claims_oldest now clock vt tenant allow db r :
  NoDup (map id db) ->
  (forall x, In x db -> leased_now now x = false) ->
  order_by_limit1 created_at (filter (pending_where tenant allow) db) = Some r ->
  (In r db /\ status r = pending /\ tenant_clause tenant allow r = true /\
   forall x, In x db -> pending_where tenant allow x = true ->
             created_at r <= created_at x) /\
  exists l1 l2, db = l1 ++ r :: l2 /\
    lease_one (now :: clock) vt tenant allow db =
      Some (Some (set_leased now r), l1 ++ set_leased now r :: l2, clock).
Proof.
  intros Hnd Hfresh Hr.
  pose proof (order_by_limit1_In _ _ _ Hr) as Hin.
  apply filter_In in Hin. destruct Hin as [Hin Hp].
  split.
  - repeat split; auto.
    + unfold pending_where in Hp. apply andb_true_iff in Hp.
      destruct (status r); simpl in Hp; destruct Hp; congruence.
    + unfold pending_where in Hp. apply andb_true_iff in Hp. tauto.
    + intros x Hx Hpx. apply (order_by_limit1_min _ _ _ Hr).
      apply filter_In. auto.
  - destruct (update_by_id_one (set_leased now) db r Hnd Hin) as (l1 & l2 & Hdb & Hup).
    exists l1, l2. split; [exact Hdb|].
    simpl. unfold claim. rewrite Hr, Hup.
    assert (Hf : fetchone (leased_now now) (l1 ++ set_leased now r :: l2)
                 = Some (set_leased now r)).
    { unfold fetchone. clear Hup Hr Hnd.
      assert (H1 : forall x, In x l1 -> leased_now now x = false).
      { intros x Hx. apply Hfresh. rewrite Hdb. apply in_or_app. auto. }
      clear Hdb Hfresh. induction l1 as [|y l1 IH]; simpl.
      - now rewrite set_leased_leased_now.
      - rewrite (H1 y (or_introl eq_refl)). apply IH. intros x Hx. apply H1. now right. }
    now rewrite Hf.
Qed.

(** C1 (the code falls short of the claim).  The read-back selects by
    [status='leased' AND leased_at = now], not by the id just updated.  Two
    workers call at the same clock reading 100: the worker of tenant b
    leases row 1 and gets it; the worker of tenant a, called on the store
    the first call left, leases row 2 (status leased, leased_at 100,
    attempts 1) and is handed row 1, tenant b's row, whose attempts count
    its call did not increment. *)
Theorem lease_one_same_tick_returns_other_row :
  lease_one [100] 300 (Some "tenant-b"%string) false both_pending =
    Some (Some leased_b, same_tick, []) /\
  lease_one [100] 300 (Some "tenant-a"%string) false same_tick =
    Some (Some leased_b,
          [ leased_b;
            mkTask 2 "scan.pdf" (Some "demo"%string) None None leased 1 None
                   (Some 100) (Some "tenant-a"%string) 20 100 ],
          []).
Proof. split; reflexivity. Qed.






(** The store of the same-tick example with tenant a's row leased long ago:
    nothing is pending for tenant a and its lease is expired, yet a call at
    reading 100 is handed tenant b's row, leased at 100, and recycles
    nothing. *)
Example lease_one_stale_reading :
  lease_one [100; 101] 30 (Some "tenant-a"%string) false
            [ leased_b; row 2 leased 1 (Some 0) (Some "tenant-a"%string) 20 ]
  = Some (Some leased_b,
          [ leased_b; row 2 leased 1 (Some 0) (Some "tenant-a"%string) 20 ],
          [101]).
Proof. reflexivity. Qed.

End QueueDbFacts.

Section TextExtractionFacts.

Import TextExtraction.

Context {char : Type}.
Variable char_eq_dec : forall a b : char, {a = b} + {a <> b}.
Variables isprintable isalpha isdigit isspace : char -> bool.

Let quality := _quality char_eq_dec isprintable isalpha isdigit.
Let quality_float := _quality_float char_eq_dec isprintable isalpha isdigit.
Let ocr := _ocr_image char_eq_dec isprintable isalpha isdigit isspace.

(** ** Arithmetic of the score *)

Lemma ratio_Qmake (a b : nat) :
  (0 < b)%nat -> ratio a b == Z.of_nat a # Z.to_pos (Z.of_nat b).
Proof.
  intros Hb. unfold ratio, Qdiv, Qmult, Qinv, inject_Z, Qeq. simpl.
  destruct (Z.of_nat b) eqn:E; try lia. simpl. lia.
Qed.

Lemma ratio_le_iff (a b c d : nat) :
  (0 < b)%nat -> (0 < d)%nat ->
  (ratio a b <= ratio c d <-> (a * d <= c * b)%nat).
Proof.
  intros Hb Hd. rewrite !ratio_Qmake by assumption.
  unfold Qle. simpl. rewrite !Z2Pos.id by lia. split; intros; nia.
Qed.

Lemma ratio_lt_iff (a b c d : nat) :
  (0 < b)%nat -> (0 < d)%nat ->
  (ratio a b < ratio c d <-> (a * d < c * b)%nat).
Proof.
  intros Hb Hd. rewrite !ratio_Qmake by assumption.
  unfold Qlt. simpl. rewrite !Z2Pos.id by lia. split; intros; nia.
Qed.

Lemma ratio_plus (a c b : nat) :
  (0 < b)%nat -> ratio a b + ratio c b == ratio (a + c) b.
Proof.
  intros Hb. rewrite !ratio_Qmake by assumption.
  unfold Qeq, Qplus. simpl. rewrite !Pos2Z.inj_mul, !Z2Pos.id by lia. nia.
Qed.

Lemma ratio_same (n : nat) : (0 < n)%nat -> ratio n n == 1.
Proof.
  intros Hn. rewrite ratio_Qmake by assumption.
  unfold Qeq. simpl. rewrite Z2Pos.id by lia. lia.
Qed.

Lemma ratio_scale (a b k : nat) :
  (0 < b)%nat -> (0 < k)%nat -> ratio a b == ratio (a * k) (b * k).
Proof.
  intros Hb Hk. rewrite !ratio_Qmake by nia.
  unfold Qeq. simpl. rewrite !Z2Pos.id by nia. nia.
Qed.

(** One more character that is printable but neither a letter nor a digit:
    the length and the number of distinct characters grow by one, the counts
    of letters and digits stay, and the score falls by at least
    0.2 / (n + 1). *)
Lemma score_gap (a d u n : nat) :
  (1 <= n)%nat -> (n <= a + d)%nat -> (1 <= u)%nat -> (u <= n)%nat ->
  ratio a (S n) * (4 # 10) + ratio (a + d) (S n) * (3 # 10)
    + ratio (S n) (Nat.max (S n) 1) * (2 # 10)
    + Qmin (ratio (S u) (S n)) (5 # 10) * (1 # 10)
    + (2 # 10) * ratio 1 (S n)
  <= ratio a n * (4 # 10) + ratio (a + d) n * (3 # 10)
    + ratio n (Nat.max n 1) * (2 # 10)
    + Qmin (ratio u n) (5 # 10) * (1 # 10).
Proof.
  intros Hn Had Hu1 Hun.
  replace (Nat.max (S n) 1) with (S n) by lia.
  replace (Nat.max n 1) with n by lia.
  assert (H1 : ratio a (S n) <= ratio a n) by (apply ratio_le_iff; nia).
  assert (H2 : ratio (a + d) (S n) + ratio 1 (S n) <= ratio (a + d) n).
  { rewrite ratio_plus by lia. apply ratio_le_iff; nia. }
  assert (H3 : ratio u n <= ratio (S u) (S n)) by (apply ratio_le_iff; nia).
  assert (H4 : ratio (S u) (S n) < ratio u n + ratio 1 (S n)).
  { rewrite (ratio_scale u n (S n)), (ratio_scale 1 (S n) n) by lia.
    replace (S n * n)%nat with (n * S n)%nat by lia.
    rewrite ratio_plus by nia. apply ratio_lt_iff; nia. }
  rewrite (ratio_same (S n)), (ratio_same n) by lia.
  destruct (Q.min_spec (ratio u n) (5 # 10)) as [[Hm ->]|[Hm ->]];
  destruct (Q.min_spec (ratio (S u) (S n)) (5 # 10)) as [[Hm' ->]|[Hm' ->]]; lra.
Qed.

Lemma ratio_unit_pos (n : nat) : 0 < ratio 1 (S n).
Proof. rewrite ratio_Qmake by lia. reflexivity. Qed.

(** ** Counting under an insertion *)

Lemma filter_all (p : char -> bool) l :
  Forall (fun c => p c = true) l -> filter p l = l.
Proof.
  induction 1 as [|c l Hc _ IH]; simpl; [reflexivity|]. now rewrite Hc, IH.
Qed.

Lemma count_insert_false (p : char -> bool) l1 x l2 :
  p x = false -> count p (l1 ++ x :: l2) = count p (l1 ++ l2).
Proof.
  intros Hx. unfold count. rewrite !filter_app. simpl. now rewrite Hx.
Qed.

Lemma count_alnum_ge l :
  Forall (fun c => isalpha c || isdigit c = true) l ->
  (length l <= count isalpha l + count isdigit l)%nat.
Proof.
  unfold count. induction 1 as [|c l Hc _ IH]; simpl; [lia|].
  destruct (isalpha c), (isdigit c); simpl in *; try discriminate; lia.
Qed.

Lemma nodup_insert_fresh l1 x l2 :
  ~ In x (l1 ++ l2) ->
  length (nodup char_eq_dec (l1 ++ x :: l2)) = S (length (nodup char_eq_dec (l1 ++ l2))).
Proof.
  intros Hx.
  change (S (length (nodup char_eq_dec (l1 ++ l2))))
    with (length (x :: nodup char_eq_dec (l1 ++ l2))).
  apply Permutation_length, NoDup_Permutation.
  - apply NoDup_nodup.
  - constructor; [rewrite nodup_In; exact Hx | apply NoDup_nodup].
  - intros y. rewrite nodup_In. simpl. rewrite nodup_In, !in_app_iff. simpl. tauto.
Qed.

Lemma nodup_length_le (l : list char) :
  (length (nodup char_eq_dec l) <= length l)%nat.
Proof.
  apply NoDup_incl_length; [apply NoDup_nodup|].
  intros y Hy. now apply nodup_In in Hy.
Qed.

Lemma nodup_length_pos (l : list char) :
  l <> [] -> (1 <= length (nodup char_eq_dec l))%nat.
Proof.
  destruct l as [|c l]; [congruence|]. intros _.
  assert (H : In c (nodup char_eq_dec (c :: l))) by (apply nodup_In; now left).
  destruct (nodup char_eq_dec (c :: l)); [contradiction | simpl; lia].
Qed.

(** The score of a text all of whose characters are printable. *)
Lemma quality_printable text :
  text <> [] -> Forall (fun c => isprintable c = true) text ->
  quality text =
    (let n := length text in
     ratio (count isalpha text) n * (4 # 10)
     + ratio (count isalpha text + count isdigit text) n * (3 # 10)
     + ratio n (Nat.max n 1) * (2 # 10)
     + Qmin (ratio (length (nodup char_eq_dec text)) n) (5 # 10) * (1 # 10),
     length text).
Proof.
  intros Hne Hp. unfold quality, _quality.
  destruct text as [|c t]; [congruence|].
  rewrite (filter_all _ _ Hp). reflexivity.
Qed.

(** ** The claims on the extraction strategy *)

(** The fall of the score under the insertion has a floor: at least
    0.2 / (n + 1) for a text of [n] characters, far above the rounding of
    double-precision arithmetic for any text that fits in memory. *)
Lemma quality_punctuation_gap l1 l2 p :
  l1 ++ l2 <> [] ->
  Forall (fun c => isprintable c = true /\ isalpha c || isdigit c = true) (l1 ++ l2) ->
  isprintable p = true -> isalpha p = false -> isdigit p = false ->
  fst (quality (l1 ++ p :: l2)) + (2 # 10) * ratio 1 (S (length (l1 ++ l2)))
  <= fst (quality (l1 ++ l2)).
Proof.
  intros Hne Hclean Hpp Hpa Hpd.
  assert (Hprint : Forall (fun c => isprintable c = true) (l1 ++ l2)).
  { eapply Forall_impl; [|exact Hclean]. simpl. tauto. }
  assert (Halnum : Forall (fun c => isalpha c || isdigit c = true) (l1 ++ l2)).
  { eapply Forall_impl; [|exact Hclean]. simpl. tauto. }
  assert (Hprint' : Forall (fun c => isprintable c = true) (l1 ++ p :: l2)).
  { apply Forall_app in Hprint. destruct Hprint as [Ha Hb].
    apply Forall_app. split; [exact Ha | constructor; assumption]. }
  assert (Hfresh : ~ In p (l1 ++ l2)).
  { intros Hin. rewrite Forall_forall in Halnum. specialize (Halnum p Hin).
    now rewrite Hpa, Hpd in Halnum. }
  rewrite (quality_printable (l1 ++ p :: l2)) by (try exact Hprint'; now destruct l1).
  rewrite (quality_printable (l1 ++ l2)) by assumption.
  cbn [fst].
  rewrite !(count_insert_false _ l1 p l2) by assumption.
  rewrite (nodup_insert_fresh l1 p l2 Hfresh).
  replace (length (l1 ++ p :: l2)) with (S (length (l1 ++ l2)))
    by (rewrite !length_app; simpl; lia).
  apply score_gap.
  - destruct (l1 ++ l2); [congruence | simpl; lia].
  - now apply count_alnum_ge.
  - now apply nodup_length_pos.
  - apply nodup_length_le.
Qed.

(** C9. The score falls strictly when a punctuation character (printable,
    neither a letter nor a digit) is inserted anywhere into a non-empty text
    whose characters are all printable and each a letter or a digit.  Scores
    are exact rationals here. *)
Theorem quality_punctuation_lowers l1 l2 p :
  l1 ++ l2 <> [] ->
  Forall (fun c => isprintable c = true /\ isalpha c || isdigit c = true) (l1 ++ l2) ->
  isprintable p = true -> isalpha p = false -> isdigit p = false ->
  fst (quality (l1 ++ p :: l2)) < fst (quality (l1 ++ l2)).
Proof.
  intros Hne Hclean Hpp Hpa Hpd.
  pose proof (quality_punctuation_gap l1 l2 p Hne Hclean Hpp Hpa Hpd) as Hgap.
  pose proof (ratio_unit_pos (length (l1 ++ l2))) as Hpos.
  lra.
Qed.

(** The two models of the score count the same characters. *)
Lemma quality_float_length text :
  snd (quality_float text) = snd (quality text).
Proof.
  unfold quality_float, quality, _quality_float, _quality.
  destruct text as [|c t]; [reflexivity|].
  destruct (Nat.eqb (length (filter isprintable (c :: t))) 0); reflexivity.
Qed.


End TextExtractionFacts.

(** "abc1" scores 0.85, "ab!c1" scores 0.73. *)
Lemma quality_punctuation_lowers_witness :
  fst (TextExtraction.quality_ascii "ab!c1") < fst (TextExtraction.quality_ascii "abc1").
Proof.
  apply (quality_punctuation_lowers ascii_dec TextExtraction.ascii_isprintable
           TextExtraction.ascii_isalpha TextExtraction.ascii_isdigit
           (list_ascii_of_string "ab") (list_ascii_of_string "c1") "!"%char).
  - simpl. discriminate.
  - simpl. repeat constructor.
  - reflexivity.
  - reflexivity.
  - reflexivity.
Defined.


(** Where the rounding decides.  "a012" and "abcd!#$" have the same
    rational score, 13/20, but the interpreter computes 0.6500000000000001
    for the first and 0.65 for the second: the VLM text is not kept. *)
Example ocr_escalation_rounding :
  fst (TextExtraction.quality_ascii "a012") == fst (TextExtraction.quality_ascii "abcd!#$") /\
  fst (TextExtraction.quality_float_ascii "a012")
    = SpecFloat.S754_finite false 5854679515581646 (-53) /\
  fst (TextExtraction.quality_float_ascii "abcd!#$")
    = SpecFloat.S754_finite false 5854679515581645 (-53) /\
  fst (TextExtraction.ocr_image_ascii
         (TextExtraction.mkSettings true "hunyuan") TextExtraction.equal_rationals)
  = TextExtraction.Ok
      (TextExtraction.low_quality (list_ascii_of_string "a012")).
Proof. repeat apply conj; vm_compute; reflexivity. Qed.


Section HunyuanOcrFacts.

Import HunyuanOcr.

Context {char : Type}.
Variable char_eq_dec : forall a b : char, {a = b} + {a <> b}.
Variable newline : char.

Local Abbreviation clean := (_clean_repeated_substrings char_eq_dec newline).
Local Abbreviation collapse := (sub_runs char_eq_dec newline).
Local Abbreviation from := (sub_runs_from char_eq_dec newline).
Local Abbreviation ok_from := (settled_from char_eq_dec newline).
Local Abbreviation ok := (settled char_eq_dec newline).
Local Abbreviation fl := (flush char_eq_dec newline).
Local Abbreviation short := (short_run char_eq_dec newline).

(** ** The first pass *)

Lemma repeat_snoc (c : char) k l : repeat c (S k) ++ l = repeat c k ++ c :: l.
Proof.
  induction k as [|k IH]; simpl; [reflexivity|]. f_equal. exact IH.
Qed.

Lemma short_run_flush c k :
  short c k = true -> fl c k = repeat c k.
Proof.
  unfold short_run, flush. intros H. apply negb_true_iff in H. now rewrite H.
Qed.

Lemma short_run_pred c k :
  short c (S k) = true -> short c k = true.
Proof.
  unfold short_run. rewrite !negb_true_iff, !andb_false_iff.
  intros [H|H]; [now left | right].
  apply Nat.leb_gt in H. apply Nat.leb_gt. lia.
Qed.

(** The run a flush emits is never one the pass would rewrite again. *)
Lemma flush_repeat c k :
  (1 <= k)%nat ->
  exists m, (1 <= m)%nat /\ fl c k = repeat c m /\
            short c m = true.
Proof.
  intros Hk. unfold flush, short_run.
  destruct (dot char_eq_dec newline c && Nat.leb 16 k) eqn:E.
  - exists 3%nat. repeat split; [lia|]. now rewrite andb_false_r.
  - exists k. repeat split; [assumption|]. now rewrite E.
Qed.

(** A settled text is a fixed point of the first pass. *)
Lemma settled_from_fixed l : forall c k,
  ok_from c k l = true -> from c k l = repeat c k ++ l.
Proof.
  induction l as [|d l IH]; intros c k H; simpl in *.
  - rewrite app_nil_r. now apply short_run_flush.
  - destruct (char_eq_dec d c) as [->|Hne].
    + rewrite (IH _ _ H). apply repeat_snoc.
    + apply andb_true_iff in H. destruct H as [Hs Hl].
      rewrite (short_run_flush _ _ Hs). f_equal.
      rewrite (IH _ _ Hl). reflexivity.
Qed.

Lemma settled_fixed text : ok text = true -> collapse text = text.
Proof.
  destruct text as [|c l]; simpl; [reflexivity|].
  intros H. now rewrite (settled_from_fixed _ _ _ H).
Qed.

Lemma settled_from_repeat c j m l :
  ok_from c j (repeat c m ++ l) = ok_from c (j + m) l.
Proof.
  revert j. induction m as [|m IH]; intros j; simpl.
  - now rewrite Nat.add_0_r.
  - destruct (char_eq_dec c c) as [_|Hne]; [|congruence].
    rewrite IH. f_equal. lia.
Qed.

Lemma from_head l : forall c k,
  (1 <= k)%nat -> exists t, from c k l = c :: t.
Proof.
  induction l as [|d l IH]; intros c k Hk; simpl.
  - destruct (flush_repeat c k Hk) as (m & Hm & -> & _).
    destruct m; [lia | simpl; eauto].
  - destruct (char_eq_dec d c) as [->|Hne].
    + apply IH. lia.
    + destruct (flush_repeat c k Hk) as (m & Hm & -> & _).
      destruct m; [lia | simpl; eauto].
Qed.

(** The first pass yields a settled text. *)
Lemma from_settled l : forall c k,
  (1 <= k)%nat -> ok (from c k l) = true.
Proof.
  induction l as [|d l IH]; intros c k Hk; simpl.
  - destruct (flush_repeat c k Hk) as (m & Hm & -> & Hs).
    destruct m as [|m]; [lia|]. simpl.
    pose proof (settled_from_repeat c 1 m []) as E.
    rewrite app_nil_r in E. rewrite E. simpl. exact Hs.
  - destruct (char_eq_dec d c) as [->|Hne].
    + apply IH. lia.
    + destruct (flush_repeat c k Hk) as (m & Hm & -> & Hs).
      destruct (from_head l d 1 (le_n 1)) as [t Ht].
      specialize (IH d 1%nat (le_n 1)). rewrite Ht in *. simpl in IH.
      destruct m as [|m]; [lia|]. simpl.
      pose proof (settled_from_repeat c 1 m (d :: t)) as E.
      rewrite E. simpl.
      destruct (char_eq_dec d c) as [->|_]; [congruence|].
      now rewrite Hs, IH.
Qed.

Lemma collapse_settled text : ok (collapse text) = true.
Proof.
  destruct text as [|c l]; simpl; [reflexivity|].
  apply from_settled. lia.
Qed.

Lemma settled_from_short l : forall c k,
  ok_from c k l = true -> short c k = true.
Proof.
  induction l as [|d l IH]; intros c k H; simpl in H.
  - exact H.
  - destruct (char_eq_dec d c) as [->|Hne].
    + apply short_run_pred. now apply IH.
    + apply andb_true_iff in H. tauto.
Qed.

(** A prefix of a settled text is settled. *)
Lemma settled_from_prefix l1 l2 : forall c k,
  ok_from c k (l1 ++ l2) = true -> ok_from c k l1 = true.
Proof.
  induction l1 as [|d l1 IH]; intros c k H; simpl in *.
  - now apply (settled_from_short l2).
  - destruct (char_eq_dec d c) as [->|Hne].
    + now apply IH.
    + apply andb_true_iff in H. destruct H as [Hs Hl].
      rewrite Hs. simpl. now apply IH.
Qed.

Lemma settled_firstn j text : ok text = true -> ok (firstn j text) = true.
Proof.
  intros H. rewrite <- (firstn_skipn j text) in H.
  destruct (firstn j text) as [|c l1]; [reflexivity|].
  simpl in *. now apply (settled_from_prefix l1 (skipn j text)).
Qed.

(** ** The scan of [re.sub] and the run-by-run pass agree *)

Lemma from_run_length l : forall c k,
  from c k l =
  fl c (k + run_length char_eq_dec c l)
    ++ collapse (skipn (run_length char_eq_dec c l) l).
Proof.
  induction l as [|d l IH]; intros c k; simpl.
  - now rewrite Nat.add_0_r, app_nil_r.
  - destruct (char_eq_dec d c) as [->|Hne].
    + rewrite IH. simpl. now rewrite Nat.add_succ_r.
    + simpl. now rewrite Nat.add_0_r.
Qed.

(** Where the pattern does not match, the pass copies the character. *)
Lemma collapse_no_match c rest :
  dot char_eq_dec newline c && Nat.leb 15 (run_length char_eq_dec c rest) = false ->
  collapse (c :: rest) = c :: collapse rest.
Proof.
  intros Hno.
  assert (Hfl : forall k, (k <= S (run_length char_eq_dec c rest))%nat ->
                          fl c k = repeat c k).
  { intros k Hk. unfold flush.
    destruct (dot char_eq_dec newline c); [|reflexivity].
    cbn [andb] in *. apply Nat.leb_gt in Hno.
    destruct (Nat.leb 16 k) eqn:E; [apply Nat.leb_le in E; lia | reflexivity]. }
  clear Hno. destruct rest as [|d rest'].
  - cbn. now rewrite (Hfl 1%nat) by (cbn; lia).
  - cbn [sub_runs sub_runs_from run_length] in *.
    destruct (char_eq_dec d c) as [->|Hne].
    + rewrite !from_run_length.
      rewrite !Hfl by lia. reflexivity.
    + rewrite (Hfl 1%nat) by lia. reflexivity.
Qed.

(** Where it matches, the whole run becomes three copies. *)
Lemma collapse_match c rest :
  dot char_eq_dec newline c && Nat.leb 15 (run_length char_eq_dec c rest) = true ->
  collapse (c :: rest) =
  c :: c :: c :: collapse (skipn (run_length char_eq_dec c rest) rest).
Proof.
  intros Hyes. simpl. rewrite from_run_length. unfold flush.
  apply andb_true_iff in Hyes. destruct Hyes as [Hd Hk]. rewrite Hd.
  apply Nat.leb_le in Hk.
  destruct (Nat.leb 16 (1 + run_length char_eq_dec c rest)) eqn:E.
  - reflexivity.
  - apply Nat.leb_gt in E. lia.
Qed.

Lemma re_sub_scan_runs fuel : forall l,
  (length l <= fuel)%nat -> re_sub_scan char_eq_dec newline fuel l = collapse l.
Proof.
  induction fuel as [|fuel IH]; intros l Hl.
  - destruct l; [reflexivity | simpl in Hl; lia].
  - destruct l as [|c rest]; [reflexivity|]. simpl in Hl.
    cbn [re_sub_scan].
    destruct (dot char_eq_dec newline c
              && Nat.leb 15 (run_length char_eq_dec c rest)) eqn:E.
    + rewrite (collapse_match _ _ E). do 3 f_equal.
      apply IH. rewrite length_skipn. lia.
    + rewrite (collapse_no_match _ _ E). f_equal. apply IH. lia.
Qed.

Lemma re_sub_runs text : re_sub char_eq_dec newline text = collapse text.
Proof. apply re_sub_scan_runs. lia. Qed.

(** ** The second pass returns a prefix of its input *)

Lemma trim_scan_prefix lengths text n :
  exists j, trim_scan char_eq_dec lengths text n = firstn j text.
Proof.
  induction lengths as [|len lengths IH]; simpl.
  - exists (length text). now rewrite firstn_all.
  - destruct (5 <=? _)%Z; [|exact IH]. unfold first_chars. eauto.
Qed.

Lemma clean_prefix_of_collapse text :
  exists j, clean text = firstn j (collapse text).
Proof.
  unfold _clean_repeated_substrings. rewrite re_sub_runs.
  destruct (len (collapse text) <? 1000)%Z.
  - exists (length (collapse text)). now rewrite firstn_all.
  - apply trim_scan_prefix.
Qed.

Lemma clean_settled text : ok (clean text) = true.
Proof.
  destruct (clean_prefix_of_collapse text) as [j ->].
  apply settled_firstn, collapse_settled.
Qed.

(** More fuel than the index can use up changes nothing: the loop of the
    second pass always runs to its end within the fuel [trim_scan] gives. *)
Lemma count_loop_fuel text candidate length fuel : forall extra i count,
  (1 <= length)%Z -> (i < Z.of_nat fuel)%Z ->
  count_loop char_eq_dec (fuel + extra) text candidate length i count =
  count_loop char_eq_dec fuel text candidate length i count.
Proof.
  induction fuel as [|fuel IH]; intros extra i count Hl Hi.
  - simpl in *. destruct extra; simpl; [reflexivity|].
    destruct (0 <=? i)%Z eqn:E; [apply Z.leb_le in E; lia | reflexivity].
  - simpl. destruct ((0 <=? i)%Z && _); [|reflexivity].
    apply IH; lia.
Qed.

(** ** The claim on the clean-up *)

(** A clean-up that trimmed nothing is final: applied to its own result it
    changes nothing, at any length. *)
Lemma clean_untrimmed text :
  clean text = re_sub char_eq_dec newline text -> clean (clean text) = clean text.
Proof.
  intros Hsame. rewrite Hsame at 1.
  unfold _clean_repeated_substrings.
  rewrite !re_sub_runs, (settled_fixed (collapse text) (collapse_settled text)).
  reflexivity.
Qed.

(** C7, amended.  The first pass (runs of 16 or more identical characters
    collapse to 3) is idempotent, and a second clean-up never adds text: it
    returns a prefix of the first result.  It returns the first result
    itself whenever that has fewer than 1000 characters, and, at any
    length, whenever the first clean-up trimmed no trailing repeat (its
    result is the text the first pass left).  In general the second
    clean-up is one more run of the second pass on the first result, so it
    differs only when the first trim has exposed a further trailing
    repeat. *)
Theorem cleanup_twice text :
  re_sub char_eq_dec newline (re_sub char_eq_dec newline text)
    = re_sub char_eq_dec newline text /\
  (exists j,
     _clean_repeated_substrings char_eq_dec newline
       (_clean_repeated_substrings char_eq_dec newline text)
     = firstn j (_clean_repeated_substrings char_eq_dec newline text)) /\
  ((len (_clean_repeated_substrings char_eq_dec newline text) < 1000)%Z ->
   _clean_repeated_substrings char_eq_dec newline
     (_clean_repeated_substrings char_eq_dec newline text)
   = _clean_repeated_substrings char_eq_dec newline text) /\
  (_clean_repeated_substrings char_eq_dec newline text
     = re_sub char_eq_dec newline text ->
   _clean_repeated_substrings char_eq_dec newline
     (_clean_repeated_substrings char_eq_dec newline text)
   = _clean_repeated_substrings char_eq_dec newline text) /\
  ((1000 <= len (_clean_repeated_substrings char_eq_dec newline text))%Z ->
   _clean_repeated_substrings char_eq_dec newline
     (_clean_repeated_substrings char_eq_dec newline text)
   = trim_scan char_eq_dec
       (range 2 (len (_clean_repeated_substrings char_eq_dec newline text) / 10 + 1))
       (_clean_repeated_substrings char_eq_dec newline text)
       (len (_clean_repeated_substrings char_eq_dec newline text))).
Proof.
  split; [rewrite !re_sub_runs; apply settled_fixed, collapse_settled|].
  assert (E : collapse (clean text) = clean text)
    by apply settled_fixed, clean_settled.
  repeat apply conj.
  - destruct (clean_prefix_of_collapse (clean text)) as [j Hj].
    exists j. now rewrite Hj, E.
  - intros Hlen. unfold _clean_repeated_substrings at 1.
    rewrite re_sub_runs, E.
    apply Z.ltb_lt in Hlen. now rewrite Hlen.
  - apply clean_untrimmed.
  - intros Hlen. unfold _clean_repeated_substrings at 1.
    rewrite re_sub_runs, E.
    apply Z.ltb_ge in Hlen. now rewrite Hlen.
Qed.

End HunyuanOcrFacts.

(** C7, as stated, fails: on [nested_repeat] the first clean-up trims the
    five trailing "ab" to one, which completes a fifth "cdab"; the second
    clean-up trims those. *)
Lemma cleanup_not_idempotent :
  HunyuanOcr.clean_ascii HunyuanOcr.nested_repeat
    = String.append HunyuanOcr.digits1000 "cdabcdabcdabcdabcdab" /\
  HunyuanOcr.clean_ascii (HunyuanOcr.clean_ascii HunyuanOcr.nested_repeat)
    = String.append HunyuanOcr.digits1000 "cdab".
Proof. split; vm_compute; reflexivity. Qed.

(** A short line with a run of dots: cleaned once, it stays as it is. *)
Lemma cleanup_twice_witness :
  HunyuanOcr.clean_ascii (HunyuanOcr.clean_ascii "Band council............................ 1911")
  = HunyuanOcr.clean_ascii "Band council............................ 1911".
Proof.
  unfold HunyuanOcr.clean_ascii. rewrite list_ascii_of_string_of_list_ascii.
  apply (f_equal string_of_list_ascii).
  apply (proj1 (proj2 (proj2 (cleanup_twice ascii_dec HunyuanOcr.ascii_newline _)))).
  vm_compute. reflexivity.
Defined.

(** A page of more than 1000 characters that ends in no repeat: the first
    clean-up only collapses its row of dots, and the second changes
    nothing. *)
Example cleanup_twice_long_page :
  HunyuanOcr.clean_ascii (HunyuanOcr.clean_ascii HunyuanOcr.long_page)
  = HunyuanOcr.clean_ascii HunyuanOcr.long_page /\
  HunyuanOcr.clean_ascii HunyuanOcr.long_page
  = String.append HunyuanOcr.digits1000 "... end of the register" /\
  String.length (HunyuanOcr.clean_ascii HunyuanOcr.long_page) = 1023%nat.
Proof.
  assert (Hfirst :
    HunyuanOcr._clean_repeated_substrings ascii_dec HunyuanOcr.ascii_newline
      (list_ascii_of_string HunyuanOcr.long_page)
    = HunyuanOcr.re_sub ascii_dec HunyuanOcr.ascii_newline
        (list_ascii_of_string HunyuanOcr.long_page))
    by (vm_compute; reflexivity).
  repeat apply conj.
  - unfold HunyuanOcr.clean_ascii. rewrite list_ascii_of_string_of_list_ascii.
    apply (f_equal string_of_list_ascii).
    exact (clean_untrimmed ascii_dec HunyuanOcr.ascii_newline _ Hfirst).
  - vm_compute. reflexivity.
  - vm_compute. reflexivity.
Qed.

Section GeoContextFacts.

Import GeoContext.
Local Open Scope Q_scope.

(** The square of the spec: its centroid is inside, (15, 5) is not. *)
Example point_in_square :
  _point_in_feature 5 5 (Polygon [square]) = Some true /\
  _point_in_feature 5 15 (Polygon [square]) = Some false.
Proof. split; reflexivity. Qed.

(** Geo tagging looks at the exterior ring only: the answer for a Polygon
    does not depend on its interior rings. *)
Lemma point_in_feature_ignores_holes lat lon exterior holes :
  _point_in_feature lat lon (Polygon (exterior :: holes)) =
  _point_in_ring lat lon exterior.
Proof. reflexivity. Qed.

(** C8, as stated, fails.  The point (5, 5) lies in the hole of
    [reserve_with_lake]; the membership test of geo tagging reports it as
    contained (the sibling test of the spatial search, which checks the
    interior rings, reports it as not contained).  The point (2, 2), inside
    the exterior ring and outside the hole, is contained for both. *)
Theorem point_in_hole_reported_inside :
  _point_in_ring 5 5 hole = Some true /\
  _point_in_feature 5 5 reserve_with_lake = Some true /\
  point_in_geometry 5 5 reserve_with_lake = Some false /\
  _point_in_feature 2 2 reserve_with_lake = Some true /\
  point_in_geometry 2 2 reserve_with_lake = Some true.
Proof. repeat split; reflexivity. Qed.

Lemma any_exterior_first_rings lat lon polys :
  any_exterior lat lon (map (firstn 1) polys) = any_exterior lat lon polys.
Proof.
  induction polys as [|poly polys IH]; [reflexivity|].
  destruct poly as [|ring rest]; simpl; [exact IH|].
  destruct (_point_in_ring lat lon ring) as [[|]|]; auto.
Qed.

Lemma point_in_short_ring lat lon (ring : Ring) :
  _point_in_ring lat lon ring = Some true -> ring <> [].
Proof. intros H ->. discriminate H. Qed.

Lemma any_exterior_outer_ring lat lon polys :
  any_exterior lat lon polys = Some true ->
  exists ring, In ring (flat_map first_ring polys) /\
               _point_in_ring lat lon ring = Some true.
Proof.
  induction polys as [|poly polys IH]; simpl; [discriminate|].
  destruct poly as [|ring rest]; [exact IH|].
  destruct (_point_in_ring lat lon ring) as [[|]|] eqn:E; [| |discriminate].
  - intros _. exists ring. split; [|exact E].
    apply in_or_app. left.
    pose proof (point_in_short_ring lat lon ring E) as Hne.
    destruct ring; [congruence | simpl; auto].
  - intros H. destruct (IH H) as (r & Hin & Hr). exists r. split; [|exact Hr].
    apply in_or_app. now right.
Qed.

(** C8, amended.  Membership for geo tagging is ray casting on the outer
    ring of each polygon; interior rings are never consulted.  An AOI is
    stored with one ring, and on a stored AOI the test is the ray casting
    on that ring, the same answer the hole-aware test of the spatial search
    gives.  On a geometry that carries interior rings the answer is that of
    the outer rings alone; every point reported inside it is reported
    inside one of the AOIs the importer stores for it; and where the
    hole-aware test disagrees, the point lies in a hole. *)
Theorem point_in_feature_outer_ring lat lon :
  (forall ring,
     _point_in_feature lat lon (stored_geometry ring) = _point_in_ring lat lon ring /\
     point_in_geometry lat lon (stored_geometry ring) = _point_in_ring lat lon ring) /\
  (forall exterior holes,
     _point_in_feature lat lon (Polygon (exterior :: holes))
     = _point_in_feature lat lon (stored_geometry exterior)) /\
  (forall polygons,
     _point_in_feature lat lon (MultiPolygon polygons)
     = _point_in_feature lat lon (MultiPolygon (map (firstn 1) polygons))) /\
  (forall geometry,
     _point_in_feature lat lon geometry = Some true ->
     exists ring, In ring (_outer_rings geometry) /\
                  _point_in_feature lat lon (stored_geometry ring) = Some true) /\
  (forall exterior holes,
     _point_in_feature lat lon (Polygon (exterior :: holes)) = Some true ->
     point_in_geometry lat lon (Polygon (exterior :: holes)) = Some false ->
     in_some_hole lat lon holes = Some true).
Proof.
  repeat apply conj.
  - intros ring. split; [reflexivity|].
    unfold stored_geometry, point_in_geometry, _point_in_polygon.
    destruct (_point_in_ring lat lon ring) as [[|]|]; reflexivity.
  - reflexivity.
  - intros polygons. simpl. symmetry. apply any_exterior_first_rings.
  - intros geometry H. destruct geometry as [coords|polys| |]; simpl in H;
      try discriminate.
    + destruct coords as [|ring rest]; [discriminate|].
      pose proof (point_in_short_ring lat lon ring H) as Hne.
      exists ring. split; [|exact H].
      destruct ring; [congruence | simpl; auto].
    + exact (any_exterior_outer_ring lat lon polys H).
  - intros exterior holes Hin Hout. simpl in Hin.
    unfold point_in_geometry, _point_in_polygon in Hout. rewrite Hin in Hout.
    destruct (in_some_hole lat lon holes) as [[|]|]; congruence.
Qed.

(** On [reserve_with_lake]: the AOI imported from it is the square, and
    the point in the lake is reported inside that AOI. *)
Lemma point_in_feature_outer_ring_witness :
  _outer_rings reserve_with_lake = [square] /\
  (exists ring, In ring (_outer_rings reserve_with_lake) /\
                _point_in_feature 5 5 (stored_geometry ring) = Some true) /\
  in_some_hole 5 5 [hole] = Some true.
Proof.
  destruct (point_in_feature_outer_ring 5 5) as (_ & _ & _ & H4 & H5).
  repeat apply conj.
  - reflexivity.
  - apply (H4 reserve_with_lake). reflexivity.
  - apply (H5 square [hole]); reflexivity.
Defined.

End GeoContextFacts.

Section WebhookFacts.

Import Webhook.

(** The digest functions on the test vectors of FIPS 180-4 and RFC 4231. *)
Example sha256_abc :
  hex (sha256 (utf8 "abc")) =
  "ba7816bf8f01cfea414140de5dae2223b00361a396177a9cb410ff61f20015ad"%string.
Proof. vm_compute. reflexivity. Qed.

Example hmac_sha256_rfc4231 :
  hex (hmac_sha256 (utf8 "Jefe") (utf8 "what do ya want for nothing?")) =
  "5bdcc146bf60754e6a042426089575c75a003f089d2739839dec58b964ec3843"%string.
Proof. vm_compute. reflexivity. Qed.

Lemma length_append (a b : string) :
  String.length (a ++ b) = (String.length a + String.length b)%nat.
Proof. induction a as [|c a IH]; simpl; [reflexivity | now rewrite IH]. Qed.

(** The body on the wire is 23 characters longer than the text that is
    signed: one blank after each of the 12 colons and 11 commas. *)
Lemma dumps_payload_lengths job_id task_id theme file_path status error metadata
    error_summary now :
  let p := payload job_id task_id theme file_path status error metadata
                   error_summary now in
  String.length (dumps ", " ": " p) = (String.length (dumps "," ":" p) + 23)%nat.
Proof.
  unfold payload, dumps. cbn [map fst snd String.concat].
  repeat rewrite length_append. cbn [String.length]. lia.
Qed.

(** What [_send_callback] posts when the job has a callback URL and a
    secret is configured: the signature header carries the HMAC of the
    compact serialisation of the payload, the body is the serialisation
    with the default separators, which is a different text. *)
Lemma send_callback_signed_text target token now job_id task_id theme file_path
    status error metadata error_summary :
  truthy (Some target) = true -> truthy (Some token) = true ->
  let p := payload job_id task_id theme file_path status error metadata
                   error_summary now in
  exists r,
    _send_callback (Some target) (Some token) now job_id task_id theme file_path
                   status error metadata error_summary = Some r /\
    url r = target /\
    body r = dumps ", " ": " p /\
    header "X-Pukaist-Token" r = Some token /\
    header "X-Pukaist-Signature" r =
      Some ("sha256=" ++ hex (hmac_sha256 (utf8 token) (utf8 (dumps "," ":" p))))%string /\
    String.length (body r) = (String.length (dumps "," ":" p) + 23)%nat.
Proof.
  intros Hu Ht p. unfold _send_callback. rewrite Hu, Ht. fold p.
  eexists. split; [reflexivity|]. cbn [url body].
  repeat split. apply dumps_payload_lengths.
Qed.

(** C4 (the code falls short of the claim).  For the delivery
    [letter_done] (callback URL set, secret "s3cret") the token header is
    attached, but the signature header carries the HMAC-SHA256 of the
    compact JSON text, while the body sent is the JSON text with blanks
    after commas and colons.  The digest of the body sent is another one,
    and the receiver of [scripts/webhook_receiver.py], which recomputes
    the HMAC over the raw body, rejects the delivery. *)
Theorem callback_signature_not_of_sent_body :
  option_map body letter_done =
    Some (json_text
      "{'job_id': 3, 'task_id': 7, 'status': 'done', 'theme': 'demo', 'file_path': 'incoming/letter.txt', 'error': null, 'error_summary': null, 'timestamp': '1700000000', 'doc_type': null, 'inferred_date': null, 'title': 'letter', 'doc_id': 'abc123'}") /\
  option_map (header "X-Pukaist-Token") letter_done = Some (Some "s3cret"%string) /\
  option_map (header "X-Pukaist-Signature") letter_done =
    Some (Some "sha256=252084502002856f7ccc8d2207b92da74e8e02e0e3acd9f2a7fcf5d3bc246c6e"%string) /\
  option_map (fun r => ("sha256=" ++ hex (hmac_sha256 (utf8 "s3cret") (utf8 (body r))))%string)
             letter_done =
    Some "sha256=fa39d61a183a227ab67a7b77639df60079212db3c525c20ad1ed02362498b43f"%string /\
  option_map (fun r => verify_signature (utf8 (body r)) (Some "s3cret"%string)
                                        (header "X-Pukaist-Signature" r))
             letter_done = Some false /\
  verify_signature
    (utf8 (json_text
      "{'job_id':3,'task_id':7,'status':'done','theme':'demo','file_path':'incoming/letter.txt','error':null,'error_summary':null,'timestamp':'1700000000','doc_type':null,'inferred_date':null,'title':'letter','doc_id':'abc123'}"))
    (Some "s3cret"%string)
    (Some "sha256=252084502002856f7ccc8d2207b92da74e8e02e0e3acd9f2a7fcf5d3bc246c6e"%string)
  = true.
Proof. repeat split; vm_compute; reflexivity. Qed.

End WebhookFacts.

Section WorkerFacts.

Import Worker.

(** The scenario of the spec: a text of five characters is flagged with
    the length-validation message. *)
Example run_once_five_characters :
  run_once task everything_on five_characters enrichment_ok =
  Flagged "validation failed: content too short to index".
Proof. reflexivity. Qed.

(** An exception raised by an enrichment call is fenced: with every such
    call raising and every other step succeeding, the task is completed,
    with the heuristic snippet as its summary. *)
Example raised_enrichment_is_fenced :
  run_once task everything_on steps_ok enrichment_down =
  Done (mkArtifacts (Some (snippet letter)) JNull false JNull None None).
Proof. reflexivity. Qed.

(** A forensic answer that is a dict with a list where a str is expected:
    [add_document] binds the list as an SQL parameter, outside any fence,
    and the task is flagged with the error of the sqlite3 module. *)
Example non_scalar_forensic_value_flags :
  run_once task everything_on steps_ok
           (forensic_answers (JObject [("key_quote"%string,
                                        JArray [JString "we protest"])]))
  = Flagged "Error binding parameter 13: type 'list' is not supported".
Proof. reflexivity. Qed.

(** An intent that is JSON but no object makes line 162 raise, before the
    [try]: the exception leaves [run_once] and the task stays leased. *)
Example list_intent_escapes :
  run_once task_with_list_intent everything_on steps_ok enrichment_ok = Escaped.
Proof. reflexivity. Qed.

(** ** The claim on the worker iteration *)

(** C3 (the code falls short of the claim).  The text is extracted and is
    valid, and every call of the iteration succeeds.  The forensic request
    succeeds too, and the answer of the model parses to the list [[1]]:
    [analyze_forensic] returns it as it is, [_emit_outputs] tests
    [if forensic:] and calls [forensic.get] on it outside any fence (line
    478), and the handler of line 343 flags the task with the
    AttributeError.  The malformed answer of an enrichment stage has
    flagged the task instead of degrading to none.  In the same way the
    place-suggestion stage runs outside any fence: a gazetteer file that
    cannot be read flags the task. *)
Theorem malformed_forensic_answer_flags_task :
  _process_task steps_ok = Ok letter /\
  validate_record letter letter_metadata = [] /\
  run_once task everything_on steps_ok (forensic_answers (JArray [JInt 1]))
    = Flagged "'list' object has no attribute 'get'" /\
  _process_task gazetteer_unreadable = Ok letter /\
  run_once task everything_on gazetteer_unreadable enrichment_ok
    = Flagged "[Errno 13] Permission denied: 'gazetteer.csv'".
Proof. repeat apply conj; reflexivity. Qed.

End WorkerFacts.

(* ====================================================================== *)
(** * Further properties of the task store *)
(* ====================================================================== *)

Section QueueDbReadSide.

Import QueueDb.
Local Open Scope string_scope.
Local Open Scope list_scope.
Local Open Scope Z_scope.

(** ** Auxiliary facts *)

Lemma next_id_above db r : In r db -> id r < next_id db.
Proof.
  unfold next_id. induction db as [|x db IH]; cbn [map fold_right In]; [contradiction|].
  intros [->|H]; [lia|]. specialize (IH H). lia.
Qed.

Lemma find_app_none {A} (p : A -> bool) l1 l2 :
  (forall x, In x l1 -> p x = false) -> find p (l1 ++ l2) = find p l2.
Proof.
  induction l1 as [|x l1 IH]; simpl; intros H; [reflexivity|].
  rewrite (H x (or_introl eq_refl)). apply IH. intros y Hy. apply H. now right.
Qed.

Lemma find_app_some {A} (p : A -> bool) l1 l2 x :
  In x l1 -> p x = true -> find p (l1 ++ l2) = find p l1.
Proof.
  induction l1 as [|y l1 IH]; simpl; intros Hin Hp; [contradiction|].
  destruct (p y) eqn:E; [reflexivity|].
  destruct Hin as [->|Hin]; [congruence|]. now apply IH.
Qed.




Lemma update_where_ids (cond : Task -> bool) set db :
  (forall r, id (set r) = id r) ->
  map id (update_where cond set db) = map id db.
Proof.
  intros H. unfold update_where. rewrite map_map. apply map_ext.
  intros r. destruct (cond r); auto.
Qed.

(** An update by id of a row outside [p], into a row outside [p], leaves
    the rows of [p] as they are. *)
Lemma update_by_id_filter (p : Task -> bool) set (db : list Task) e :
  NoDup (map id db) -> In e db -> p e = false -> p (set e) = false ->
  filter p (update_where (fun x => id x =? id e) set db) = filter p db.
Proof.
  intros Hnd Hin He Hs.
  destruct (update_by_id_one set db e Hnd Hin) as (l1 & l2 & -> & ->).
  rewrite !filter_app. simpl. now rewrite He, Hs.
Qed.


(** ** Insert and look up *)

(** [enqueue] then [get_task]: the id [enqueue] returns names the new row
    (pending, no attempt, no lease, no error, the fields as given), looked
    up without a tenant or with the tenant it was enqueued for; and the
    tasks already stored are looked up as before. *)
Theorem enqueue_then_get_task unixepoch f th job tenant intent db :
  get_task (fst (enqueue unixepoch f th job tenant intent db)) None
           (snd (enqueue unixepoch f th job tenant intent db)) =
    Some (mkTask (next_id db) f th intent job pending 0 None None tenant
                 unixepoch unixepoch) /\
  get_task (fst (enqueue unixepoch f th job tenant intent db)) tenant
           (snd (enqueue unixepoch f th job tenant intent db)) =
    Some (mkTask (next_id db) f th intent job pending 0 None None tenant
                 unixepoch unixepoch) /\
  (forall r, In r db ->
     get_task (id r) None (snd (enqueue unixepoch f th job tenant intent db)) =
     get_task (id r) None db).
Proof.
  cbn [enqueue fst snd].
  assert (Hnew : forall (c : Task -> bool),
            (forall r, c r = true -> id r = next_id db) ->
            forall x, In x db -> c x = false).
  { intros c Hc x Hx. destruct (c x) eqn:E; [|reflexivity].
    apply Hc in E. pose proof (next_id_above db x Hx). lia. }
  repeat apply conj.
  - unfold get_task, fetchone. rewrite find_app_none.
    + simpl. now rewrite Z.eqb_refl.
    + apply Hnew. intros r Hr. now apply Z.eqb_eq in Hr.
  - unfold get_task, fetchone.
    destruct tenant as [t|]; [destruct (truthy (Some t))|]; rewrite find_app_none.
    + cbn [find id tenant_id text_eq]. now rewrite Z.eqb_refl, String.eqb_refl.
    + apply Hnew. intros r Hr. apply andb_true_iff in Hr. destruct Hr as [Hr _].
      now apply Z.eqb_eq in Hr.
    + simpl. now rewrite Z.eqb_refl.
    + apply Hnew. intros r Hr. now apply Z.eqb_eq in Hr.
    + simpl. now rewrite Z.eqb_refl.
    + apply Hnew. intros r Hr. now apply Z.eqb_eq in Hr.
  - intros r Hr. unfold get_task, fetchone.
    apply (find_app_some _ _ _ r Hr). apply Z.eqb_refl.
Qed.

(** [get_task] with a truthy tenant returns a row of that tenant only; with
    the empty string as tenant it looks the id up unscoped, as with no
    tenant. *)
Theorem get_task_scoped task_id tenant db r :
  get_task task_id tenant db = Some r ->
  In r db /\ id r = task_id /\
  (truthy tenant = true -> tenant_id r = tenant) /\
  get_task task_id (Some ""%string) db = get_task task_id None db.
Proof.
  intros H. unfold get_task, fetchone in H.
  assert (Hu : forall c, find (fun r => id r =? task_id) db = Some c ->
                         In c db /\ id c = task_id).
  { intros c Hc. apply find_some in Hc. destruct Hc as [Hin Hc].
    now apply Z.eqb_eq in Hc. }
  destruct tenant as [t|].
  - destruct (truthy (Some t)) eqn:T.
    + apply find_some in H. destruct H as [Hin H].
      apply andb_true_iff in H. destruct H as [Hi Ht].
      apply Z.eqb_eq in Hi. apply text_eq_true in Ht.
      repeat split; auto.
    + destruct (Hu r H). repeat split; auto. discriminate.
  - destruct (Hu r H). repeat split; auto. discriminate.
Qed.

Lemma get_task_scoped_witness :
  In (row 1 done 1 (Some 5) (Some "tenant-a"%string) 1) mixed /\
  1 = 1 /\
  (truthy (Some "tenant-a"%string) = true ->
   Some "tenant-a"%string = Some "tenant-a"%string) /\
  get_task 1 (Some ""%string) mixed = get_task 1 None mixed.
Proof.
  exact (get_task_scoped 1 (Some "tenant-a"%string) mixed _ eq_refl).
Defined.

(** ** What a lease may write *)

Local Abbreviation same_task_but_lease := (fun r r' : Task =>
  id r' = id r /\ file_path r' = file_path r /\ theme r' = theme r /\
  intent_json r' = intent_json r /\ job_id r' = job_id r /\
  last_error r' = last_error r /\ tenant_id r' = tenant_id r /\
  created_at r' = created_at r /\ attempts r <= attempts r').

Lemma Forall2_update_where (P : Task -> Task -> Prop) (cond : Task -> bool) set db :
  (forall r, P r r) -> (forall r, P r (set r)) ->
  Forall2 P db (update_where cond set db).
Proof.
  intros Hr Hs. induction db as [|x db IH]; simpl; constructor; auto.
  destruct (cond x); auto.
Qed.

Lemma Forall2_trans_rel {A} (P : A -> A -> Prop) :
  (forall a b c, P a b -> P b c -> P a c) ->
  forall l1 l2 l3, Forall2 P l1 l2 -> Forall2 P l2 l3 -> Forall2 P l1 l3.
Proof.
  intros Ht l1 l2 l3 H12. revert l3.
  induction H12; intros l3 H23; inversion H23; subst; constructor; eauto.
Qed.

Lemma claim_frame now tenant allow db :
  Forall2 same_task_but_lease db (claim now tenant allow db).
Proof.
  unfold claim.
  destruct (order_by_limit1 _ _) as [r|].
  - apply Forall2_update_where; intros x; simpl; repeat split; lia.
  - induction db; constructor; auto. repeat split; lia.
Qed.

Lemma recycle_frame now e db :
  Forall2 same_task_but_lease db (recycle now e db).
Proof.
  unfold recycle. apply Forall2_update_where; intros x; simpl; repeat split; lia.
Qed.

(** [lease_one] adds and removes no row, and of a row it writes only
    status, leased_at, attempts and updated_at: id, file_path, theme,
    intent_json, job_id, last_error, tenant_id and created_at of every row
    are as before, and no attempts count decreases. *)
Theorem lease_one_frame clock vt tenant allow db res db' rest :
  lease_one clock vt tenant allow db = Some (res, db', rest) ->
  Forall2 (fun r r' : Task =>
             id r' = id r /\ file_path r' = file_path r /\ theme r' = theme r /\
             intent_json r' = intent_json r /\ job_id r' = job_id r /\
             last_error r' = last_error r /\ tenant_id r' = tenant_id r /\
             created_at r' = created_at r /\ attempts r <= attempts r')
          db db'.
Proof.
  assert (Htrans : forall a b c : Task,
            same_task_but_lease a b -> same_task_but_lease b c ->
            same_task_but_lease a c).
  { intros a b c (A1 & A2 & A3 & A4 & A5 & A6 & A7 & A8 & A9)
                 (B1 & B2 & B3 & B4 & B5 & B6 & B7 & B8 & B9).
    repeat split; try congruence. lia. }
  revert db res db' rest.
  induction clock as [|now clock IH]; intros db res db' rest H; [discriminate|].
  cbn [lease_one] in H.
  pose proof (claim_frame now tenant allow db) as Hc.
  destruct (fetchone (leased_now now) (claim now tenant allow db)) as [row|].
  - inversion H; subst. exact Hc.
  - destruct (find_expired now vt tenant allow (claim now tenant allow db)) as [e|].
    + apply IH in H.
      eapply (Forall2_trans_rel _ Htrans); [exact Hc|].
      eapply (Forall2_trans_rel _ Htrans); [apply recycle_frame | exact H].
    + inversion H; subst. exact Hc.
Qed.

Lemma lease_one_frame_witness :
  Forall2 (fun r r' : Task =>
             id r' = id r /\ file_path r' = file_path r /\ theme r' = theme r /\
             intent_json r' = intent_json r /\ job_id r' = job_id r /\
             last_error r' = last_error r /\ tenant_id r' = tenant_id r /\
             created_at r' = created_at r /\ attempts r <= attempts r')
          one_stale_lease
          [ mkTask 7 "scan.pdf" (Some "demo"%string) None None leased 2 None
                   (Some 1001) None 0 1001 ].
Proof.
  exact (lease_one_frame [1000; 1001] 300 None true one_stale_lease _ _ _ eq_refl).
Defined.

(** A task that is done or flagged is out of reach of [lease_one]: under
    the PRIMARY KEY constraint on id, the done and flagged rows of the
    store after a call are those before it, unchanged. *)
Theorem lease_one_keeps_finished clock vt tenant allow db res db' rest :
  NoDup (map id db) ->
  lease_one clock vt tenant allow db = Some (res, db', rest) ->
  filter (fun r => status_eqb (status r) done || status_eqb (status r) flagged) db' =
  filter (fun r => status_eqb (status r) done || status_eqb (status r) flagged) db.
Proof.
  set (finished := fun r => status_eqb (status r) done || status_eqb (status r) flagged).
  revert db res db' rest.
  induction clock as [|now clock IH]; intros db res db' rest Hnd H; [discriminate|].
  cbn [lease_one] in H.
  assert (Hc : filter finished (claim now tenant allow db) = filter finished db /\
               NoDup (map id (claim now tenant allow db))).
  { unfold claim.
    destruct (order_by_limit1 created_at (filter (pending_where tenant allow) db))
      as [r|] eqn:E; [|auto].
    apply order_by_limit1_In, filter_In in E. destruct E as [Hin Hp].
    split.
    - apply update_by_id_filter; auto.
      unfold pending_where in Hp. apply andb_true_iff in Hp. destruct Hp as [Hp _].
      unfold finished. destruct (status r); simpl in *; congruence.
    - rewrite update_where_ids; auto. }
  destruct Hc as [Hc Hnd1].
  destruct (fetchone (leased_now now) (claim now tenant allow db)) as [row|].
  - inversion H; subst. exact Hc.
  - destruct (find_expired now vt tenant allow (claim now tenant allow db)) as [e|] eqn:E.
    + apply find_expired_spec in E. destruct E as (Hin & Hs & _ & _).
      apply IH in H.
      * rewrite H, <- Hc. unfold recycle. apply update_by_id_filter; auto.
        unfold finished. now rewrite Hs.
      * unfold recycle. rewrite update_where_ids; auto.
    + inversion H; subst. exact Hc.
Qed.

Lemma lease_one_keeps_finished_witness :
  filter (fun r => status_eqb (status r) done || status_eqb (status r) flagged)
         (mixed ++ one_stale_lease) =
  filter (fun r => status_eqb (status r) done || status_eqb (status r) flagged)
         [ row 1 done 1 (Some 5) (Some "tenant-a"%string) 1;
           mkTask 2 "b.txt" None (Some "{}"%string) (Some 9) flagged 3
                  (Some "validation failed"%string) (Some 7) None 2 8;
           mkTask 7 "scan.pdf" (Some "demo"%string) None None leased 2 None
                  (Some 1001) None 0 1001 ].
Proof.
  symmetry.
  apply (lease_one_keeps_finished [1000; 1001] 300 None true
           (mixed ++ one_stale_lease) (Some (mkTask 7 "scan.pdf" (Some "demo"%string)
              None None leased 2 None (Some 1001) None 0 1001)) _ []).
  - simpl. repeat constructor; simpl; intuition discriminate.
  - reflexivity.
Defined.

(** ** [complete] and [flag] with the task's own tenant *)



(** ** Sorting and limiting *)

Lemma insert_desc_perm key r l : Permutation (insert_desc key r l) (r :: l).
Proof.
  induction l as [|x l IH]; simpl; [reflexivity|].
  destruct (key x <=? key r); [reflexivity|].
  rewrite IH. apply perm_swap.
Qed.

Lemma order_by_desc_perm key rows : Permutation (order_by_desc key rows) rows.
Proof.
  induction rows as [|r rows IH]; simpl; [reflexivity|].
  rewrite insert_desc_perm. now constructor.
Qed.

Lemma insert_desc_sorted key r l :
  StronglySorted (fun a b => key b <= key a) l ->
  StronglySorted (fun a b => key b <= key a) (insert_desc key r l).
Proof.
  induction l as [|x l IH]; simpl; intros Hs.
  - repeat constructor.
  - inversion Hs as [|? ? Hs' Hall]; subst.
    destruct (key x <=? key r) eqn:E.
    + apply Z.leb_le in E. constructor; [exact Hs|].
      constructor; [exact E|].
      eapply Forall_impl; [|exact Hall]. simpl. intros; lia.
    + apply Z.leb_gt in E. constructor; [auto|].
      eapply Permutation_Forall; [symmetry; apply insert_desc_perm|].
      constructor; [lia | exact Hall].
Qed.

Lemma order_by_desc_sorted key rows :
  StronglySorted (fun a b => key b <= key a) (order_by_desc key rows).
Proof.
  induction rows as [|r rows IH]; simpl; [constructor|].
  now apply insert_desc_sorted.
Qed.

(** The first row of [ORDER BY key DESC] has the greatest key. *)
Lemma order_by_desc_head key rows h t :
  order_by_desc key rows = h :: t ->
  In h rows /\ forall x, In x rows -> key x <= key h.
Proof.
  intros H. pose proof (order_by_desc_perm key rows) as Hp.
  pose proof (order_by_desc_sorted key rows) as Hs. rewrite H in Hp, Hs.
  split.
  - eapply Permutation_in; [exact Hp | now left].
  - intros x Hx. apply (Permutation_in _ (Permutation_sym Hp)) in Hx.
    destruct Hx as [->|Hx]; [lia|].
    inversion Hs as [|? ? _ Hall]; subst.
    rewrite Forall_forall in Hall. now apply Hall.
Qed.

Lemma limit_rows_incl {A} limit (l : list A) x : In x (limit_rows limit l) -> In x l.
Proof.
  unfold limit_rows. destruct (limit <? 0); [auto|].
  intros H. rewrite <- (firstn_skipn (Z.to_nat limit) l). apply in_or_app. now left.
Qed.

Lemma limit_rows_length {A B} limit (l : list A) (l' : list B) :
  length l = length l' -> length (limit_rows limit l) = length (limit_rows limit l').
Proof.
  unfold limit_rows. intros H. destruct (limit <? 0); [exact H|].
  rewrite !length_firstn. now rewrite H.
Qed.

Lemma limit_rows_NoDup {A B} (f : A -> B) limit (l : list A) :
  NoDup (map f l) -> NoDup (map f (limit_rows limit l)).
Proof.
  unfold limit_rows. destruct (limit <? 0); [auto|].
  intros H. rewrite <- (firstn_skipn (Z.to_nat limit) l), map_app in H.
  now apply NoDup_app_remove_r in H.
Qed.

Lemma filter_NoDup_map {A B} (f : A -> B) (p : A -> bool) l :
  NoDup (map f l) -> NoDup (map f (filter p l)).
Proof.
  induction l as [|x l IH]; simpl; intros H; [constructor|].
  inversion H as [|? ? Hni Hnd]; subst.
  destruct (p x); simpl; auto. constructor; auto.
  intros Hin. apply Hni. apply in_map_iff in Hin. destruct Hin as (y & Hy & Hin).
  apply filter_In in Hin. rewrite <- Hy. apply in_map. tauto.
Qed.

(** ** Re-running flagged tasks *)

Lemma truthy_None_filters r :
  status_eqb (status r) flagged &&
  optional_filter None (text_eq (tenant_id r)) &&
  optional_filter None (like_contains (theme r)) &&
  optional_filter None (like_contains (intent_json r)) =
  status_eqb (status r) flagged.
Proof. simpl. now rewrite !andb_true_r. Qed.

Lemma list_flagged_all limit db :
  list_flagged limit None None None db =
  limit_rows limit
    (order_by_desc updated_at (filter (fun r => status_eqb (status r) flagged) db)).
Proof.
  unfold list_flagged. do 2 f_equal. apply filter_ext. intros r.
  apply truthy_None_filters.
Qed.

Lemma reset_loop clock rows : forall db count,
  NoDup (map id db) -> NoDup (map id rows) ->
  (forall r, In r rows -> In r db /\ status r = flagged) ->
  exists db',
    fold_left (fun (state : list Task * nat) (r : Task) =>
                 let '(db, count) := state in
                 (reset_to_pending (clock count) (id r) db, S count))
              rows (db, count) = (db', (count + length rows)%nat) /\
    (length (filter (fun r => status_eqb (status r) flagged) db') + length rows
     = length (filter (fun r => status_eqb (status r) flagged) db))%nat /\
    (forall x, In x db -> status x <> flagged -> In x db').
Proof.
  induction rows as [|r rows IH]; intros db count Hnd Hrows Hin; cbn [fold_left].
  - exists db. rewrite Nat.add_0_r. simpl. repeat split; auto.
  - destruct (Hin r (or_introl eq_refl)) as [Hr Hs].
    inversion Hrows as [|? ? Hni Hrows']; subst.
    destruct (update_by_id_one (set_reset (clock count)) db r Hnd Hr)
      as (l1 & l2 & Hdb & Hup).
    fold (reset_to_pending (clock count) (id r) db) in Hup.
    destruct (IH (reset_to_pending (clock count) (id r) db) (S count)) as (db' & H1 & H2 & H3).
    + unfold reset_to_pending. rewrite update_where_ids; auto.
    + exact Hrows'.
    + intros x Hx. destruct (Hin x (or_intror Hx)) as [Hxdb Hxs]. split; [|exact Hxs].
      assert (Hne : x <> r).
      { intros ->. apply Hni. now apply in_map. }
      rewrite Hup. rewrite Hdb in Hxdb.
      apply in_app_or in Hxdb. apply in_or_app.
      destruct Hxdb as [|[Heq|]]; [auto | congruence | right; now right].
    + exists db'. repeat split.
      * rewrite H1. f_equal. simpl. lia.
      * rewrite Hup in H2. rewrite Hdb. rewrite filter_app in *. simpl in *.
        rewrite Hs. simpl. rewrite length_app in *. simpl. lia.
      * intros x Hx Hxs. apply H3; [|exact Hxs].
        rewrite Hup. rewrite Hdb in Hx.
        apply in_app_or in Hx. apply in_or_app.
        destruct Hx as [|[Heq|]]; [auto | subst; congruence | right; now right].
Qed.

(** [rerun_flagged] of [scripts/queue_admin.py], for a limit SQLite takes
    and distinct task ids: it returns the number of flagged tasks, capped by
    a non-negative limit; exactly that many tasks leave the flagged status;
    and no task that was not flagged is touched. *)
Theorem rerun_flagged_resets clock limit db :
  sqlite_integer limit ->
  NoDup (map id db) ->
  fst (rerun_flagged clock limit db) =
    length (limit_rows limit (filter (fun r => status_eqb (status r) flagged) db)) /\
  (length (filter (fun r => status_eqb (status r) flagged)
                  (snd (rerun_flagged clock limit db)))
   + fst (rerun_flagged clock limit db)
   = length (filter (fun r => status_eqb (status r) flagged) db))%nat /\
  (forall x, In x db -> status x <> flagged ->
             In x (snd (rerun_flagged clock limit db))).
Proof.
  intros _ Hnd. unfold rerun_flagged. rewrite list_flagged_all.
  set (rows := limit_rows limit _).
  destruct (reset_loop clock rows db O Hnd) as (db' & H1 & H2 & H3).
  - unfold rows. apply limit_rows_NoDup.
    eapply Permutation_NoDup;
      [apply Permutation_map; symmetry; apply order_by_desc_perm|].
    now apply filter_NoDup_map.
  - intros r Hr. unfold rows in Hr. apply limit_rows_incl in Hr.
    apply (Permutation_in _ (order_by_desc_perm _ _)) in Hr.
    apply filter_In in Hr. destruct Hr as [Hr Hs]. split; [exact Hr|].
    destruct (status r); simpl in Hs; congruence.
  - rewrite H1. cbn [fst snd].
    assert (Hlen : length rows =
              length (limit_rows limit (filter (fun r => status_eqb (status r) flagged) db))).
    { unfold rows. apply limit_rows_length. apply Permutation_length, order_by_desc_perm. }
    repeat split; auto; lia.
Qed.

(** On [with_flagged] with limit 1: one of the two flagged tasks is reset. *)
Lemma rerun_flagged_resets_witness :
  fst (rerun_flagged (fun k => (100 + Z.of_nat k)%Z) 1 with_flagged) = 1%nat /\
  (length (filter (fun r => status_eqb (status r) flagged)
                  (snd (rerun_flagged (fun k => (100 + Z.of_nat k)%Z) 1 with_flagged)))
   + fst (rerun_flagged (fun k => (100 + Z.of_nat k)%Z) 1 with_flagged) = 2)%nat.
Proof.
  assert (Hnd : NoDup (map id with_flagged)).
  { simpl. repeat constructor; simpl; intuition discriminate. }
  assert (Hlimit : sqlite_integer 1) by (unfold sqlite_integer; lia).
  destruct (rerun_flagged_resets (fun k => (100 + Z.of_nat k)%Z) 1 with_flagged
              Hlimit Hnd) as (H1 & H2 & _).
  split; [exact H1 | exact H2].
Defined.

(** ** Counting by status *)

Lemma status_partition (rows : list Task) :
  (length (filter (fun r => status_eqb (status r) done) rows)
   + (length (filter (fun r => status_eqb (status r) flagged) rows)
      + (length (filter (fun r => status_eqb (status r) leased) rows)
         + (length (filter (fun r => status_eqb (status r) pending) rows) + 0))))%nat
  = length rows.
Proof.
  induction rows as [|r rows IH]; simpl; [reflexivity|].
  destruct (status r); simpl; lia.
Qed.

Lemma sum_nonzero (entries : list (Status * nat)) :
  list_sum (map snd (filter (fun entry => negb (Nat.eqb (snd entry) 0)) entries))
  = list_sum (map snd entries).
Proof.
  induction entries as [|[st n] entries IH]; simpl; [reflexivity|].
  destruct (Nat.eqb n 0) eqn:E; simpl; rewrite IH; [|reflexivity].
  apply Nat.eqb_eq in E. now subst.
Qed.

Lemma group_by_status_total rows :
  list_sum (map snd (group_by_status rows)) = length rows.
Proof.
  unfold group_by_status. rewrite sum_nonzero. cbn [map snd list_sum fold_right].
  apply status_partition.
Qed.

Lemma group_by_status_entry rows st n :
  In (st, n) (group_by_status rows) <->
  n = length (filter (fun r => status_eqb (status r) st) rows) /\ n <> O.
Proof.
  unfold group_by_status. rewrite filter_In. cbn [map In snd].
  split.
  - intros [H Hn]. apply negb_true_iff, Nat.eqb_neq in Hn. split; [|exact Hn].
    destruct H as [H|[H|[H|[H|[]]]]]; inversion H; reflexivity.
  - intros [-> Hn]. split; [|now apply negb_true_iff, Nat.eqb_neq].
    destruct st; auto.
Qed.

Lemma task_counts_rows tenant db :
  task_counts tenant db =
  group_by_status (filter (fun r => optional_filter tenant (text_eq (tenant_id r))) db).
Proof.
  assert (Hall : filter (fun _ : Task => true) db = db).
  { induction db as [|x db IH]; simpl; congruence. }
  unfold task_counts, optional_filter.
  destruct tenant as [t|]; [destruct (truthy (Some t))|]; congruence.
Qed.

Lemma task_counts_for_job_rows job tenant db :
  task_counts_for_job job tenant db =
  group_by_status
    (filter (fun r => job_eq (job_id r) job &&
                      optional_filter tenant (text_eq (tenant_id r))) db).
Proof.
  unfold task_counts_for_job, optional_filter.
  destruct tenant as [t|]; [destruct (truthy (Some t))|]; f_equal;
    apply filter_ext; intros r; now rewrite ?andb_true_r.
Qed.

(** The dict [task_counts] returns accounts for every task in scope once:
    its values add up to the number of tasks of the tenant (of all tasks
    when the tenant is not truthy), and [status: n] is an entry exactly when
    [n > 0] tasks in scope have that status.  The same holds of
    [task_counts_for_job] for the tasks of the job. *)
Theorem task_counts_account tenant job db :
  (list_sum (map snd (task_counts tenant db)) =
     length (filter (fun r => optional_filter tenant (text_eq (tenant_id r))) db) /\
   forall st n,
     In (st, n) (task_counts tenant db) <->
     n = length (filter (fun r => status_eqb (status r) st)
                   (filter (fun r => optional_filter tenant (text_eq (tenant_id r))) db))
     /\ n <> O) /\
  (list_sum (map snd (task_counts_for_job job tenant db)) =
     length (filter (fun r => job_eq (job_id r) job &&
                              optional_filter tenant (text_eq (tenant_id r))) db) /\
   forall st n,
     In (st, n) (task_counts_for_job job tenant db) <->
     n = length (filter (fun r => status_eqb (status r) st)
                   (filter (fun r => job_eq (job_id r) job &&
                               optional_filter tenant (text_eq (tenant_id r))) db))
     /\ n <> O).
Proof.
  rewrite task_counts_rows, task_counts_for_job_rows.
  repeat apply conj; try apply group_by_status_total;
    intros st n; apply group_by_status_entry.
Qed.

(** ** The last error of a job *)

(** [last_error_for_job] returns nothing exactly when no task of the job
    (and of the truthy tenant) has a last_error; otherwise it returns the
    last_error of such a task whose updated_at no other such task
    exceeds. *)
Theorem last_error_for_job_latest job tenant db :
  (last_error_for_job job tenant db = None ->
   forall r, In r db -> job_id r = Some job ->
             optional_filter tenant (text_eq (tenant_id r)) = true ->
             last_error r = None) /\
  (forall e, last_error_for_job job tenant db = Some e ->
   exists r, In r db /\ job_id r = Some job /\
             optional_filter tenant (text_eq (tenant_id r)) = true /\
             last_error r = Some e /\
             forall x, In x db -> job_id x = Some job ->
                       optional_filter tenant (text_eq (tenant_id x)) = true ->
                       last_error x <> None -> updated_at x <= updated_at r).
Proof.
  unfold last_error_for_job. cbv zeta.
  match goal with |- context [filter ?c db] => set (cond := c) end.
  assert (Hcond : forall r, cond r = true <->
            job_id r = Some job /\
            optional_filter tenant (text_eq (tenant_id r)) = true /\
            last_error r <> None).
  { intros r. unfold cond. rewrite !andb_true_iff.
    change (match tenant with
            | Some t => if truthy tenant then text_eq (tenant_id r) t else true
            | None => true
            end) with (optional_filter tenant (text_eq (tenant_id r))).
    unfold job_eq, is_null.
    destruct (job_id r) as [j|], (last_error r) as [e|]; simpl;
      rewrite ?Z.eqb_eq; intuition (try congruence). }
  assert (Hone : forall l : list Task, limit_rows 1 l = firstn 1 l) by reflexivity.
  rewrite Hone.
  destruct (order_by_desc updated_at (filter cond db)) as [|h t] eqn:E; cbn [firstn].
  - split; [|intros e He; discriminate He]. intros _ r Hr Hj Ht.
    destruct (last_error r) as [e|] eqn:El; [|reflexivity]. exfalso.
    assert (Hin : In r (filter cond db)).
    { apply filter_In. split; [exact Hr|]. apply Hcond. rewrite El. repeat split; congruence. }
    apply (Permutation_in _ (Permutation_sym (order_by_desc_perm updated_at _))) in Hin.
    rewrite E in Hin. contradiction.
  - apply order_by_desc_head in E. destruct E as [Hh Hmax].
    apply filter_In in Hh. destruct Hh as [Hh Hc]. apply Hcond in Hc.
    destruct Hc as (Hj & Ht & He).
    split.
    + intros Hnone. congruence.
    + intros e Hsome. exists h. repeat split; auto.
      intros x Hx Hxj Hxt Hxe. apply Hmax. apply filter_In. split; [exact Hx|].
      apply Hcond. auto.
Qed.

Lemma last_error_for_job_latest_witness :
  exists r, In r with_flagged /\ job_id r = Some 9 /\
            optional_filter None (text_eq (tenant_id r)) = true /\
            last_error r = Some "empty content"%string /\
            forall x, In x with_flagged -> job_id x = Some 9 ->
                      optional_filter None (text_eq (tenant_id x)) = true ->
                      last_error x <> None -> updated_at x <= updated_at r.
Proof.
  exact (proj2 (last_error_for_job_latest 9 None with_flagged) _ eq_refl).
Defined.

(** ** The upload manifest *)

Lemma find_map_update {A} (p : A -> bool) (f : A -> A) l :
  (forall x, p x = true -> p (f x) = true) ->
  find p (map (fun x => if p x then f x else x) l) = option_map f (find p l).
Proof.
  intros Hp. induction l as [|x l IH]; simpl; [reflexivity|].
  destruct (p x) eqn:E.
  - now rewrite (Hp x E).
  - now rewrite E.
Qed.

Lemma find_pointwise {A} (p q : A -> bool) l :
  (forall x, p x = q x) -> find p l = find q l.
Proof.
  intros H. induction l as [|x l IH]; simpl; [reflexivity|].
  now rewrite H, IH.
Qed.

Lemma existsb_find {A} (p : A -> bool) l :
  existsb p l = match find p l with Some _ => true | None => false end.
Proof.
  induction l as [|x l IH]; simpl; [reflexivity|]. destruct (p x); auto.
Qed.

Lemma conflicts_set_upserted now path name size theme sha tenant r :
  conflicts sha tenant (set_upserted now path name size theme r) = conflicts sha tenant r.
Proof. reflexivity. Qed.

(** [upsert_manifest] then [find_manifest], for a truthy tenant: the
    upsert returns a row (its assertion never fails), and the lookup of the
    hash for that tenant finds this very row, which carries the hash, the
    tenant, and the path, size and time of this upload. *)
Theorem upsert_then_find_manifest rowid now sha path name size theme t manifest :
  truthy (Some t) = true ->
  exists row,
    fst (upsert_manifest rowid now sha path name size theme (Some t) manifest) = Some row /\
    find_manifest sha (Some t)
      (snd (upsert_manifest rowid now sha path name size theme (Some t) manifest))
      = Some row /\
    sha256 row = sha /\ manifest_tenant row = Some t /\
    stored_path row = path /\ size_bytes row = size /\ manifest_updated_at row = now.
Proof.
  intros Ht. unfold upsert_manifest, find_manifest. cbn [fst snd]. rewrite Ht.
  assert (Hsame : forall l,
            find (fun r => sha_eq sha r &&
                    (text_eq (manifest_tenant r) t ||
                     is_null (manifest_tenant r) && is_null (Some t))) l
            = find (conflicts sha (Some t)) l).
  { intros l. apply find_pointwise. intros r. unfold conflicts. cbn [is_null].
    now rewrite andb_false_r, orb_false_r. }
  rewrite Hsame.
  change (fun r => sha_eq sha r && text_eq (manifest_tenant r) t)
    with (conflicts sha (Some t)).
  rewrite existsb_find.
  destruct (find (conflicts sha (Some t)) manifest) as [old|] eqn:E.
  - rewrite (find_map_update (conflicts sha (Some t))
               (set_upserted now path name size theme)) by auto.
    rewrite E. cbn [option_map].
    apply find_some in E. destruct E as [_ E].
    unfold conflicts in E. apply andb_true_iff in E. destruct E as [Hs Hten].
    apply String.eqb_eq in Hs. apply text_eq_true in Hten.
    eexists. repeat split; auto.
  - assert (Hnone : forall x, In x manifest -> conflicts sha (Some t) x = false).
    { intros x. now apply find_none. }
    assert (Hnew : forall row, conflicts sha (Some t) row = true ->
              find (conflicts sha (Some t)) (manifest ++ [row]) = Some row).
    { intros row Hrow. rewrite (find_app_none _ _ _ Hnone). cbn [find]. now rewrite Hrow. }
    rewrite !Hnew.
    + eexists. repeat split.
    + unfold conflicts, sha_eq. cbn [sha256 manifest_tenant text_eq].
      now rewrite !String.eqb_refl.
Qed.

Lemma upsert_then_find_manifest_witness :
  exists row,
    fst (upsert_manifest 3 30 "9f86d0" "incoming/30-letter.pdf" None (Some 2048) None
           (Some "tenant-a") known_uploads)%string = Some row /\
    find_manifest "9f86d0" (Some "tenant-a")
      (snd (upsert_manifest 3 30 "9f86d0" "incoming/30-letter.pdf" None (Some 2048) None
              (Some "tenant-a") known_uploads))%string = Some row /\
    sha256 row = "9f86d0"%string /\ manifest_tenant row = Some "tenant-a"%string /\
    stored_path row = "incoming/30-letter.pdf"%string /\ size_bytes row = Some 2048 /\
    manifest_updated_at row = 30.
Proof.
  exact (upsert_then_find_manifest 3 30 "9f86d0" "incoming/30-letter.pdf" None
           (Some 2048) None "tenant-a" known_uploads eq_refl).
Defined.

(** A second upload of a known hash for the same tenant rewrites the
    row of the first in place: the table does not grow, the row keeps its
    id and created_at, and an upload that gives no name or no theme keeps
    the recorded one. *)
Theorem upsert_known_hash_in_place rowid now sha path name size theme t manifest old :
  find (conflicts sha (Some t)) manifest = Some old ->
  length (snd (upsert_manifest rowid now sha path name size theme (Some t) manifest))
    = length manifest /\
  exists row,
    fst (upsert_manifest rowid now sha path name size theme (Some t) manifest) = Some row /\
    manifest_id row = manifest_id old /\
    manifest_created_at row = manifest_created_at old /\
    stored_path row = path /\
    (name = None -> original_name row = original_name old) /\
    (theme = None -> manifest_theme row = manifest_theme old) /\
    (forall n, name = Some n -> original_name row = Some n) /\
    (forall th, theme = Some th -> manifest_theme row = Some th).
Proof.
  intros E. unfold upsert_manifest. cbn [fst snd].
  rewrite existsb_find, E. split; [apply length_map|].
  assert (Hsame : forall l,
            find (fun r => sha_eq sha r &&
                    (text_eq (manifest_tenant r) t ||
                     is_null (manifest_tenant r) && is_null (Some t))) l
            = find (conflicts sha (Some t)) l).
  { intros l. apply find_pointwise. intros r. unfold conflicts. cbn [is_null].
    now rewrite andb_false_r, orb_false_r. }
  rewrite Hsame.
  rewrite (find_map_update (conflicts sha (Some t))
             (set_upserted now path name size theme)) by auto.
  rewrite E. cbn [option_map]. eexists. split; [reflexivity|].
  cbn [set_upserted manifest_id manifest_created_at stored_path original_name
       manifest_theme].
  repeat split; auto; intros; subst; reflexivity.
Qed.

Lemma upsert_known_hash_in_place_witness :
  length (snd (upsert_manifest 3 30 "9f86d0" "incoming/30-letter.pdf" None (Some 2048)
                 None (Some "tenant-a") known_uploads)%string) = 2%nat /\
  exists row,
    fst (upsert_manifest 3 30 "9f86d0" "incoming/30-letter.pdf" None (Some 2048)
           None (Some "tenant-a") known_uploads)%string = Some row /\
    manifest_id row = 1 /\ manifest_created_at row = 10 /\
    original_name row = Some "letter.pdf"%string /\
    manifest_theme row = Some "demo"%string.
Proof.
  destruct (upsert_known_hash_in_place 3 30 "9f86d0" "incoming/30-letter.pdf" None
              (Some 2048) None "tenant-a" known_uploads _ eq_refl)
    as (Hlen & row & Hrow & Hid & Hc & _ & Hn & Hth & _).
  split; [exact Hlen|]. exists row. repeat split; auto.
Defined.

(** Without a tenant nothing collides (a NULL tenant_id is distinct from
    every other in the UNIQUE index): every upsert adds a row, also for a
    hash the table already holds without tenant, and then the row read
    back and returned is the earlier one, with the earlier path. *)
Theorem upsert_without_tenant_appends rowid now sha path name size theme manifest :
  snd (upsert_manifest rowid now sha path name size theme None manifest) =
    manifest ++ [mkManifest rowid sha path name size theme None now now] /\
  (forall old, find_manifest sha None manifest = Some old ->
     fst (upsert_manifest rowid now sha path name size theme None manifest) = Some old) /\
  (find_manifest sha None manifest = None ->
     fst (upsert_manifest rowid now sha path name size theme None manifest) =
       Some (mkManifest rowid sha path name size theme None now now)).
Proof.
  unfold upsert_manifest, find_manifest. cbn [fst snd].
  assert (Hno : existsb (conflicts sha None) manifest = false).
  { induction manifest as [|x l IH]; simpl; [reflexivity|].
    unfold conflicts at 1. now rewrite andb_false_r. }
  rewrite Hno.
  assert (Hsame : forall l,
            find (fun r => sha_eq sha r &&
                    (false || is_null (manifest_tenant r) && is_null (@None string))) l
            = find (fun r => sha_eq sha r && is_null (manifest_tenant r)) l).
  { intros l. apply find_pointwise. intros r. cbn [is_null orb].
    now rewrite andb_true_r. }
  rewrite Hsame. repeat apply conj; [reflexivity| |].
  - intros old Hold. apply find_some in Hold as Hs. destruct Hs as [Hin Hp].
    rewrite (find_app_some _ _ _ old Hin Hp). exact Hold.
  - intros Hnone. rewrite find_app_none.
    + simpl. unfold sha_eq. simpl. now rewrite String.eqb_refl.
    + intros x Hx. exact (find_none _ _ Hnone x Hx).
Qed.

Lemma upsert_without_tenant_appends_witness :
  fst (upsert_manifest 3 30 "60303a" "incoming/30-map.png" (Some "map.png") (Some 512)
         None None known_uploads)%string =
  Some (mkManifest 2 "60303a" "incoming/18-map.png" (Some "map.png") (Some 512)
                   None None 20 20)%string.
Proof.
  apply (proj1 (proj2 (upsert_without_tenant_appends 3 30 "60303a" "incoming/30-map.png"
                         (Some "map.png") (Some 512) None known_uploads)%string)).
  reflexivity.
Defined.

End QueueDbReadSide.

(* ====================================================================== *)
(** * Further properties of the worker *)
(* ====================================================================== *)

Section WorkerValidation.

Import Worker.
Local Open Scope string_scope.

(** ** The validator *)

(** [validate_record] accepts a record exactly when its stripped content
    has at least 10 characters and doc_id and extension are non-empty;
    "empty content" never comes without "content too short to index"; and
    the summary of a non-empty error list is never the empty string. *)
Theorem validate_record_accepts content metadata :
  (match validate_record content metadata with [] => true | _ :: _ => false end =
     Nat.leb 10 (String.length (strip content)) &&
     truthy (doc_id metadata) && truthy (extension metadata)) /\
  (In "empty content" (validate_record content metadata) ->
   In "content too short to index" (validate_record content metadata)) /\
  (String.eqb (summarize_errors (validate_record content metadata)) "" =
     match validate_record content metadata with [] => true | _ :: _ => false end).
Proof.
  unfold validate_record.
  assert (Hempty : String.eqb content "" || String.eqb (strip content) "" = true ->
                   Nat.ltb (String.length (strip content)) 10 = true).
  { intros H. apply orb_true_iff in H. destruct H as [H|H];
      apply String.eqb_eq in H; rewrite H; reflexivity. }
  assert (Hlt : Nat.ltb (String.length (strip content)) 10 =
                negb (Nat.leb 10 (String.length (strip content)))).
  { destruct (Nat.leb 10 _) eqn:E.
    - apply Nat.leb_le in E. apply Nat.ltb_ge. exact E.
    - apply Nat.leb_gt in E. apply Nat.ltb_lt. exact E. }
  destruct (String.eqb content "" || String.eqb (strip content) "") eqn:E1.
  - rewrite (Hempty eq_refl) in *.
    destruct (Nat.leb 10 _); [discriminate|].
    destruct (truthy (doc_id metadata)), (truthy (extension metadata));
      repeat split; simpl; auto.
  - rewrite Hlt. clear Hempty Hlt.
    destruct (Nat.leb 10 _), (truthy (doc_id metadata)), (truthy (extension metadata));
      repeat split; simpl; auto; intros H; repeat destruct H as [H|H];
      try discriminate; try contradiction.
Qed.

(** ** A text too short to index *)

Lemma short_text_invalid text metadata :
  (String.length (strip text) < 10)%nat ->
  exists e errors, validate_record text metadata = e :: errors.
Proof.
  intros Hlen. apply Nat.ltb_lt in Hlen. unfold validate_record. rewrite Hlen.
  destruct (String.eqb text "" || String.eqb (strip text) ""); simpl; eauto.
Qed.

(** A task whose extracted text has fewer than 10 characters once stripped
    is never completed, whatever the row, the settings, the collaborators
    and the enrichment calls do.  When the intent of the task is absent,
    unparsable or a JSON object (lines 162-163 pass), the steps before the
    validation succeed and the call of [queue_db.flag] in the handler
    returns, the task ends flagged with the validation failure.  When
    lines 162-163 raise (an intent that is JSON but no object, such as
    [[1]]), the exception leaves [run_once] before the [try] and the task
    is not flagged. *)
Theorem short_text_is_flagged row settings s x text :
  _process_task s = Ok text ->
  (String.length (strip text) < 10)%nat ->
  (forall artifacts, run_once row settings s x <> Done artifacts) /\
  (forall mode summary_on metadata,
     overrides settings (read_intent s row) = Some (mode, summary_on) ->
     when (has_job row) (set_status_processing s) = Ok tt ->
     infer_metadata s = Ok metadata ->
     period_context s = Ok tt ->
     flag s = Ok tt ->
     run_once row settings s x =
       Flagged ("validation failed: " ++ summarize_errors (validate_record text metadata))) /\
  (overrides settings (read_intent s row) = None ->
   run_once row settings s x = Escaped).
Proof.
  intros Ht Hlen. repeat apply conj.
  - intros artifacts. unfold run_once.
    destruct (overrides settings (read_intent s row)) as [[mode summary_on]|];
      [|discriminate].
    unfold process. rewrite Ht.
    destruct (when (has_job row) (set_status_processing s)) as [[]|m]; cbn [bind].
    2:{ destruct (flag s); discriminate. }
    destruct (infer_metadata s) as [metadata|m]; cbn [bind].
    2:{ destruct (flag s); discriminate. }
    destruct (period_context s) as [[]|m]; cbn [bind].
    2:{ destruct (flag s); discriminate. }
    destruct (short_text_invalid text metadata Hlen) as (e & errors & ->).
    cbn [bind]. destruct (flag s); discriminate.
  - intros mode summary_on metadata Ho Hs Hm Hp Hf.
    unfold run_once. rewrite Ho. unfold process. rewrite Hs, Ht, Hm, Hp. cbn [bind].
    destruct (short_text_invalid text metadata Hlen) as (e & errors & ->).
    cbn [bind]. now rewrite Hf.
  - intros Ho. unfold run_once. now rewrite Ho.
Qed.

Lemma short_text_is_flagged_witness :
  run_once task everything_on five_characters enrichment_ok =
  Flagged "validation failed: content too short to index".
Proof.
  refine (proj1 (proj2 (short_text_is_flagged task everything_on five_characters
                          enrichment_ok "hello" eq_refl _))
                (JString "sync") true
                (mkMetadata (Some "aaf4") (Some "txt")) eq_refl eq_refl eq_refl
                eq_refl eq_refl).
  simpl. lia.
Defined.

End WorkerValidation.

Section WorkerProcessedPath.

Import Worker.
Local Open Scope string_scope.

(** ** Names for processed files *)

Lemma append_list (a b : string) :
  list_ascii_of_string (a ++ b) = (list_ascii_of_string a ++ list_ascii_of_string b)%list.
Proof. induction a as [|c a IH]; simpl; [reflexivity|]. now rewrite IH. Qed.

Lemma append_inj_l (p a b : string) : p ++ a = p ++ b -> a = b.
Proof. induction p as [|c p IH]; simpl; intros H; [exact H|]. inversion H. auto. Qed.

Lemma append_inj_r (a b s : string) : a ++ s = b ++ s -> a = b.
Proof.
  intros H. apply (f_equal list_ascii_of_string) in H. rewrite !append_list in H.
  apply app_inv_tail in H. apply (f_equal string_of_list_ascii) in H.
  now rewrite !string_of_list_ascii_of_string in H.
Qed.

Lemma decimal_inj a b : decimal a = decimal b -> a = b.
Proof.
  unfold decimal. intros H.
  assert (Hn : forall n, Nat.to_uint n <> Decimal.Nil).
  { intros n. rewrite <- (DecimalNat.Unsigned.of_to n) at 1. rewrite DecimalNat.Unsigned.to_of.
    apply DecimalFacts.unorm_nonnil. }
  apply (f_equal NilZero.uint_of_string) in H.
  rewrite !NilZero.usu in H by apply Hn.
  inversion H. now apply DecimalNat.Unsigned.to_uint_inj.
Qed.

Lemma numbered_inj base suffix a b :
  numbered base suffix a = numbered base suffix b -> a = b.
Proof.
  unfold numbered. intros H.
  apply append_inj_l, append_inj_l, append_inj_r in H. now apply decimal_inj.
Qed.

Lemma NoDup_map_injective {A B} (f : A -> B) l :
  (forall a b, f a = f b -> a = b) -> NoDup l -> NoDup (map f l).
Proof.
  intros Hinj H. induction H as [|x l Hni Hnd IH]; simpl; constructor; auto.
  intros Hin. apply in_map_iff in Hin. destruct Hin as (y & Hy & Hin).
  apply Hinj in Hy. now subst.
Qed.

(** What the loop returns: the first numbered candidate, from [idx] on,
    for which [exists()] is false. *)
Lemma next_free_first exists_ base suffix fuel : forall idx candidate,
  next_free exists_ base suffix fuel idx = Some candidate ->
  exists k, (idx <= k < idx + fuel)%nat /\
    candidate = numbered base suffix k /\
    exists_ candidate = false /\
    forall j, (idx <= j < k)%nat -> exists_ (numbered base suffix j) = true.
Proof.
  induction fuel as [|fuel IH]; simpl; intros idx candidate H; [discriminate|].
  destruct (exists_ (numbered base suffix idx)) eqn:E.
  - destruct (IH _ _ H) as (k & Hk & Hc & Hf & Hall).
    exists k. repeat apply conj; auto; try lia.
    intros j Hj. destruct (Nat.eq_dec j idx) as [->|Hne]; [exact E|].
    apply Hall. lia.
  - inversion H; subst. exists idx. repeat apply conj; auto; lia.
Qed.

(** The answer does not depend on the fuel. *)
Lemma next_free_fuel exists_ base suffix fuel : forall fuel' idx a b,
  next_free exists_ base suffix fuel idx = Some a ->
  next_free exists_ base suffix fuel' idx = Some b -> a = b.
Proof.
  induction fuel as [|fuel IH]; simpl; intros fuel' idx a b Ha Hb; [discriminate|].
  destruct fuel' as [|fuel']; simpl in Hb; [discriminate|].
  destruct (exists_ (numbered base suffix idx)).
  - exact (IH _ _ _ _ Ha Hb).
  - congruence.
Qed.

Lemma next_free_none exists_ base suffix fuel : forall idx,
  next_free exists_ base suffix fuel idx = None ->
  forall k, (k < fuel)%nat -> exists_ (numbered base suffix (idx + k)) = true.
Proof.
  induction fuel as [|fuel IH]; simpl; intros idx H k Hk; [lia|].
  destruct (exists_ (numbered base suffix idx)) eqn:E; [|discriminate].
  destruct k as [|k].
  - now rewrite Nat.add_0_r.
  - replace (idx + S k)%nat with (S idx + k)%nat by lia. apply IH; [exact H | lia].
Qed.

(** In a target directory where [exists()] holds of finitely many names,
    the [while True] loop of [_unique_processed_path] ends: the function
    returns after at most as many numbered candidates as there are such
    names, plus one.  What it returns is the first name, in the order
    stem_processed, stem_processed_1, stem_processed_2, ..., for which
    [exists()] is false: every earlier candidate exists. *)
Theorem unique_processed_path_fresh exists_ stem suffix names :
  (forall name, exists_ name = true -> In name names) ->
  exists candidate,
    _unique_processed_path exists_ stem suffix (S (length names)) = Some candidate /\
    (forall fuel other,
       _unique_processed_path exists_ stem suffix fuel = Some other ->
       other = candidate) /\
    exists_ candidate = false /\
    (candidate = (stem ++ "_processed") ++ suffix \/
     exists k, (1 <= k <= S (length names))%nat /\
       candidate = numbered (stem ++ "_processed") suffix k /\
       exists_ ((stem ++ "_processed") ++ suffix) = true /\
       forall j, (1 <= j < k)%nat ->
                 exists_ (numbered (stem ++ "_processed") suffix j) = true).
Proof.
  intros Hfin. unfold _unique_processed_path.
  destruct (exists_ ((stem ++ "_processed") ++ suffix)) eqn:Eplain.
  - destruct (next_free exists_ (stem ++ "_processed") suffix (S (length names)) 1)
      as [candidate|] eqn:E.
    + exists candidate. split; [reflexivity|].
      destruct (next_free_first _ _ _ _ _ _ E) as (k & Hk & Hc & Hf & Hall).
      repeat apply conj.
      * intros fuel other Ho. symmetry. exact (next_free_fuel _ _ _ _ _ _ _ _ E Ho).
      * exact Hf.
      * right. exists k. repeat apply conj; auto; lia.
    + exfalso.
      pose proof (next_free_none _ _ _ _ _ E) as Hall.
      set (candidates := map (fun k => numbered (stem ++ "_processed") suffix (1 + k))
                             (seq 0 (S (length names)))).
      assert (Hnd : NoDup candidates).
      { unfold candidates. apply NoDup_map_injective; [|apply seq_NoDup].
        intros a b H. apply numbered_inj in H. lia. }
      assert (Hincl : incl candidates names).
      { intros name Hin. unfold candidates in Hin. apply in_map_iff in Hin.
        destruct Hin as (k & <- & Hk). apply in_seq in Hk.
        apply Hfin, Hall. lia. }
      pose proof (NoDup_incl_length Hnd Hincl) as Hlen.
      unfold candidates in Hlen. rewrite length_map, length_seq in Hlen. lia.
  - exists ((stem ++ "_processed") ++ suffix). repeat apply conj; auto.
    intros fuel other H. now inversion H.
Qed.

(** A directory that already holds the plain name and the first numbered
    one: the second numbered name is returned. *)
Lemma unique_processed_path_fresh_witness :
  exists candidate,
    _unique_processed_path (listed ["scan_processed.pdf"; "scan_processed_1.pdf"])
                           "scan" ".pdf" 3 = Some candidate /\
    (forall fuel other,
       _unique_processed_path (listed ["scan_processed.pdf"; "scan_processed_1.pdf"])
                              "scan" ".pdf" fuel = Some other ->
       other = candidate) /\
    listed ["scan_processed.pdf"; "scan_processed_1.pdf"] candidate = false.
Proof.
  destruct (unique_processed_path_fresh
              (listed ["scan_processed.pdf"; "scan_processed_1.pdf"])
              "scan" ".pdf" ["scan_processed.pdf"; "scan_processed_1.pdf"])
    as (candidate & H1 & H2 & H3 & _).
  - intros name H. unfold listed in H. apply existsb_exists in H.
    destruct H as (n & Hin & Heq). apply String.eqb_eq in Heq. now subst.
  - exists candidate. repeat apply conj; assumption.
Defined.

(** The name returned in that directory. *)
Example unique_processed_path_second :
  _unique_processed_path (listed ["scan_processed.pdf"; "scan_processed_1.pdf"])
                         "scan" ".pdf" 3 = Some "scan_processed_2.pdf".
Proof. reflexivity. Qed.

End WorkerProcessedPath.

(* ====================================================================== *)
(** * Further properties of the text extraction *)
(* ====================================================================== *)

Section TextExtractionBounds.

Import TextExtraction.

Context {char : Type}.
Variable char_eq_dec : forall a b : char, {a = b} + {a <> b}.
Variables isprintable isalpha isdigit isspace : char -> bool.

Local Abbreviation quality := (_quality char_eq_dec isprintable isalpha isdigit).
Local Abbreviation ocr := (_ocr_image char_eq_dec isprintable isalpha isdigit isspace).

(** ** The range of the score *)

Lemma ratio_nonneg (a b : nat) : (0 < b)%nat -> 0 <= ratio a b.
Proof.
  intros Hb. rewrite ratio_Qmake by assumption. unfold Qle. simpl. lia.
Qed.

Lemma ratio_le_1 (a b : nat) : (a <= b)%nat -> (0 < b)%nat -> ratio a b <= 1.
Proof.
  intros Hab Hb. rewrite ratio_Qmake by assumption. unfold Qle. simpl.
  rewrite Z2Pos.id by lia. lia.
Qed.

Lemma ratio_pos (a b : nat) : (0 < a)%nat -> (0 < b)%nat -> 0 < ratio a b.
Proof.
  intros Ha Hb. rewrite ratio_Qmake by assumption. unfold Qlt. simpl. lia.
Qed.

Lemma count_le (p : char -> bool) l : (count p l <= length l)%nat.
Proof. unfold count. apply filter_length_le. Qed.

Lemma count_disjoint (p q : char -> bool) l :
  (forall c, p c && q c = false) -> (count p l + count q l <= length l)%nat.
Proof.
  intros H. unfold count. induction l as [|c l IH]; simpl; [lia|].
  specialize (H c). destruct (p c), (q c); simpl in *; try discriminate; lia.
Qed.

(** The score [_quality] returns lies between 0 and 0.95 (no character
    being both a letter and a digit, as in Python's tables), the length it
    returns is the number of printable characters, at most [len(text)], and
    the score is 0 exactly for a text without printable character. *)
Theorem quality_bounds text :
  (forall c, isalpha c && isdigit c = false) ->
  0 <= fst (quality text) /\ fst (quality text) <= 95 # 100 /\
  snd (quality text) = count isprintable text /\
  (snd (quality text) <= length text)%nat /\
  (snd (quality text) = 0%nat -> fst (quality text) == 0) /\
  ((0 < snd (quality text))%nat -> 0 < fst (quality text)).
Proof.
  intros Hdisj. unfold _quality.
  destruct text as [|c t]; [simpl; repeat split; try lra; lia|].
  set (text := c :: t).
  pose proof (filter_length_le isprintable text) as Hlen.
  unfold count.
  destruct (Nat.eqb (length (filter isprintable text)) 0) eqn:E.
  - apply Nat.eqb_eq in E. cbn [fst snd]. repeat split; try lra; try lia.
  - apply Nat.eqb_neq in E. cbn [fst snd].
    set (printable := filter isprintable text) in *.
    set (n := length printable) in *.
    assert (Hn : (0 < n)%nat) by lia.
    assert (Ha := count_le isalpha printable).
    assert (Had := count_disjoint isalpha isdigit printable Hdisj).
    unfold count in Ha, Had. fold n in Ha, Had.
    assert (Hm : (0 < Nat.max (length text) 1)%nat) by lia.
    assert (Hnl : (n <= Nat.max (length text) 1)%nat) by lia.
    pose proof (ratio_nonneg (length (filter isalpha printable)) n Hn) as A0.
    pose proof (ratio_le_1 (length (filter isalpha printable)) n Ha Hn) as A1.
    pose proof (ratio_nonneg (length (filter isalpha printable)
                              + length (filter isdigit printable)) n Hn) as D0.
    pose proof (ratio_le_1 (length (filter isalpha printable)
                            + length (filter isdigit printable)) n Had Hn) as D1.
    pose proof (ratio_pos n _ Hn Hm) as P0.
    pose proof (ratio_le_1 n _ Hnl Hm) as P1.
    pose proof (ratio_nonneg (length (nodup char_eq_dec printable)) n Hn) as U0.
    assert (M0 : 0 <= Qmin (ratio (length (nodup char_eq_dec printable)) n) (5 # 10)).
    { apply Q.min_glb; [exact U0 | lra]. }
    pose proof (Q.le_min_r (ratio (length (nodup char_eq_dec printable)) n) (5 # 10)) as M1.
    repeat split; try lra; try lia.
Qed.

(** ** When [_ocr_image] raises, and whom it calls *)

(** [_ocr_image] raises in one case only: the fast engine raises and the
    raw read of the file raises too (after the VLM call failed, when the
    VLM backend is selected).  When that backend is not selected the VLM is
    never called and never named as the source. *)
Theorem ocr_image_failure s b :
  (fst (ocr s b) = Raise <->
     pytesseract b = Raise /\ read_text b = Raise /\
     (hunyuan_selected s = false \/ hunyuan_direct b = Raise)) /\
  (hunyuan_selected s = false ->
     ~ In CallHunyuan (snd (ocr s b)) /\
     forall text name note,
       fst (ocr s b) = Ok (text, name, note) -> name <> "hunyuan"%string).
Proof.
  unfold _ocr_image, fast_engine, escalate, low_quality.
  destruct (hunyuan_selected s) eqn:Hs;
  destruct (hunyuan_direct b) as [direct|] eqn:Hd;
  destruct (pytesseract b) as [text|] eqn:Hp;
  destruct (read_text b) as [raw|] eqn:Hr;
  try (destruct (_quality_float char_eq_dec isprintable isalpha isdigit text)
         as [score length] eqn:Hq;
       destruct (float_lt score (literal 25 100) || Nat.ltb length 30) eqn:Hlow;
       try (destruct (hunyuan_escalation b) as [hy|] eqn:He;
            try destruct (nonblank isspace hy && float_ge _ score) eqn:Hb));
  cbn [fst snd]; (split; [split|]).
  all: try (intros H; discriminate H).
  all: try (intros (H1 & H2 & H3); try discriminate; destruct H3; discriminate).
  all: try (intros _; split;
            [ intros Hin; simpl in Hin; intuition discriminate
            | intros t0 n0 o0 Heq; inversion Heq; subst; discriminate ]).
  all: intros _; repeat split; auto.
Qed.

End TextExtractionBounds.

(** On a line of a letter: the score lies in the range. *)
Lemma quality_bounds_witness :
  0 <= fst (TextExtraction.quality_ascii "Kamloops, 12 May 1911") /\
  fst (TextExtraction.quality_ascii "Kamloops, 12 May 1911") <= 95 # 100.
Proof.
  assert (Hdisj : forall c, TextExtraction.ascii_isalpha c &&
                            TextExtraction.ascii_isdigit c = false).
  { intros c. unfold TextExtraction.ascii_isalpha, TextExtraction.ascii_isdigit.
    destruct (Nat.leb 48 (TextExtraction.code c) && Nat.leb (TextExtraction.code c) 57) eqn:E;
      [|apply andb_false_r].
    apply andb_true_iff in E. destruct E as [E1 E2].
    apply Nat.leb_le in E1, E2.
    replace (Nat.leb 65 (TextExtraction.code c)) with false
      by (symmetry; apply Nat.leb_gt; lia).
    replace (Nat.leb 97 (TextExtraction.code c)) with false
      by (symmetry; apply Nat.leb_gt; lia).
    reflexivity. }
  destruct (quality_bounds ascii_dec TextExtraction.ascii_isprintable
              TextExtraction.ascii_isalpha TextExtraction.ascii_isdigit
              (list_ascii_of_string "Kamloops, 12 May 1911") Hdisj) as (H0 & H1 & _).
  split; [exact H0 | exact H1].
Defined.

(** The VLM backend is not selected and both the fast engine and the raw
    read fail. *)
Lemma ocr_image_failure_witness :
  fst (TextExtraction.ocr_image_ascii
         (TextExtraction.mkSettings true "pytesseract")
         (TextExtraction.mkBackends TextExtraction.Raise TextExtraction.Raise
            TextExtraction.Raise TextExtraction.Raise)) = TextExtraction.Raise.
Proof.
  apply (proj1 (ocr_image_failure ascii_dec TextExtraction.ascii_isprintable
                  TextExtraction.ascii_isalpha TextExtraction.ascii_isdigit
                  TextExtraction.ascii_isspace _ _)).
  repeat split. now left.
Defined.

(* ====================================================================== *)
(** * Further properties of the OCR clean-up *)
(* ====================================================================== *)

Section HunyuanOcrLength.

Import HunyuanOcr.

Context {char : Type}.
Variable char_eq_dec : forall a b : char, {a = b} + {a <> b}.
Variable newline : char.

Lemma run_length_le c (l : list char) : (run_length char_eq_dec c l <= length l)%nat.
Proof.
  induction l as [|d l IH]; simpl; [lia|]. destruct (char_eq_dec d c); lia.
Qed.

Lemma re_sub_scan_length fuel : forall l : list char,
  (length (re_sub_scan char_eq_dec newline fuel l) <= length l)%nat.
Proof.
  induction fuel as [|fuel IH]; intros l; cbn [re_sub_scan]; [lia|].
  destruct l as [|c rest]; [simpl; lia|].
  destruct (dot char_eq_dec newline c && Nat.leb 15 (run_length char_eq_dec c rest)) eqn:E.
  - apply andb_true_iff in E. destruct E as [_ E]. apply Nat.leb_le in E.
    pose proof (run_length_le c rest) as Hk.
    specialize (IH (skipn (run_length char_eq_dec c rest) rest)).
    rewrite length_skipn in IH. cbn [length]. lia.
  - specialize (IH rest). cbn [length]. lia.
Qed.

(** The clean-up never lengthens a text: its result has at most as many
    characters as its input, and the empty text stays empty. *)
Theorem cleanup_never_longer text :
  (length (_clean_repeated_substrings char_eq_dec newline text) <= length text)%nat /\
  _clean_repeated_substrings char_eq_dec newline [] = [].
Proof.
  split; [|reflexivity].
  destruct (clean_prefix_of_collapse char_eq_dec newline text) as [j ->].
  rewrite length_firstn, <- re_sub_runs.
  pose proof (re_sub_scan_length (length text) text) as H. unfold re_sub. lia.
Qed.

(** A text of fewer than 1000 characters in which no character other
    than the line feed occurs 16 times in a row is returned as it is. *)
Theorem cleanup_leaves_clean_text text :
  settled char_eq_dec newline text = true -> (len text < 1000)%Z ->
  _clean_repeated_substrings char_eq_dec newline text = text.
Proof.
  intros Hs Hlen. unfold _clean_repeated_substrings.
  rewrite re_sub_runs, (settled_fixed char_eq_dec newline text Hs).
  apply Z.ltb_lt in Hlen. now rewrite Hlen.
Qed.

End HunyuanOcrLength.

Lemma cleanup_leaves_clean_text_witness :
  HunyuanOcr.clean_ascii "Kamloops, B.C.   ...........   12 May 1911"
  = "Kamloops, B.C.   ...........   12 May 1911"%string.
Proof.
  unfold HunyuanOcr.clean_ascii.
  rewrite (cleanup_leaves_clean_text ascii_dec HunyuanOcr.ascii_newline).
  - reflexivity.
  - reflexivity.
  - reflexivity.
Defined.

(* ====================================================================== *)
(** * Further properties of the geo membership tests *)
(* ====================================================================== *)

Section GeoMembership.

Import GeoContext.
Local Open Scope Q_scope.

(** ** A ring that lies to one side of the point *)

Lemma edge_same_side lat lon p1 p2 :
  Qgtb (snd p1) lat = Qgtb (snd p2) lat -> edge_crossed lat lon p1 p2 = Some false.
Proof.
  destruct p1 as [x1 y1], p2 as [x2 y2]. simpl. intros ->.
  now rewrite Bool.eqb_reflx.
Qed.

Lemma ring_loop_same_side lat lon ring side indices : forall inside,
  (forall p, In p ring -> Qgtb (snd p) lat = side) ->
  (forall i, In i indices -> (i < length ring)%nat) ->
  ring_loop lat lon ring (length ring) indices inside = Some inside.
Proof.
  intros inside Hside. revert inside.
  induction indices as [|i rest IH]; intros inside Hidx; cbn [ring_loop]; [reflexivity|].
  assert (Hi : (i < length ring)%nat) by (apply Hidx; now left).
  assert (Hnext : (Nat.modulo (i + 1) (length ring) < length ring)%nat).
  { apply Nat.mod_upper_bound. lia. }
  rewrite edge_same_side.
  - apply IH. intros k Hk. apply Hidx. now right.
  - transitivity side; [|symmetry]; apply Hside, nth_In; assumption.
Qed.

(** A point that lies north of every vertex of a ring, or on or south of
    the latitude of every vertex, is outside the ring, and the test raises
    nothing: the ray crosses no edge. *)
Theorem point_beside_ring_is_outside lat lon ring :
  (forall p, In p ring -> snd p <= lat) \/ (forall p, In p ring -> lat < snd p) ->
  _point_in_ring lat lon ring = Some false.
Proof.
  intros H. unfold _point_in_ring. cbv zeta.
  match goal with |- (if ?c then _ else _) = _ => destruct c end; [reflexivity|].
  assert (Hidx : forall i, In i (seq 0 (length ring)) -> (i < length ring)%nat).
  { intros i Hi. apply in_seq in Hi. lia. }
  destruct H as [H|H].
  - apply (ring_loop_same_side lat lon ring false); [|exact Hidx].
    intros p Hp. unfold Qgtb. apply negb_false_iff, Qle_bool_iff. now apply H.
  - apply (ring_loop_same_side lat lon ring true); [|exact Hidx].
    intros p Hp. unfold Qgtb. apply negb_true_iff.
    destruct (Qle_bool (snd p) lat) eqn:E; [|reflexivity].
    apply Qle_bool_iff in E. specialize (H p Hp). lra.
Qed.

(** The square of the examples and a point north of it. *)
Lemma point_beside_ring_is_outside_witness :
  _point_in_ring 11 5 square = Some false.
Proof.
  apply point_beside_ring_is_outside. left.
  intros p [<-|[<-|[<-|[<-|[]]]]]; simpl; lra.
Defined.

(** ** The two membership tests side by side *)

Lemma in_some_hole_nil lat lon : in_some_hole lat lon [] = Some false.
Proof. reflexivity. Qed.

(** [geo_filter.point_in_geometry] is at most [geo_context._point_in_feature]:
    every point the spatial filter reports inside a Polygon or MultiPolygon
    is reported inside by the AOI test too (holes only take points away),
    and on a polygon without holes the two tests are the same. *)
Theorem point_in_geometry_implies_feature lat lon geometry :
  (point_in_geometry lat lon geometry = Some true ->
   _point_in_feature lat lon geometry = Some true) /\
  (forall ring,
     point_in_geometry lat lon (Polygon [ring]) =
     _point_in_feature lat lon (Polygon [ring])).
Proof.
  split.
  - destruct geometry as [coords|multi| |]; simpl; try discriminate.
    + destruct coords as [|outer holes]; [discriminate|].
      unfold _point_in_polygon.
      destruct (_point_in_ring lat lon outer) as [[|]|]; try discriminate; auto.
    + destruct multi as [|p multi]; [discriminate|].
      generalize (p :: multi). clear p multi. intros multi.
      induction multi as [|p multi IH]; [discriminate|].
      cbn [_point_in_multipolygon any_exterior].
      destruct p as [|outer holes].
      * cbn [_point_in_polygon]. exact IH.
      * cbn [_point_in_polygon].
        destruct (_point_in_ring lat lon outer) as [[|]|]; try discriminate; auto.
  - intros ring. simpl.
    destruct (_point_in_ring lat lon ring) as [[|]|]; reflexivity.
Qed.

Lemma point_in_geometry_implies_feature_witness :
  _point_in_feature 2 2 reserve_with_lake = Some true.
Proof.
  apply (proj1 (point_in_geometry_implies_feature 2 2 reserve_with_lake)).
  reflexivity.
Defined.

(** ** Filtering search hits by a geometry *)

Lemma any_point_inside_existsb geometry coords hit :
  any_point_inside geometry coords = Some hit ->
  hit = existsb (fun p => match point_in_geometry (fst p) (snd p) geometry with
                          | Some true => true
                          | _ => false
                          end) coords.
Proof.
  revert hit. induction coords as [|[lat lon] rest IH]; simpl; intros hit H.
  - now inversion H.
  - destruct (point_in_geometry lat lon geometry) as [[|]|]; try discriminate.
    + now inversion H.
    + simpl. now apply IH.
Qed.

(** When no membership test raises, [filter_docs_by_geometry] returns, in
    their original order, exactly the hits that have an id and at least one
    point inside the geometry; with no geometry it returns the hits as they
    are. *)
Theorem filter_docs_by_geometry_keeps {doc : Type} (get_id : doc -> option Z)
    docs geometry get_coords_fn filtered :
  filter_docs_by_geometry get_id docs (Some geometry) get_coords_fn = Some filtered ->
  filtered =
    filter (fun d =>
              match get_id d with
              | Some doc_id =>
                  existsb (fun p => match point_in_geometry (fst p) (snd p) geometry with
                                    | Some true => true
                                    | _ => false
                                    end) (get_coords_fn doc_id)
              | None => false
              end) docs /\
  filter_docs_by_geometry get_id docs None get_coords_fn = Some docs.
Proof.
  intros H. split; [|reflexivity]. simpl in H. revert filtered H.
  induction docs as [|d rest IH]; simpl; intros filtered H.
  - now inversion H.
  - destruct (get_id d) as [doc_id|]; [|now apply IH].
    destruct (any_point_inside geometry (get_coords_fn doc_id)) as [hit|] eqn:E;
      [|discriminate].
    apply any_point_inside_existsb in E. rewrite <- E.
    destruct (filter_loop get_id geometry get_coords_fn rest) as [tail|];
      [|discriminate].
    inversion H; subst. rewrite (IH tail eq_refl). reflexivity.
Qed.

(** Of the three hits, the one without id is dropped and both others have
    a point in the square. *)
Lemma filter_docs_by_geometry_keeps_witness :
  [ (Some 1%Z, 0%nat); (Some 2%Z, 2%nat) ] =
  filter (fun d : option Z * nat =>
            match fst d with
            | Some doc_id =>
                existsb (fun p => match point_in_geometry (fst p) (snd p)
                                          (Polygon [square]) with
                                  | Some true => true
                                  | _ => false
                                  end) (points_of doc_id)
            | None => false
            end) hits.
Proof.
  apply (proj1 (filter_docs_by_geometry_keeps fst hits (Polygon [square]) points_of
                  _ eq_refl)).
Defined.

End GeoMembership.

(* ====================================================================== *)
(** * Further properties of the webhook signature *)
(* ====================================================================== *)

Section WebhookRoundTrip.

Import Webhook.
Local Open Scope string_scope.

(** ** The digest is written in hexadecimal digits *)

(** No character of [s] is the letter s. *)
Local Abbreviation no_s := (fun s : string =>
  forallb (fun c => negb (Ascii.eqb c "s")) (list_ascii_of_string s)).

Lemma no_s_append (a b : string) : no_s a = true -> no_s b = true -> no_s (a ++ b) = true.
Proof.
  intros Ha Hb. induction a as [|c a IH]; simpl in *; [exact Hb|].
  apply andb_true_iff in Ha. destruct Ha as [Hc Ha]. rewrite Hc. simpl. auto.
Qed.

Lemma no_s_concat (l : list string) :
  Forall (fun s => no_s s = true) l -> no_s (String.concat "" l) = true.
Proof.
  induction 1 as [|x l Hx Hl IH]; [reflexivity|].
  destruct l as [|y l]; [exact Hx|].
  change (String.concat "" (x :: y :: l)) with (x ++ "" ++ String.concat "" (y :: l)).
  apply no_s_append; [exact Hx|]. exact IH.
Qed.

Lemma hex_digit_no_s (n : N) : (n < 16)%N -> no_s (hex_digit n) = true.
Proof.
  intros Hn.
  assert (Hin : In n (map N.of_nat (seq 0 16))).
  { rewrite <- (N2Nat.id n). apply in_map, in_seq. lia. }
  clear Hn. revert n Hin. apply Forall_forall. vm_compute.
  repeat constructor.
Qed.

Lemma hex_byte_no_s (b : N) : (b < 256)%N -> no_s (hex_byte b) = true.
Proof.
  intros Hb. unfold hex_byte. apply no_s_append; apply hex_digit_no_s.
  - apply N.Div0.div_lt_upper_bound. exact Hb.
  - apply N.mod_lt. discriminate.
Qed.

Lemma big_endian_bytes k x b : In b (big_endian k x) -> (b < 256)%N.
Proof.
  induction k as [|k IH]; simpl; [contradiction|].
  intros [<-|H]; [|auto].
  change 255%N with (N.ones 8). rewrite N.land_ones.
  apply N.mod_lt. discriminate.
Qed.

Lemma sha256_bytes message b : In b (sha256 message) -> (b < 256)%N.
Proof.
  unfold sha256.
  destruct (fold_left compress _ _) as [[[[[[[a0 b0] c0] d0] e0] f0] g0] h0].
  intros H. apply in_flat_map in H. destruct H as (w & _ & H).
  now apply big_endian_bytes in H.
Qed.

Lemma hexdigest_no_s key message : no_s (hex (hmac_sha256 key message)) = true.
Proof.
  unfold hex. apply no_s_concat. apply Forall_forall.
  intros s Hs. apply in_map_iff in Hs. destruct Hs as (b & <- & Hb).
  apply hex_byte_no_s. unfold hmac_sha256 in Hb. now apply sha256_bytes in Hb.
Qed.

(** ** [str.replace] on the header *)

Lemma substring_all (s : string) : String.substring 0 (String.length s) s = s.
Proof. induction s as [|c s IH]; simpl; [reflexivity|]. now rewrite IH. Qed.

Lemma remove_all_no_s (s : string) : forall fuel,
  (String.length s <= fuel)%nat -> no_s s = true ->
  remove_all fuel "sha256=" s = s.
Proof.
  induction s as [|c s IH]; intros fuel Hlen Hs.
  - destruct fuel; reflexivity.
  - destruct fuel as [|fuel]; [simpl in Hlen; lia|].
    simpl in Hs. apply andb_true_iff in Hs. destruct Hs as [Hc Hs].
    apply negb_true_iff in Hc.
    assert (Hp : String.prefix "sha256=" (String c s) = false).
    { cbn [String.prefix]. destruct (ascii_dec "s" c) as [E|E]; [|reflexivity].
      subst c. discriminate. }
    cbn [remove_all]. rewrite Hp. f_equal. apply IH; [simpl in Hlen; lia | exact Hs].
Qed.

Lemma prefix_append (p s : string) : String.prefix p (p ++ s) = true.
Proof.
  induction p as [|c p IH]; simpl; [destruct s; reflexivity|].
  destruct (ascii_dec c c) as [_|E]; [exact IH | congruence].
Qed.

Lemma substring_after_prefix (p s : string) :
  String.substring (String.length p) (String.length (p ++ s) - String.length p) (p ++ s) = s.
Proof.
  induction p as [|c p IH]; simpl.
  - rewrite Nat.sub_0_r. apply substring_all.
  - exact IH.
Qed.

Lemma remove_all_step fuel old c rest :
  String.prefix old (String c rest) = true ->
  remove_all (S fuel) old (String c rest) =
  remove_all fuel old
    (String.substring (String.length old)
       (String.length (String c rest) - String.length old) (String c rest)).
Proof. intros H. cbn [remove_all]. now rewrite H. Qed.

Lemma remove_prefix_of_header (h : string) :
  no_s h = true ->
  remove_all (String.length ("sha256=" ++ h)) "sha256=" ("sha256=" ++ h) = h.
Proof.
  intros Hs.
  pose proof (prefix_append "sha256=" h) as Hp.
  pose proof (substring_after_prefix "sha256=" h) as Hsub.
  change (String.length ("sha256=" ++ h)) with (S (6 + String.length h)) at 1.
  change ("sha256=" ++ h) with (String "s" ("ha256=" ++ h)) in *.
  rewrite (remove_all_step _ _ _ _ Hp), Hsub.
  apply remove_all_no_s; [lia | exact Hs].
Qed.

(** ** Signing and verifying *)

(** Sign, then verify.  For every non-empty token the receiver's
    [verify_signature] accepts, for any body, the header value the worker
    computes from that body; in particular it accepts the
    X-Pukaist-Signature header of every request [_send_callback] builds
    against the compact JSON text that was signed. *)
Theorem signature_round_trip token :
  truthy (Some token) = true ->
  (forall body,
     verify_signature body (Some token)
       (Some ("sha256=" ++ hex (hmac_sha256 (utf8 token) body))) = true) /\
  (forall target now job_id task_id theme file_path status error metadata error_summary,
     truthy (Some target) = true ->
     exists r,
       _send_callback (Some target) (Some token) now job_id task_id theme file_path
                      status error metadata error_summary = Some r /\
       verify_signature
         (utf8 (dumps "," ":" (payload job_id task_id theme file_path status error
                                       metadata error_summary now)))
         (Some token) (header "X-Pukaist-Signature" r) = true).
Proof.
  intros Ht.
  assert (Hv : forall body,
            verify_signature body (Some token)
              (Some ("sha256=" ++ hex (hmac_sha256 (utf8 token) body))) = true).
  { intros body. unfold verify_signature. rewrite Ht.
    assert (Hsig : truthy (Some ("sha256=" ++ hex (hmac_sha256 (utf8 token) body)))
                   && starts_with "sha256=" ("sha256=" ++ hex (hmac_sha256 (utf8 token) body))
                   = true).
    { unfold starts_with. now rewrite prefix_append. }
    rewrite Hsig, remove_prefix_of_header by apply hexdigest_no_s.
    apply String.eqb_refl. }
  split; [exact Hv|].
  intros target now job_id task_id theme file_path status error metadata error_summary Hu.
  destruct (send_callback_signed_text target token now job_id task_id theme file_path
              status error metadata error_summary Hu Ht)
    as (r & Hr & _ & _ & _ & Hsig & _).
  exists r. split; [exact Hr|]. rewrite Hsig. apply Hv.
Qed.

Lemma signature_round_trip_witness :
  verify_signature (utf8 "{}") (Some "s3cret")
    (Some ("sha256=" ++ hex (hmac_sha256 (utf8 "s3cret") (utf8 "{}")))) = true.
Proof.
  apply (proj1 (signature_round_trip "s3cret" eq_refl)).
Defined.

End WebhookRoundTrip.

(* ====================================================================== *)
(** * Properties of the date inference *)
(* ====================================================================== *)

Section MetadataDateFacts.

Import MetadataDate.
Local Open Scope string_scope.
Local Open Scope list_scope.
Local Open Scope nat_scope.

Lemma separated_inv {A} separator optional l (k : list ascii -> option A) v :
  separated separator optional l k = Some v -> exists l', k l' = Some v.
Proof.
  unfold separated. destruct l as [|c rest].
  - destruct optional; [eauto | discriminate].
  - destruct (separator c).
    + destruct (k rest) eqn:E; [intros H; inversion H; subst; eauto|].
      destruct optional; [eauto | discriminate].
    + destruct optional; [eauto | discriminate].
Qed.

Lemma is_digit_value c : is_digit c = true -> nat_of_ascii c - 48 <= 9.
Proof.
  unfold is_digit. intros H. apply andb_true_iff in H. destruct H as [H1 H2].
  apply Nat.leb_le in H1, H2. lia.
Qed.

Lemma between_digit low high c :
  between low high c = true -> 48 <= nat_of_ascii low -> nat_of_ascii high <= 57 ->
  nat_of_ascii low - 48 <= nat_of_ascii c - 48 <= nat_of_ascii high - 48.
Proof.
  unfold between. intros H Hl Hh. apply andb_true_iff in H. destruct H as [H1 H2].
  apply Nat.leb_le in H1, H2. lia.
Qed.

(** What a match captures: a year 20dd, a month 01-12 and a day 01-31. *)
Lemma match_here_groups separator optional l y m d :
  match_here separator optional l = Some (y, m, d) ->
  2000 <= int_of y <= 2099 /\ 1 <= int_of m <= 12 /\ 1 <= int_of d <= 31.
Proof.
  unfold match_here.
  destruct l as [|y1 [|y2 [|y3 [|y4 rest]]]]; try discriminate.
  destruct (Ascii.eqb y1 "2" && Ascii.eqb y2 "0" && is_digit y3 && is_digit y4) eqn:E;
    [|discriminate].
  apply andb_true_iff in E. destruct E as [E E4].
  apply andb_true_iff in E. destruct E as [E E3].
  apply andb_true_iff in E. destruct E as [E1 E2].
  apply Ascii.eqb_eq in E1, E2. subst y1 y2.
  apply is_digit_value in E3, E4.
  intros H. apply separated_inv in H. destruct H as (l1 & H).
  destruct (month_group l1) as [[m' l2]|] eqn:Em; [|discriminate].
  apply separated_inv in H. destruct H as (l3 & H).
  destruct (day_group l3) as [[d' l4]|] eqn:Ed; [|discriminate].
  inversion H; subst. clear H.
  split; [cbn; lia|].
  split.
  - unfold month_group in Em. destruct l1 as [|a [|b r]]; try discriminate.
    destruct (_ || _) eqn:C in Em; [|discriminate]. inversion Em; subst.
    apply orb_true_iff in C. destruct C as [C|C];
      apply andb_true_iff in C; destruct C as [Ca Cb];
      apply Ascii.eqb_eq in Ca; subst a;
      apply between_digit in Cb; cbn in *; lia.
  - unfold day_group in Ed. destruct l3 as [|a [|b r]]; try discriminate.
    destruct (_ || _) eqn:C in Ed; [|discriminate]. inversion Ed; subst.
    apply orb_true_iff in C. destruct C as [C|C];
      [apply orb_true_iff in C; destruct C as [C|C]|];
      apply andb_true_iff in C; destruct C as [Ca Cb].
    + apply Ascii.eqb_eq in Ca; subst a.
      apply between_digit in Cb; cbn in *; lia.
    + apply between_digit in Ca; [|cbn; lia|cbn; lia].
      apply is_digit_value in Cb. cbn in *. lia.
    + apply Ascii.eqb_eq in Ca; subst a.
      apply between_digit in Cb; cbn in *; lia.
Qed.

Lemma search_groups separator optional l y m d :
  search separator optional l = Some (y, m, d) ->
  2000 <= int_of y <= 2099 /\ 1 <= int_of m <= 12 /\ 1 <= int_of d <= 31.
Proof.
  induction l as [|c l IH]; cbn [search].
  - destruct (match_here separator optional []) as [g|] eqn:E; [|discriminate].
    intros H; inversion H; subst. now apply match_here_groups in E.
  - destruct (match_here separator optional (c :: l)) as [g|] eqn:E; [|exact IH].
    intros H; inversion H; subst. now apply match_here_groups in E.
Qed.

Lemma length_string_of_list (l : list ascii) :
  String.length (string_of_list_ascii l) = length l.
Proof. induction l as [|c l IH]; simpl; congruence. Qed.

Lemma append_length (a b : string) :
  String.length (a ++ b) = String.length a + String.length b.
Proof. induction a as [|c a IH]; simpl; congruence. Qed.

Lemma zero_padded_length width n :
  String.length (zero_padded width n) =
  Nat.max width (String.length (NilZero.string_of_uint (Nat.to_uint n))).
Proof.
  unfold zero_padded. rewrite append_length, length_string_of_list, repeat_length. lia.
Qed.

Lemma digits_in_range first count width n :
  forallb (fun k => Nat.eqb (Nat.max width
                      (String.length (NilZero.string_of_uint (Nat.to_uint k)))) width)
          (seq first count) = true ->
  first <= n < first + count ->
  String.length (zero_padded width n) = width.
Proof.
  intros H Hn. rewrite zero_padded_length.
  rewrite forallb_forall in H. apply Nat.eqb_eq, H, in_seq. exact Hn.
Qed.

Lemma isoformat_length y m d :
  2000 <= y <= 2099 -> 1 <= m <= 12 -> 1 <= d <= 31 ->
  String.length (isoformat y m d) = 10.
Proof.
  intros Hy Hm Hd. unfold isoformat. rewrite !append_length.
  rewrite (digits_in_range 2000 100 4 y), (digits_in_range 1 12 2 m),
          (digits_in_range 1 31 2 d); try lia; vm_compute; reflexivity.
Qed.

(** An inferred date is a day of the calendar in the years 2000-2099,
    written as ten characters YYYY-MM-DD: a match such as 2023-02-30,
    which the patterns let through, never becomes the date. *)
Theorem inferred_date_is_calendar_day name content date :
  inferred_date name content = Some date ->
  exists y m d,
    date = isoformat y m d /\
    2000 <= y <= 2099 /\ 1 <= m <= 12 /\ 1 <= d <= days_in_month y m /\
    String.length date = 10.
Proof.
  assert (Hdate : forall separator optional l,
            match search separator optional l with
            | Some groups => date_of groups
            | None => None
            end = Some date ->
            exists y m d,
              date = isoformat y m d /\
              2000 <= y <= 2099 /\ 1 <= m <= 12 /\ 1 <= d <= days_in_month y m /\
              String.length date = 10).
  { intros separator optional l H.
    destruct (search separator optional l) as [[[y m] d]|] eqn:E; [|discriminate].
    apply search_groups in E. destruct E as (Hy & Hm & Hd).
    unfold date_of in H.
    destruct (_ && _) eqn:C in H; [|discriminate]. inversion H; subst. clear H.
    apply andb_true_iff in C. destruct C as [_ C]. apply Nat.leb_le in C.
    exists (int_of y), (int_of m), (int_of d).
    repeat split; try lia. apply isoformat_length; lia. }
  unfold inferred_date.
  destruct (match search name_separator true (list_ascii_of_string name) with
            | Some groups => date_of groups
            | None => None
            end) as [from_name|] eqn:E.
  - intros H. inversion H; subst. exact (Hdate _ _ _ E).
  - apply Hdate.
Qed.

(** A file name with an impossible date and a text with a date. *)
Lemma inferred_date_is_calendar_day_witness :
  inferred_date "scan_2023-02-30.pdf" "Kamloops, 2024/01/05." = Some "2024-01-05" /\
  exists y m d,
    "2024-01-05" = isoformat y m d /\
    2000 <= y <= 2099 /\ 1 <= m <= 12 /\ 1 <= d <= days_in_month y m /\
    String.length "2024-01-05" = 10.
Proof.
  split; [reflexivity|].
  exact (inferred_date_is_calendar_day "scan_2023-02-30.pdf" "Kamloops, 2024/01/05."
           "2024-01-05" eq_refl).
Defined.

End MetadataDateFacts.

(* ====================================================================== *)
(** * Properties of the heuristic insights *)
(* ====================================================================== *)

Section InsightsFacts.

Import Insights.
Local Open Scope string_scope.
Local Open Scope list_scope.
Local Open Scope nat_scope.

Lemma mem_In w l : mem w l = true <-> In w l.
Proof.
  unfold mem. rewrite existsb_exists. split.
  - intros (x & Hx & E). apply String.eqb_eq in E. now subst.
  - intros H. exists w. split; [exact H | apply String.eqb_refl].
Qed.

Lemma keys_from_In tokens : forall seen w,
  In w (keys_from seen tokens) <-> In w tokens /\ ~ In w seen.
Proof.
  induction tokens as [|t tokens IH]; intros seen w; simpl; [tauto|].
  destruct (mem t seen) eqn:E.
  - apply mem_In in E. rewrite IH. split; [tauto|].
    intros [[->|H] Hn]; [contradiction | tauto].
  - assert (Hn : ~ In t seen) by (rewrite <- mem_In; congruence).
    simpl. rewrite IH. simpl. split.
    + intros [->|[H1 H2]]; [tauto|]. split; [tauto|]. tauto.
    + intros [[->|H] Hs]; [tauto|].
      destruct (string_dec t w) as [->|Hne]; [tauto|]. right. tauto.
Qed.

Lemma keys_from_NoDup tokens : forall seen, NoDup (keys_from seen tokens).
Proof.
  induction tokens as [|t tokens IH]; intros seen; simpl; [constructor|].
  destruct (mem t seen); [apply IH|].
  constructor; [|apply IH].
  rewrite keys_from_In. simpl. tauto.
Qed.

Lemma insert_by_count_perm item sorted :
  Permutation (insert_by_count item sorted) (item :: sorted).
Proof.
  induction sorted as [|x l IH]; simpl; [reflexivity|].
  destruct (Nat.leb (snd x) (snd item)); [reflexivity|].
  rewrite IH. apply perm_swap.
Qed.

Lemma sorted_by_count_perm items :
  Permutation (fold_right insert_by_count [] items) items.
Proof.
  induction items as [|x l IH]; simpl; [reflexivity|].
  rewrite insert_by_count_perm. now constructor.
Qed.

Lemma insert_by_count_sorted item sorted :
  StronglySorted (fun a b : string * nat => snd b <= snd a) sorted ->
  StronglySorted (fun a b : string * nat => snd b <= snd a) (insert_by_count item sorted).
Proof.
  induction sorted as [|x l IH]; simpl; intros Hs.
  - repeat constructor.
  - inversion Hs as [|? ? Hs' Hall]; subst.
    destruct (Nat.leb (snd x) (snd item)) eqn:E.
    + apply Nat.leb_le in E. constructor; [exact Hs|].
      constructor; [exact E|].
      eapply Forall_impl; [|exact Hall]. simpl. intros; lia.
    + apply Nat.leb_gt in E. constructor; [auto|].
      eapply Permutation_Forall; [symmetry; apply insert_by_count_perm|].
      constructor; [lia | exact Hall].
Qed.

Lemma sorted_by_count_sorted items :
  StronglySorted (fun a b : string * nat => snd b <= snd a)
                 (fold_right insert_by_count [] items).
Proof.
  induction items as [|x l IH]; simpl; [constructor|].
  now apply insert_by_count_sorted.
Qed.

Lemma occurrences_filter (p : string -> bool) w l :
  p w = true -> occurrences w (filter p l) = occurrences w l.
Proof.
  intros Hw. unfold occurrences. f_equal.
  induction l as [|t l IH]; [reflexivity|]. cbn [filter].
  destruct (p t) eqn:E; cbn [filter]; [now rewrite IH|].
  destruct (String.eqb w t) eqn:Ew; [|exact IH].
  apply String.eqb_eq in Ew. subst t. congruence.
Qed.

(** In a sorted list the items kept by [[:n]] dominate the items cut. *)
Lemma firstn_dominates {A} (R : A -> A -> Prop) n (l : list A) a b :
  StronglySorted R l -> In a (firstn n l) -> In b (skipn n l) -> R a b.
Proof.
  revert n. induction l as [|x l IH]; intros n Hs Ha Hb.
  - destruct n; contradiction.
  - destruct n as [|n]; [contradiction|].
    inversion Hs as [|? ? Hs' Hall]; subst. simpl in Ha, Hb.
    destruct Ha as [->|Ha]; [|eauto].
    rewrite Forall_forall in Hall. apply Hall.
    rewrite <- (firstn_skipn n l). apply in_or_app. now right.
Qed.

(** [top_terms] holds at most ten tokens, each once, each a token of the
    text longer than three characters, and they are the most frequent
    ones: no such token left out occurs more often than one kept.  The
    coordinate fields count and sample the coordinates given. *)
Theorem derive_insights_top_terms text metadata_theme metadata_doc_type coords :
  length (top_terms (derive_insights text metadata_theme metadata_doc_type coords)) <= 10 /\
  NoDup (top_terms (derive_insights text metadata_theme metadata_doc_type coords)) /\
  (forall w, In w (top_terms (derive_insights text metadata_theme metadata_doc_type coords)) ->
     In w (split text) /\ 3 < String.length w) /\
  (forall w u,
     In w (top_terms (derive_insights text metadata_theme metadata_doc_type coords)) ->
     In u (split text) -> 3 < String.length u ->
     ~ In u (top_terms (derive_insights text metadata_theme metadata_doc_type coords)) ->
     occurrences u (split text) <= occurrences w (split text)) /\
  coord_count (derive_insights text metadata_theme metadata_doc_type coords) = length coords /\
  (has_geo (derive_insights text metadata_theme metadata_doc_type coords) = false <->
   coords = []) /\
  (forall sample,
     sample_coords (derive_insights text metadata_theme metadata_doc_type coords)
       = Some sample ->
     sample = firstn 5 coords /\ length sample <= 5).
Proof.
  unfold derive_insights. cbn [top_terms coord_count has_geo sample_coords].
  set (tokens := filter (fun t => Nat.ltb 3 (String.length t)) (split text)).
  set (items := Counter tokens).
  set (sorted := fold_right insert_by_count [] items).
  assert (Hperm : Permutation sorted items) by apply sorted_by_count_perm.
  assert (Hsorted : StronglySorted (fun a b : string * nat => snd b <= snd a) sorted)
    by apply sorted_by_count_sorted.
  assert (Hitems : forall x, In x items <-> In (fst x) tokens /\ snd x = occurrences (fst x) tokens).
  { intros [w n]. unfold items, Counter. rewrite in_map_iff. simpl. split.
    - intros (k & E & Hk). inversion E; subst.
      apply keys_from_In in Hk. tauto.
    - intros [Hw ->]. exists w. split; [reflexivity|].
      apply keys_from_In. simpl. tauto. }
  assert (Hkeys : NoDup (map fst sorted)).
  { eapply Permutation_NoDup; [apply Permutation_map; symmetry; exact Hperm|].
    unfold items, Counter. rewrite map_map. simpl. rewrite map_id.
    apply keys_from_NoDup. }
  assert (Htok : forall w, In w tokens <-> In w (split text) /\ 3 < String.length w).
  { intros w. unfold tokens. rewrite filter_In, Nat.ltb_lt. tauto. }
  assert (Hocc : forall w, 3 < String.length w ->
            occurrences w tokens = occurrences w (split text)).
  { intros w Hw. unfold tokens. apply occurrences_filter. now apply Nat.ltb_lt. }
  unfold most_common. fold sorted.
  repeat apply conj.
  - rewrite length_map, length_firstn. lia.
  - rewrite <- firstn_map. rewrite <- (firstn_skipn 10 (map fst sorted)) in Hkeys.
    now apply NoDup_app_remove_r in Hkeys.
  - intros w Hw. apply in_map_iff in Hw. destruct Hw as (x & <- & Hx).
    apply Htok, Hitems. apply (Permutation_in _ Hperm).
    rewrite <- (firstn_skipn 10 sorted). apply in_or_app. now left.
  - intros w u Hw Hu Hlen Hnot.
    apply in_map_iff in Hw. destruct Hw as (x & <- & Hx).
    assert (Hxi : In x items).
    { apply (Permutation_in _ Hperm). rewrite <- (firstn_skipn 10 sorted).
      apply in_or_app. now left. }
    assert (Hui : In (u, occurrences u tokens) sorted).
    { apply (Permutation_in _ (Permutation_sym Hperm)). apply Hitems. simpl.
      split; [apply Htok; auto | reflexivity]. }
    rewrite <- (firstn_skipn 10 sorted) in Hui. apply in_app_or in Hui.
    destruct Hui as [Hui|Hui].
    + exfalso. apply Hnot. apply in_map_iff. exists (u, occurrences u tokens). auto.
    + pose proof (firstn_dominates _ 10 sorted _ _ Hsorted Hx Hui) as Hle.
      simpl in Hle. apply Hitems in Hxi. destruct Hxi as [Hxt Hxo].
      rewrite Hxo in Hle. apply Htok in Hxt.
      rewrite !Hocc in Hle by tauto. exact Hle.
  - reflexivity.
  - destruct coords; [reflexivity | discriminate].
  - intros ->. reflexivity.
  - intros sample H.
    assert (Hs : sample = firstn 5 coords).
    { destruct coords; [discriminate|]. now inversion H. }
    split; [exact Hs|]. rewrite Hs. apply firstn_le_length.
Qed.

End InsightsFacts.

(* ====================================================================== *)
(** * Properties of the place suggestions *)
(* ====================================================================== *)

Section PlaceExtractFacts.

Import PlaceExtract.
Local Open Scope string_scope.
Local Open Scope list_scope.
Local Open Scope Z_scope.

Variable is_word : ascii -> bool.
Variable lower : string -> string.
Variable title : string -> string.

Local Abbreviation found_in := (fun (haystack : string) (table : Gazetteer)
                                   (s : PlaceSuggestion) =>
  score s = 1%Q /\ source s = "gazetteer" /\
  exists entry, In (entry, (lat s, lon s)) table /\
                name s = title entry /\
                search is_word entry haystack = true).

Lemma scan_invariant haystack limit table0 : forall table seen found,
  incl table table0 ->
  (found = [] \/ Z.of_nat (length found) < limit) ->
  Forall (found_in haystack table0) found ->
  Z.of_nat (length (scan is_word title haystack limit table seen found)) <= Z.max 1 limit /\
  Forall (found_in haystack table0) (scan is_word title haystack limit table seen found).
Proof.
  induction table as [|[entry [la lo]] rest IH]; intros seen found Hincl Hlen Hall;
    cbn [scan].
  - split; [|exact Hall]. destruct Hlen as [->|Hlen]; simpl; lia.
  - assert (Hrest : incl rest table0).
    { intros x Hx. apply Hincl. now right. }
    destruct (search is_word entry haystack) eqn:Es; cbn [negb]; [|now apply IH].
    destruct (mem entry seen); [now apply IH|].
    assert (Hall' : Forall (found_in haystack table0)
                      (found ++ [mkPlaceSuggestion (title entry) la lo 1 "gazetteer"])).
    { apply Forall_app. split; [exact Hall|]. constructor; [|constructor].
      cbn [score source name lat lon]. repeat split.
      exists entry. repeat split; auto. apply Hincl. now left. }
    destruct (limit <=? Z.of_nat (length (found ++ [mkPlaceSuggestion (title entry) la lo 1 "gazetteer"])))
      eqn:El.
    + split; [|exact Hall']. rewrite length_app in *. cbn [length] in *.
      destruct Hlen as [->|Hlen]; simpl; lia.
    + apply IH; auto. right. apply Z.leb_gt in El. exact El.
Qed.

(** [extract_place_suggestions] returns at most [limit] suggestions, and
    at most one when the limit is below one (the limit is tested after the
    append); each has score 1.0 and source "gazetteer", and comes from an
    entry of the gazetteer in use whose name is found in the lowercased
    text between word boundaries, with that entry's coordinates.  Without
    a gazetteer file, or with an empty one, the built-in table is used. *)
Theorem place_suggestions_bounded text parsed limit :
  Z.of_nat (length (extract_place_suggestions is_word lower title text parsed limit))
    <= Z.max 1 limit /\
  (forall s, In s (extract_place_suggestions is_word lower title text parsed limit) ->
     score s = 1%Q /\ source s = "gazetteer" /\
     exists entry, In (entry, (lat s, lon s)) (_lookup_table parsed) /\
                   name s = title entry /\
                   search is_word entry (lower text) = true) /\
  _lookup_table None = BUILTIN_GAZETTEER /\
  _lookup_table (Some []) = BUILTIN_GAZETTEER.
Proof.
  unfold extract_place_suggestions.
  destruct (scan_invariant (lower text) limit (_lookup_table parsed)
              (_lookup_table parsed) [] [] (incl_refl _) (or_introl eq_refl)
              (Forall_nil _)) as [Hlen Hall].
  repeat apply conj; auto.
  rewrite Forall_forall in Hall. exact Hall.
Qed.

End PlaceExtractFacts.

(** A letter naming two places of the built-in table: with limit 1 the one
    the table lists first is suggested, with no limit both, in the order of
    the table. *)
Example place_suggestions_limit_one :
  map PlaceExtract.name
      (PlaceExtract.extract_place_suggestions PlaceExtract.ascii_is_word
         PlaceExtract.ascii_lower PlaceExtract.ascii_title
         "Sent from Victoria to Vancouver." None 1) = ["Vancouver"%string] /\
  map PlaceExtract.name
      (PlaceExtract.extract_place_suggestions PlaceExtract.ascii_is_word
         PlaceExtract.ascii_lower PlaceExtract.ascii_title
         "Sent from Victoria to Vancouver." None 8)
    = ["Vancouver"%string; "Victoria"%string].
Proof. split; reflexivity. Qed.

(* ====================================================================== *)
(** * Properties of the active window *)
(* ====================================================================== *)

Section CodexAutorunFacts.

Import CodexAutorun.
Local Open Scope Z_scope.

(** The active window and the window with start and end exchanged split
    the hours between them: when the two hours differ, an hour is in the
    one exactly when it is not in the other (so a window that wraps past
    midnight is the complement of the daytime window).  Equal hours mean
    always on, and the default window 0-24 holds every hour of the day. *)
Theorem active_window_complement start_hour end_hour h :
  (start_hour <> end_hour ->
   _within_active_window start_hour end_hour h =
   negb (_within_active_window end_hour start_hour h)) /\
  _within_active_window start_hour start_hour h = true /\
  (0 <= h < 24 -> _within_active_window 0 24 h = true).
Proof.
  unfold _within_active_window. repeat apply conj.
  - intros Hne.
    destruct (start_hour =? end_hour) eqn:E; [apply Z.eqb_eq in E; contradiction|].
    destruct (end_hour =? start_hour) eqn:E'; [apply Z.eqb_eq in E'; congruence|].
    destruct (start_hour <? end_hour) eqn:L, (end_hour <? start_hour) eqn:L',
             (start_hour <=? h) eqn:A, (h <? end_hour) eqn:B,
             (end_hour <=? h) eqn:C, (h <? start_hour) eqn:D;
      simpl; try reflexivity; exfalso;
      rewrite ?Z.ltb_lt, ?Z.ltb_ge, ?Z.leb_le, ?Z.leb_gt, ?Z.eqb_neq in *; lia.
  - now rewrite Z.eqb_refl.
  - intros Hh. simpl.
    destruct (0 <=? h) eqn:A, (h <? 24) eqn:B; simpl; try reflexivity; exfalso;
      rewrite ?Z.ltb_lt, ?Z.ltb_ge, ?Z.leb_le, ?Z.leb_gt in *; lia.
Qed.

End CodexAutorunFacts.

(* ====================================================================== *)
(** * Properties of the fallback summary *)
(* ====================================================================== *)

Section FallbackSummary.

Import Worker.
Local Open Scope string_scope.
Local Open Scope nat_scope.

Lemma substring_prefix_length n (s : string) :
  String.length (String.substring 0 n s) = Nat.min n (String.length s).
Proof.
  revert n. induction s as [|c s IH]; intros [|n]; simpl; auto.
Qed.

Lemma substring_prefix_get n k (s : string) c :
  String.get k (String.substring 0 n s) = Some c -> String.get k s = Some c.
Proof.
  revert n k. induction s as [|ch s IH]; intros [|n] [|k]; simpl; try discriminate; eauto.
Qed.

Lemma flatten_get k (s : string) :
  String.get k (flatten s) <> Some (ascii_of_nat 10).
Proof.
  unfold flatten. revert k.
  induction (list_ascii_of_string s) as [|c l IH]; intros k; simpl; [discriminate|].
  destruct k as [|k]; [|apply IH].
  destruct (Ascii.eqb c (ascii_of_nat 10)) eqn:E; [discriminate|].
  apply Ascii.eqb_neq in E. congruence.
Qed.

(** The summary the client falls back on, when it is not configured or its
    request fails, is one line of at most 400 characters of the text (plus
    the ellipsis, which is there exactly when the flattened text is longer):
    it contains no line feed.  A configured client whose request succeeds
    never returns it. *)
Theorem fallback_summary_single_line configured request content first400 ellipsis :
  client_summarize configured request content = Snippet first400 ellipsis ->
  String.length first400 <= 400 /\
  (ellipsis = true -> String.length first400 = 400) /\
  (ellipsis = false -> first400 = flatten (strip content)) /\
  (forall k, String.get k first400 <> Some (ascii_of_nat 10)) /\
  (configured = false \/ exists message, request = Raise message).
Proof.
  intros H.
  assert (Hs : snippet content = Snippet first400 ellipsis /\
               (configured = false \/ exists message, request = Raise message)).
  { unfold client_summarize in H. destruct configured; simpl in H; [|auto].
    destruct request as [text|message]; [discriminate|]. eauto. }
  destruct Hs as [Hs Hwhy]. unfold snippet in Hs. inversion Hs; subst. clear Hs H.
  pose proof (substring_prefix_length 400 (flatten (strip content))) as Hlen.
  repeat apply conj.
  - lia.
  - intros E. apply Nat.ltb_lt in E. lia.
  - intros E. apply Nat.ltb_ge in E.
    assert (Hall : forall (s : string) n, String.length s <= n -> String.substring 0 n s = s).
    { induction s as [|c s IH]; intros [|n] Hn; simpl in *; try reflexivity; try lia.
      f_equal. apply IH. lia. }
    now apply Hall.
  - intros k Hk. apply substring_prefix_get in Hk. now apply flatten_get in Hk.
  - exact Hwhy.
Qed.

Lemma fallback_summary_single_line_witness :
  String.length "Minutes of the band." <= 400 /\
  (forall k, String.get k "Minutes of the band." <> Some (ascii_of_nat 10)).
Proof.
  destruct (fallback_summary_single_line false (Ok "unused") two_lines
              "Minutes of the band." false eq_refl) as (H1 & _ & _ & H4 & _).
  split; assumption.
Defined.

End FallbackSummary.

(* ====================================================================== *)
(** * Properties of the task listings *)
(* ====================================================================== *)

Section QueueDbListings.

Import QueueDb.
Local Open Scope string_scope.
Local Open Scope list_scope.
Local Open Scope Z_scope.

Lemma text_eq_Some column param : text_eq column param = true -> column = Some param.
Proof.
  destruct column as [v|]; simpl; [|discriminate].
  intros H. apply String.eqb_eq in H. now subst.
Qed.

Lemma job_eq_Some column param : job_eq column param = true -> column = Some param.
Proof.
  destruct column as [v|]; simpl; [|discriminate].
  intros H. apply Z.eqb_eq in H. now subst.
Qed.

Lemma status_eqb_eq a b : status_eqb a b = true -> a = b.
Proof. destruct a, b; simpl; congruence. Qed.

Lemma optional_filter_truthy t test :
  truthy (Some t) = true -> optional_filter (Some t) test = test t.
Proof. unfold optional_filter. now intros ->. Qed.

Lemma listed_row_filtered key limit cond (db : list Task) r :
  In r (limit_rows limit (order_by_desc key (filter cond db))) ->
  In r db /\ cond r = true.
Proof.
  intros H. apply limit_rows_incl in H.
  apply (Permutation_in _ (order_by_desc_perm _ _)) in H.
  now apply filter_In in H.
Qed.

Lemma firstn_sorted {A} (R : A -> A -> Prop) n : forall l,
  StronglySorted R l -> StronglySorted R (firstn n l).
Proof.
  induction n as [|n IH]; intros l Hs; [constructor|].
  destruct l as [|x l]; [constructor|].
  inversion Hs as [|? ? Hs' Hall]; subst. simpl. constructor; [auto|].
  rewrite Forall_forall in *. intros y Hy. apply Hall.
  rewrite <- (firstn_skipn n l). apply in_or_app. now left.
Qed.

(** What [ORDER BY key DESC LIMIT ?] gives. *)
Lemma limited_listing key limit (rows : list Task) :
  StronglySorted (fun a b => key b <= key a)
                 (limit_rows limit (order_by_desc key rows)) /\
  (0 <= limit ->
   Z.of_nat (length (limit_rows limit (order_by_desc key rows))) <= limit) /\
  (forall r x,
     In r (limit_rows limit (order_by_desc key rows)) ->
     In x rows -> ~ In x (limit_rows limit (order_by_desc key rows)) ->
     key x <= key r) /\
  (limit < 0 \/ Z.of_nat (length rows) <= limit ->
   Permutation (limit_rows limit (order_by_desc key rows)) rows).
Proof.
  pose proof (order_by_desc_sorted key rows) as Hs.
  pose proof (order_by_desc_perm key rows) as Hp.
  unfold limit_rows. destruct (limit <? 0) eqn:E.
  - repeat apply conj; auto.
    + apply Z.ltb_lt in E. lia.
    + intros r x _ Hx Hn. exfalso. apply Hn.
      eapply Permutation_in; [symmetry; exact Hp | exact Hx].
  - apply Z.ltb_ge in E. repeat apply conj.
    + now apply firstn_sorted.
    + intros _. rewrite length_firstn. lia.
    + intros r x Hr Hx Hn.
      apply (Permutation_in _ (Permutation_sym Hp)) in Hx.
      rewrite <- (firstn_skipn (Z.to_nat limit) (order_by_desc key rows)) in Hx.
      apply in_app_or in Hx. destruct Hx as [Hx|Hx]; [contradiction|].
      exact (firstn_dominates _ _ _ r x Hs Hr Hx).
    + intros [H|H]; [lia|].
      rewrite firstn_all2; [exact Hp|].
      rewrite (Permutation_length Hp). lia.
Qed.

(** Tenant isolation of the listings.  With a tenant given, every row that
    [list_tasks], [list_flagged] or [tasks_for_job] returns is a stored task
    of that tenant: no task of another tenant, and no task without a
    tenant, is listed.  The rows of [list_flagged] are flagged and those of
    [tasks_for_job] belong to the job; a status passed to [list_tasks] is
    the status of every row. *)
Theorem listings_stay_in_tenant t limit status_is theme_contains intent_contains job db :
  truthy (Some t) = true ->
  (forall r,
     In r (list_tasks limit (Some t) status_is theme_contains intent_contains db) ->
     In r db /\ tenant_id r = Some t /\
     (truthy status_is = true -> status_is = Some (status_text (status r)))) /\
  (forall r,
     In r (list_flagged limit (Some t) theme_contains intent_contains db) ->
     In r db /\ tenant_id r = Some t /\ status r = flagged) /\
  (forall r,
     In r (tasks_for_job job (Some t) db) ->
     In r db /\ tenant_id r = Some t /\ job_id r = Some job).
Proof.
  intros Ht. repeat apply conj.
  - intros r Hr. unfold list_tasks in Hr.
    apply listed_row_filtered in Hr. destruct Hr as [Hin Hc].
    rewrite (optional_filter_truthy t _ Ht) in Hc.
    apply andb_true_iff in Hc. destruct Hc as [Hc _].
    apply andb_true_iff in Hc. destruct Hc as [Hc _].
    apply andb_true_iff in Hc. destruct Hc as [Hten Hst].
    repeat apply conj; [exact Hin | now apply text_eq_Some |].
    intros Hs. destruct status_is as [s|]; [|discriminate].
    rewrite (optional_filter_truthy s _ Hs) in Hst.
    apply String.eqb_eq in Hst. now subst.
  - intros r Hr. unfold list_flagged in Hr.
    apply listed_row_filtered in Hr. destruct Hr as [Hin Hc].
    rewrite (optional_filter_truthy t _ Ht) in Hc.
    apply andb_true_iff in Hc. destruct Hc as [Hc _].
    apply andb_true_iff in Hc. destruct Hc as [Hc _].
    apply andb_true_iff in Hc. destruct Hc as [Hst Hten].
    repeat apply conj; [exact Hin | now apply text_eq_Some | now apply status_eqb_eq].
  - intros r Hr. unfold tasks_for_job in Hr. rewrite Ht in Hr.
    apply (Permutation_in _ (order_by_desc_perm _ _)) in Hr.
    apply filter_In in Hr. destruct Hr as [Hin Hc].
    apply andb_true_iff in Hc. destruct Hc as [Hjob Hten].
    repeat apply conj; [exact Hin | now apply text_eq_Some | now apply job_eq_Some].
Qed.

(** [list_tasks] and [list_flagged] return the newest rows, newest first:
    the rows come in descending [created_at] (for [list_flagged],
    [updated_at]), a non-negative limit bounds their number, and a row that
    passes the filters but is cut by the limit is not newer than any row
    returned.  A negative limit cuts nothing: without filters [list_tasks]
    then returns every stored task, and [list_flagged] every flagged one. *)
Theorem listings_newest_first limit tenant status_is theme_contains intent_contains db :
  sqlite_integer limit ->
  (StronglySorted (fun a b => created_at b <= created_at a)
     (list_tasks limit tenant status_is theme_contains intent_contains db) /\
   StronglySorted (fun a b => updated_at b <= updated_at a)
     (list_flagged limit tenant theme_contains intent_contains db)) /\
  (0 <= limit ->
   Z.of_nat (length (list_tasks limit tenant status_is theme_contains intent_contains db))
     <= limit /\
   Z.of_nat (length (list_flagged limit tenant theme_contains intent_contains db))
     <= limit) /\
  (forall r x,
     In r (list_tasks limit tenant status_is theme_contains intent_contains db) ->
     In x (list_tasks (-1) tenant status_is theme_contains intent_contains db) ->
     ~ In x (list_tasks limit tenant status_is theme_contains intent_contains db) ->
     created_at x <= created_at r) /\
  (forall r x,
     In r (list_flagged limit tenant theme_contains intent_contains db) ->
     In x (list_flagged (-1) tenant theme_contains intent_contains db) ->
     ~ In x (list_flagged limit tenant theme_contains intent_contains db) ->
     updated_at x <= updated_at r) /\
  Permutation (list_tasks (-1) None None None None db) db /\
  (forall x, In x (list_flagged (-1) None None None db) <->
             In x db /\ status x = flagged).
Proof.
  intros _. unfold list_tasks, list_flagged.
  match goal with
  | |- context [order_by_desc created_at (filter ?c db)] => set (tasks_cond := c)
  end.
  match goal with
  | |- context [order_by_desc updated_at (filter ?c db)] => set (flagged_cond := c)
  end.
  destruct (limited_listing created_at limit (filter tasks_cond db)) as (T1 & T2 & T3 & _).
  destruct (limited_listing updated_at limit (filter flagged_cond db)) as (F1 & F2 & F3 & _).
  repeat apply conj; auto.
  - intros r x Hr Hx Hn. apply (T3 r x Hr); [|exact Hn].
    apply (Permutation_in _ (order_by_desc_perm _ _)) in Hx. exact Hx.
  - intros r x Hr Hx Hn. apply (F3 r x Hr); [|exact Hn].
    apply (Permutation_in _ (order_by_desc_perm _ _)) in Hx. exact Hx.
  - cbn [limit_rows Z.ltb Z.compare]. etransitivity; [apply order_by_desc_perm|].
    rewrite (filter_ext _ (fun _ => true)) by reflexivity.
    clear. induction db as [|r db IH]; simpl; [constructor | now constructor].
  - intros x. cbn [limit_rows Z.ltb Z.compare]. split.
    + intros Hx.
      apply (Permutation_in _ (order_by_desc_perm _ _)) in Hx.
      apply filter_In in Hx. destruct Hx as [Hin Hc]. split; [exact Hin|].
      unfold flagged_cond in Hc.
      rewrite truthy_None_filters in Hc. now apply status_eqb_eq.
    + intros [Hin Hst].
      apply (Permutation_in _ (Permutation_sym (order_by_desc_perm _ _))).
      apply filter_In. split; [exact Hin|].
      rewrite truthy_None_filters, Hst. reflexivity.
Qed.

End QueueDbListings.

(** The flagged tasks of tenant-a in [with_flagged]. *)
Lemma listings_stay_in_tenant_witness :
  QueueDb.truthy (Some "tenant-a"%string) = true /\
  Forall (fun r => In r QueueDb.with_flagged /\
                   QueueDb.tenant_id r = Some "tenant-a"%string /\
                   QueueDb.status r = QueueDb.flagged)
         (QueueDb.list_flagged 50 (Some "tenant-a"%string) None None QueueDb.with_flagged).
Proof.
  split; [reflexivity|]. apply Forall_forall. intros r Hr.
  exact (proj1 (proj2 (listings_stay_in_tenant "tenant-a" 50 None None None 9
                         QueueDb.with_flagged eq_refl)) r Hr).
Defined.

(** The newest flagged task of [with_flagged]. *)
Lemma listings_newest_first_witness :
  QueueDb.sqlite_integer 1 /\
  (Z.of_nat (length (QueueDb.list_flagged 1 None None None QueueDb.with_flagged)) <= 1)%Z.
Proof.
  assert (Hlimit : QueueDb.sqlite_integer 1) by (unfold QueueDb.sqlite_integer; lia).
  split; [exact Hlimit|].
  refine (proj2 (proj1 (proj2 (listings_newest_first 1 None None None None
                                 QueueDb.with_flagged Hlimit)) _)).
  lia.
Defined.

(* ====================================================================== *)
(** * Properties of the callback URL validation *)
(* ====================================================================== *)

Section CallbacksFacts.

Import Callbacks.
Local Open Scope string_scope.
Local Open Scope list_scope.
Local Open Scope Z_scope.

Context {ip : Type}.
Variable urlparse : string -> option ParseResult.
Variable lower : string -> string.
Variable ip_address : string -> option ip.
Variable is_global : ip -> bool.
Variable getaddrinfo : string -> Z -> string + list string.

Lemma in_allowlist_In host_lc settings :
  in_allowlist lower host_lc settings = true ->
  In host_lc (map lower (callback_allowlist settings)).
Proof.
  unfold in_allowlist. intros H. apply existsb_exists in H.
  destruct H as (x & Hx & E). apply String.eqb_eq in E. now subst.
Qed.

Lemma any_not_global_false ips :
  any_not_global ip_address is_global ips = Some false ->
  forall a, In a ips -> exists i, ip_address a = Some i /\ is_global i = true.
Proof.
  induction ips as [|b ips IH]; simpl; [contradiction|].
  unfold _is_global_ip. destruct (ip_address b) as [i|] eqn:Eb; [|discriminate].
  destruct (is_global i) eqn:Eg; [|discriminate].
  intros H a [<-|Ha]; [eauto | auto].
Qed.

(** What an accepted callback URL is.  Whatever the settings, a non-empty
    URL that passes has the scheme http or https, no user name or password,
    and a host.  With neither [callback_allow_all] nor
    [callback_allow_private] set, its host is moreover on the allowlist, or
    is the literal of a global IP address, or is a name that resolves, to
    at least one address and to global addresses only: no URL towards a
    private or loopback address passes unless its host is allowlisted. *)
Theorem accepted_callback_is_public url settings :
  url <> "" ->
  validate_callback_url urlparse lower ip_address is_global getaddrinfo url settings
    = Accepted ->
  exists parsed host,
    urlparse url = Some parsed /\
    (scheme parsed = "http" \/ scheme parsed = "https") /\
    truthy (username parsed) = false /\ truthy (password parsed) = false /\
    hostname parsed = Some host /\ host <> "" /\
    (callback_allow_all settings = false ->
     callback_allow_private settings = false ->
     In (lower host) (map lower (callback_allowlist settings)) \/
     (exists i, ip_address (lower host) = Some i /\ is_global i = true) \/
     (ip_address (lower host) = None /\
      exists port ips,
        getaddrinfo (lower host) port = inr ips /\ ips <> [] /\
        forall a, In a ips -> exists i, ip_address a = Some i /\ is_global i = true)).
Proof.
  intros Hurl. unfold validate_callback_url.
  destruct (String.eqb url "") eqn:E; [apply String.eqb_eq in E; contradiction|].
  destruct (urlparse url) as [parsed|]; [|discriminate].
  destruct (String.eqb (scheme parsed) "http") eqn:Ehttp;
    [|destruct (String.eqb (scheme parsed) "https") eqn:Ehttps; [|discriminate]];
    cbn [orb negb].
  all: destruct (truthy (username parsed)) eqn:Eu; [discriminate|];
       destruct (truthy (password parsed)) eqn:Ep; [discriminate|]; cbn [orb];
       destruct (hostname parsed) as [host|] eqn:Eh; [|discriminate];
       destruct (String.eqb host "") eqn:Ehost; [discriminate|];
       apply String.eqb_neq in Ehost;
       intros H; exists parsed, host;
       repeat apply conj; auto;
       try (left; now apply String.eqb_eq);
       try (right; now apply String.eqb_eq).
  all: intros Hall Hprivate; rewrite Hall, Hprivate in H;
       destruct (in_allowlist lower (lower host) settings) eqn:Eallow;
         [left; now apply in_allowlist_In|];
       right;
       destruct (port parsed) as [declared|]; [|discriminate];
       unfold _is_ip_address, _is_global_ip in H;
       destruct (ip_address (lower host)) as [i|] eqn:Eip;
         [ left; exists i; split; [reflexivity|];
           destruct (is_global i); [reflexivity | discriminate]
         | right; split; [reflexivity|] ].
  all: match type of H with
       | context [getaddrinfo ?h ?p] =>
           exists p; destruct (getaddrinfo h p) as [exc|[|a rest]] eqn:Eres;
             [discriminate | discriminate |]
       end;
       exists (a :: rest); repeat apply conj; [reflexivity | discriminate |];
       apply any_not_global_false;
       destruct (any_not_global ip_address is_global (a :: rest)) as [[|]|];
         [discriminate | reflexivity | discriminate].
Qed.

End CallbacksFacts.

(** The example URL under the default settings: its host is not on the
    allowlist and resolves to one global address. *)
Lemma accepted_callback_is_public_witness :
  Callbacks.validate_callback_url
    Callbacks.example_urlparse Callbacks.example_lower
    Callbacks.example_ip_address Callbacks.example_is_global
    Callbacks.example_getaddrinfo
    "https://Hooks.Example.org/done" Callbacks.default_settings = Callbacks.Accepted /\
  exists parsed host,
    Callbacks.example_urlparse "https://Hooks.Example.org/done" = Some parsed /\
    Callbacks.hostname parsed = Some host /\
    Callbacks.example_ip_address (Callbacks.example_lower host) = None.
Proof.
  split; [reflexivity|].
  assert (Hurl : "https://Hooks.Example.org/done"%string <> ""%string) by discriminate.
  destruct (accepted_callback_is_public
              Callbacks.example_urlparse Callbacks.example_lower
              Callbacks.example_ip_address Callbacks.example_is_global
              Callbacks.example_getaddrinfo
              "https://Hooks.Example.org/done" Callbacks.default_settings
              Hurl eq_refl)
    as (parsed & host & Hp & _ & _ & _ & Hh & _ & Hrest).
  exists parsed, host. repeat apply conj; [exact Hp | exact Hh |].
  destruct (Hrest eq_refl eq_refl) as [Hin|[(i & Hi & Hg)|(Hnone & _)]].
  - exfalso. inversion Hp; subst parsed. simpl in Hh. inversion Hh; subst host.
    simpl in Hin. intuition discriminate.
  - exfalso. inversion Hp; subst parsed. simpl in Hh. inversion Hh; subst host.
    discriminate Hi.
  - exact Hnone.
Defined.

(* -- end of the development -- *)
